(** * Record reconciliation and standardization: joins, CRS detection, canonical ids

    Shallow embedding of [DataMerger] (data_merger.py) and [DataStandardizer]
    (data_standardizer.py).  Python dictionaries are finite maps, lists are
    lists, raised exceptions are the [Err] branch of [result].  The Shapely
    predicates, the STR-tree query, the HTML table extractor and the
    geopandas reprojection are external libraries: they are section
    variables here, and every statement holds for any implementation. *)

From Stdlib Require Import ZArith QArith Qabs Lia Ascii String.
From stdpp Require Import base option list gmap strings pretty fin_maps.

Local Open Scope string_scope.
Local Open Scope list_scope.
Local Open Scope Z_scope.
Set Warnings "-register-all".

(** ** Scalars, attribute mappings, errors *)

(** JSON scalars as Python sees them after [json.load]: [None], booleans,
    integers and strings. *)
Inductive value : Type :=
  | VNone
  | VBool (b : bool)
  | VInt (n : Z)
  | VStr (s : string).

#[global] Instance value_eq_dec : EqDecision value.
Proof. solve_decision. Defined.

Definition value_to_sum (v : value) : unit + bool + Z + string :=
  match v with
  | VNone => inl (inl (inl tt))
  | VBool b => inl (inl (inr b))
  | VInt n => inl (inr n)
  | VStr s => inr s
  end.

Definition value_of_sum (x : unit + bool + Z + string) : value :=
  match x with
  | inl (inl (inl _)) => VNone
  | inl (inl (inr b)) => VBool b
  | inl (inr n) => VInt n
  | inr s => VStr s
  end.

#[global] Instance value_countable : Countable value.
Proof.
  refine (inj_countable' value_to_sum value_of_sum _).
  intros []; reflexivity.
Defined.

(** Python truth value: [None], [False], [0] and the empty string are falsy. *)
Definition truthy (v : value) : bool :=
  match v with
  | VNone => false
  | VBool b => b
  | VInt n => negb (n =? 0)
  | VStr s => negb (String.eqb s "")
  end.

(** A non-empty dictionary key ([if key ...] on a string key). *)
Definition truthy_key (k : string) : bool := negb (String.eqb k "").

(** Dictionary keys are compared with [==] and [hash]: [True == 1] and
    [False == 0], every other pair of distinct scalars differs. *)
Definition hkey (v : value) : value :=
  match v with
  | VBool b => VInt (if b then 1 else 0)
  | _ => v
  end.

(** Python [==] on scalars. *)
Definition py_eq (a b : value) : Prop := hkey a = hkey b.

(** [properties]: attribute name to scalar. *)
Abbreviation props := (gmap string value).

(** [d.get(k)]: [None] when the key is missing. *)
Definition get (d : props) (k : string) : value := default VNone (d !! k).

(** [d.get(k, dflt)]. *)
Definition get_or (d : props) (k : string) (dflt : value) : value :=
  default dflt (d !! k).

Inductive error : Type :=
  | KeyError (k : string)
  | TypeError
  | AttributeError
  | IndexError
  | ValueError      (* [json.dump] on a record that contains itself *)
  | NoGeometry      (* [feature["geometry"]] missing, or [shape(None)] *)
  | ExternalError.  (* raised inside an external library *)

Inductive result (A : Type) : Type :=
  | Ok (a : A)
  | Err (e : error).
Arguments Ok {A} a.
Arguments Err {A} e.

(** Exceptions propagate: the error monad, with stdpp's [x ← m; k]. *)
#[global] Instance result_ret : MRet result := λ A a, Ok a.
#[global] Instance result_bind : MBind result := λ A B k r,
  match r with
  | Ok a => k a
  | Err e => Err e
  end.

(** A [for] loop whose body may raise, threading an accumulator. *)
Fixpoint for_each {A S} (body : S → A → result S) (s : S) (l : list A) : result S :=
  match l with
  | [] => Ok s
  | x :: l' => s' ← body s x; for_each body s' l'
  end.

(** A [for] loop that appends one element per iteration and may raise. *)
Fixpoint for_collect {A B} (body : A → result B) (l : list A) : result (list B) :=
  match l with
  | [] => Ok []
  | x :: l' => y ← body x; ys ← for_collect body l'; Ok (y :: ys)
  end.

(** ** Geometries and features *)

(** Nested coordinate arrays of a GeoJSON geometry; ordinates are compared
    by their exact numeric value. *)
Inductive coords : Type :=
  | CNum (q : Q)
  | CList (l : list coords).

(** A geometry object: its ["type"] and, when the member is there, its
    ["coordinates"]. *)
Record geometry : Type := {
  g_type : string;
  g_coordinates : option coords
}.

(** A feature dictionary.  [f_geometry = None] stands for a missing or
    [null] geometry member, [f_properties = None] for a missing
    ["properties"] member, [f_id = None] for a missing ["id"] member. *)
Record feature : Type := {
  f_id : option value;
  f_geometry : option geometry;
  f_properties : option props
}.

(** A feature collection: the optional ["crs"] member is reduced to the
    string [crs.properties.name] (the empty string when that path is
    missing), [None] when there is no ["crs"] member at all. *)
Record feature_collection : Type := {
  fc_crs : option string;
  fc_features : list feature
}.

(** [feature.get("properties", {})]. *)
Definition properties_or_empty (f : feature) : props :=
  default ∅ (f_properties f).

(** [for k, v in src.items(): if keep(k, v): dst[k] = v]. *)
Definition copy_items (keep : string → value → bool) (src dst : props) : props :=
  map_fold (λ k v acc, if keep k v then <[k := v]> acc else acc) dst src.

(** [if key and value]. *)
Definition key_and_value (k : string) (v : value) : bool :=
  truthy_key k && truthy v.

(** ** Exact-attribute join: [DataMerger.merge_by_id] *)

(** Lines 20-25: the secondary lookup, later records overwriting earlier
    ones with the same key. *)
Definition secondary_lookup (secondary_id_field : string)
    (features : list feature) : gmap value props :=
  foldl (λ lk f,
           let p := properties_or_empty f in
           let id_value := get p secondary_id_field in
           if truthy id_value then <[hkey id_value := p]> lk else lk)
        ∅ features.

(** Lines 29-44: one primary feature. *)
Definition merge_by_id_feature (lk : gmap value props)
    (primary_id_field : string) (f : feature) : feature :=
  let p := properties_or_empty f in
  let primary_id := get p primary_id_field in
  let p' :=
    if truthy primary_id then
      match lk !! hkey primary_id with
      | Some secondary_props => copy_items key_and_value secondary_props p
      | None => p
      end
    else p in
  {| f_id := None; f_geometry := f_geometry f; f_properties := Some p' |}.

Definition merge_by_id (primary_data secondary_data : feature_collection)
    (primary_id_field secondary_id_field : string) : feature_collection :=
  let lk := secondary_lookup secondary_id_field (fc_features secondary_data) in
  {| fc_crs := None;
     fc_features :=
       map (merge_by_id_feature lk primary_id_field) (fc_features primary_data) |}.

(** ** Scraped-data merge: [DataMerger.merge_scraped_data] *)

(** Lines 172-176: scraped items are bare attribute mappings. *)
Definition scraped_lookup (merge_field : string)
    (scraped_data : list props) : gmap value props :=
  foldl (λ lk item,
           let merge_value := get item merge_field in
           if truthy merge_value then <[hkey merge_value := item]> lk else lk)
        ∅ scraped_data.

(** [if key and value and key != merge_field]. *)
Definition scraped_keep (merge_field : string) (k : string) (v : value) : bool :=
  truthy_key k && truthy v && negb (String.eqb k merge_field).

Definition merge_scraped_feature (lk : gmap value props)
    (merge_field : string) (f : feature) : feature :=
  let p := properties_or_empty f in
  let merge_value := get p merge_field in
  let p' :=
    if truthy merge_value then
      match lk !! hkey merge_value with
      | Some scraped_item => copy_items (scraped_keep merge_field) scraped_item p
      | None => p
      end
    else p in
  {| f_id := None; f_geometry := f_geometry f; f_properties := Some p' |}.

Definition merge_scraped_data (parcel_data : feature_collection)
    (scraped_data : list props) (merge_field : string) : feature_collection :=
  let lk := scraped_lookup merge_field scraped_data in
  {| fc_crs := None;
     fc_features :=
       map (merge_scraped_feature lk merge_field) (fc_features parcel_data) |}.

(** ** Spatial join: [DataMerger.spatial_join] *)

(** What [tree.query] hands back: geometries (Shapely 1.x), or anything
    else, which line 81 skips. *)
Inductive candidate (Shape : Type) : Type :=
  | CandGeom (g : Shape)
  | CandOther (i : Z).
Arguments CandGeom {Shape} g.
Arguments CandOther {Shape} i.

(** The printed summary: parcels with at least one address, addresses
    matched, addresses unmatched, and one entry per "matched multiple
    addresses" line. *)
Record join_summary : Type := {
  parcels_with_address : nat;
  total_matched_addresses : nat;
  unmatched_count : nat;
  multiple_matches : list (value * list value)
}.

Fixpoint enumerate_from {A} (i : nat) (l : list A) : list (nat * A) :=
  match l with
  | [] => []
  | x :: l' => (i, x) :: enumerate_from (S i) l'
  end.

(** [enumerate(l)]. *)
Definition enumerate {A} (l : list A) : list (nat * A) := enumerate_from 0 l.

(** [parcel_to_addresses[idx].append(a)] on an insertion-ordered
    [defaultdict(list)]. *)
Fixpoint append_address (idx : nat) (a : feature)
    (m : list (nat * list feature)) : list (nat * list feature) :=
  match m with
  | [] => [(idx, [a])]
  | (j, l) :: m' =>
      if decide (j = idx) then (j, l ++ [a]) :: m'
      else (j, l) :: append_address idx a m'
  end.

(** [feature["properties"]]. *)
Definition properties_of (f : feature) : result props :=
  match f_properties f with
  | Some p => Ok p
  | None => Err (KeyError "properties")
  end.

(** [l[i]]. *)
Definition index {A} (l : list A) (i : nat) : result A :=
  match l !! i with
  | Some x => Ok x
  | None => Err IndexError
  end.

Section SpatialJoin.
Context {Shape : Type}.
(** [shapely.geometry.shape]; [None] when it raises. *)
Variable shape : geometry → option Shape.
Variable wkt : Shape → string.
Variable contains intersects : Shape → Shape → bool.
(** [STRtree(geoms).query(g)]. *)
Variable query : list Shape → Shape → list (candidate Shape).

(** Lines 54-56: the parallel lists; [parcel_features] holds the position
    of each indexed feature in [parcel_data["features"]], the feature
    object itself being shared with that list. *)
Record parcel_index : Type := {
  parcel_geoms : list Shape;
  parcel_features : list nat;
  geom_wkt_to_idx : gmap string nat
}.

Definition empty_index : parcel_index :=
  {| parcel_geoms := []; parcel_features := []; geom_wkt_to_idx := ∅ |}.

(** Lines 58-65. *)
Definition index_step (ix : parcel_index) (entry : nat * feature)
    : result parcel_index :=
  let '(pos, feature) := entry in
  match f_geometry feature with
  | None => Ok ix
  | Some geom_data =>
      match shape geom_data with
      | None => Err ExternalError
      | Some geom =>
          let geoms := parcel_geoms ix ++ [geom] in
          Ok {| parcel_geoms := geoms;
                parcel_features := parcel_features ix ++ [pos];
                geom_wkt_to_idx :=
                  <[wkt geom := (length geoms - 1)%nat]> (geom_wkt_to_idx ix) |}
      end
  end.

Definition build_index (features : list feature) : result parcel_index :=
  for_each index_step empty_index (enumerate features).

(** Lines 79-90: the candidate loop; the result is the index recorded for
    the chosen candidate, with the candidate. *)
Fixpoint match_candidates (ix : parcel_index) (addr_geom : Shape)
    (candidates : list (candidate Shape)) : result (option (nat * Shape)) :=
  match candidates with
  | [] => Ok None
  | CandOther _ :: rest => match_candidates ix addr_geom rest
  | CandGeom c :: rest =>
      match geom_wkt_to_idx ix !! wkt c with
      | None => match_candidates ix addr_geom rest
      | Some idx =>
          _ ← index (parcel_features ix) idx;
          if contains c addr_geom || intersects c addr_geom
          then Ok (Some (idx, c))
          else match_candidates ix addr_geom rest
      end
  end.

Record match_state : Type := {
  parcel_to_addresses : list (nat * list feature);
  unmatched_addresses : list feature
}.

(** Lines 74-92. *)
Definition address_step (ix : parcel_index) (st : match_state)
    (addr_feature : feature) : result match_state :=
  match f_geometry addr_feature with
  | None => Err NoGeometry
  | Some geom_data =>
      match shape geom_data with
      | None => Err ExternalError
      | Some addr_geom =>
          m ← match_candidates ix addr_geom (query (parcel_geoms ix) addr_geom);
          match m with
          | Some (idx, _) =>
              Ok {| parcel_to_addresses :=
                      append_address idx addr_feature (parcel_to_addresses st);
                    unmatched_addresses := unmatched_addresses st |}
          | None =>
              Ok {| parcel_to_addresses := parcel_to_addresses st;
                    unmatched_addresses := unmatched_addresses st ++ [addr_feature] |}
          end
      end
  end.

Record apply_state : Type := {
  features_now : list feature;
  matched_so_far : nat;
  reported : list (value * list value)
}.

(** Lines 104-106 on the shared parcel feature. *)
Definition write_properties (addr_props : props) (parcel_feature : feature)
    : result feature :=
  match f_properties parcel_feature with
  | Some p =>
      Ok {| f_id := f_id parcel_feature;
            f_geometry := f_geometry parcel_feature;
            f_properties := Some (copy_items key_and_value addr_props p) |}
  | None =>
      if bool_decide (filter (λ kv, key_and_value kv.1 kv.2 = true) addr_props = ∅)
      then Ok parcel_feature
      else Err (KeyError "properties")
  end.

(** Lines 96-107. *)
Definition apply_step (ix : parcel_index)
    (parcel_id_field address_id_field : string)
    (st : apply_state) (entry : nat * list feature) : result apply_state :=
  let '(idx, addr_list) := entry in
  pos ← index (parcel_features ix) idx;
  parcel_feature ← index (features_now st) pos;
  report ←
    (if decide (1 < length addr_list)%nat then
       p ← properties_of parcel_feature;
       let pid := get_or p parcel_id_field (get_or p "FID" (VInt (Z.of_nat idx))) in
       addr_fids ← for_collect
                     (λ a, ap ← properties_of a; Ok (get_or ap address_id_field VNone))
                     addr_list;
       Ok [(pid, addr_fids)]
     else Ok []);
  first ← index addr_list 0;
  addr_props ← properties_of first;
  parcel_feature' ← write_properties addr_props parcel_feature;
  Ok {| features_now := <[pos := parcel_feature']> (features_now st);
        matched_so_far := (matched_so_far st + length addr_list)%nat;
        reported := reported st ++ report |}.

Definition spatial_join (parcel_data address_data : feature_collection)
    (parcel_id_field address_id_field : string)
    : result (feature_collection * join_summary) :=
  ix ← build_index (fc_features parcel_data);
  ms ← for_each (address_step ix)
         {| parcel_to_addresses := []; unmatched_addresses := [] |}
         (fc_features address_data);
  st ← for_each (apply_step ix parcel_id_field address_id_field)
         {| features_now := fc_features parcel_data;
            matched_so_far := 0%nat; reported := [] |}
         (parcel_to_addresses ms);
  Ok ({| fc_crs := fc_crs parcel_data; fc_features := features_now st |},
      {| parcels_with_address := length (parcel_to_addresses ms);
         total_matched_addresses := matched_so_far st;
         unmatched_count := length (unmatched_addresses ms);
         multiple_matches := reported st |}).
End SpatialJoin.
Arguments parcel_index : clear implicits.
Arguments match_state : clear implicits.
Arguments apply_state : clear implicits.

(** Addresses recorded in [parcel_to_addresses]. *)
Definition recorded (m : list (nat * list feature)) : nat :=
  sum_list_with (λ e, length e.2) m.

(** What holds of the index after any number of iterations of the
    indexing loop: the lists are parallel, every recorded index is in
    range, and every indexed position holds a feature with a geometry. *)
Definition index_ok {Shape} (features : list feature) (ix : parcel_index Shape)
    : Prop :=
  length (parcel_geoms ix) = length (parcel_features ix) ∧
  (∀ w idx, geom_wkt_to_idx ix !! w = Some idx →
            (idx < length (parcel_features ix))%nat) ∧
  (∀ idx pos, parcel_features ix !! idx = Some pos →
              ∃ f, features !! pos = Some f ∧ is_Some (f_geometry f)).

(** ** Python string operations

    Characters are code points below 256. *)

(** [str.isspace] on one character. *)
Definition py_isspace (c : ascii) : bool :=
  let n := nat_of_ascii c in
  ((9 <=? n) && (n <=? 13) || (28 <=? n) && (n <=? 32)
   || (n =? 133) || (n =? 160))%nat.

Definition lower_char (c : ascii) : ascii :=
  let n := nat_of_ascii c in
  if ((65 <=? n) && (n <=? 90) || (192 <=? n) && (n <=? 214)
      || (216 <=? n) && (n <=? 222))%nat
  then ascii_of_nat (n + 32) else c.

(** [s.lower()]. *)
Fixpoint py_lower (s : string) : string :=
  match s with
  | EmptyString => EmptyString
  | String c r => String (lower_char c) (py_lower r)
  end.

Fixpoint lstrip_by (p : ascii → bool) (s : string) : string :=
  match s with
  | EmptyString => EmptyString
  | String c r => if p c then lstrip_by p r else s
  end.

Fixpoint rstrip_by (p : ascii → bool) (s : string) : string :=
  match s with
  | EmptyString => EmptyString
  | String c r =>
      match rstrip_by p r with
      | EmptyString => if p c then EmptyString else String c EmptyString
      | r' => String c r'
      end
  end.

Definition strip_by (p : ascii → bool) (s : string) : string :=
  rstrip_by p (lstrip_by p s).

Fixpoint char_in (c : ascii) (chars : string) : bool :=
  match chars with
  | EmptyString => false
  | String d r => if decide (c = d) then true else char_in c r
  end.

(** [s.strip()]. *)
Definition py_strip (s : string) : string := strip_by py_isspace s.

(** [s.strip(chars)]. *)
Definition py_strip_chars (chars s : string) : string :=
  strip_by (λ c, char_in c chars) s.

(** [needle in hay] for a non-empty [needle]. *)
Definition py_contains (needle hay : string) : bool :=
  match String.index 0 needle hay with
  | Some _ => true
  | None => false
  end.

(** [str(v)] and f-string interpolation of a scalar. *)
Definition py_str (v : value) : string :=
  match v with
  | VNone => "None"
  | VBool true => "True"
  | VBool false => "False"
  | VInt n => pretty n
  | VStr s => s
  end.

Fixpoint zeros (n : nat) : string :=
  match n with
  | O => EmptyString
  | S n' => String "0" (zeros n')
  end.

(** [s.zfill(width)]: zeros go after a leading sign. *)
Definition zfill (width : nat) (s : string) : string :=
  let n := String.length s in
  if (width <=? n)%nat then s
  else match s with
       | String c r =>
           if char_in c "+-" then String c (zeros (width - n) +:+ r)
           else zeros (width - n) +:+ s
       | EmptyString => zeros width
       end.

(** [re.sub(r"\s+", "_", s)]. *)
Fixpoint sub_spaces (in_run : bool) (s : string) : string :=
  match s with
  | EmptyString => EmptyString
  | String c r =>
      if py_isspace c
      then (if in_run then sub_spaces true r else String "_" (sub_spaces true r))
      else String c (sub_spaces false r)
  end.

(** Reading a decimal numeral back: [int(s)] on a string of digits. *)
Definition digit_value (c : ascii) : N := (N_of_ascii c - 48)%N.

Fixpoint read_decimal_go (acc : N) (s : string) : N :=
  match s with
  | EmptyString => acc
  | String c r => read_decimal_go (acc * 10 + digit_value c)%N r
  end.

Definition read_decimal (s : string) : N := read_decimal_go 0 s.

Definition is_digit (c : ascii) : bool :=
  ((48 <=? N_of_ascii c) && (N_of_ascii c <=? 57))%N.

Fixpoint all_digits (s : string) : bool :=
  match s with
  | EmptyString => true
  | String c r => is_digit c && all_digits r
  end.

(** [s[n:]]. *)
Fixpoint drop_chars (n : nat) (s : string) : string :=
  match n, s with
  | O, _ => s
  | S n', String _ r => drop_chars n' r
  | S _, EmptyString => EmptyString
  end.

(** ** Structured-text-derived join: [DataMerger.merge_by_pidn] *)

Section StructuredText.
(** BeautifulSoup: for each [<tr>] of the markup, the [.text] of its
    [<th>]/[<td>] cells. *)
Variable table_rows : string → list (list string).

(** Lines 201-212. *)
Definition _extract_properties_from_description (html_string : string)
    : gmap string string :=
  foldl (λ properties cells,
           match cells with
           | [c0; c1] =>
               let key := sub_spaces false (py_lower (py_strip c0)) in
               <[key := py_strip c1]> properties
           | _ => properties
           end)
        ∅ (table_rows html_string).

(** [properties.get("description", "")] handed to the parser, which
    takes markup text only. *)
Definition parse_description (p : props) : result (gmap string string) :=
  match get_or p "description" (VStr "") with
  | VStr d => Ok (_extract_properties_from_description d)
  | _ => Err TypeError
  end.

(** [parsed_properties.get("pidn", "").strip()]. *)
Definition pidn_of (parsed : gmap string string) : string :=
  py_strip (default "" (parsed !! "pidn")).

(** Lines 118-126. *)
Definition address_lookup_step (lk : gmap string (gmap string string))
    (f : feature) : result (gmap string (gmap string string)) :=
  parsed ← parse_description (properties_or_empty f);
  let pidn := pidn_of parsed in
  Ok (if truthy (VStr pidn) then <[pidn := parsed]> lk else lk).

(** Lines 135-160. *)
Definition merge_by_pidn_feature (lk : gmap string (gmap string string))
    (f : feature) : result feature :=
  let p := properties_or_empty f in
  parsed ← parse_description p;
  let p1 := copy_items key_and_value (VStr <$> parsed) p in
  let pidn := pidn_of parsed in
  let p2 :=
    if truthy (VStr pidn) then
      match lk !! pidn with
      | Some address_data => copy_items key_and_value (VStr <$> address_data) p1
      | None => p1
      end
    else p1 in
  Ok {| f_id := Some (default VNone (f_id f));
        f_geometry := f_geometry f;
        f_properties := Some p2 |}.

Definition merge_by_pidn (parcel_data address_data : feature_collection)
    : result feature_collection :=
  lk ← for_each address_lookup_step ∅ (fc_features address_data);
  updated ← for_collect (merge_by_pidn_feature lk) (fc_features parcel_data);
  Ok {| fc_crs := None; fc_features := updated |}.
End StructuredText.

(** ** Cross-encoding join: [DataMerger.join_address_to_parcel]

    The function is modelled from the loaded record lists to the list
    [json.dump] writes out ([updated_features]). *)

(** One loaded record: a feature carrying ["properties"], or a bare
    attribute mapping (one JSONL line). *)
Inductive jrecord : Type :=
  | JFeature (fid : option value) (g : option geometry) (p : props)
  | JBare (p : props).

(** [feature.get('properties', feature)]; a scalar found under
    ["properties"] cannot be subscripted. *)
Definition record_props (r : jrecord) : result props :=
  match r with
  | JFeature _ _ p => Ok p
  | JBare p =>
      match p !! "properties" with
      | Some _ => Err TypeError
      | None => Ok p
      end
  end.

(** The attribute mapping a record carries. *)
Definition attributes (r : jrecord) : props :=
  match r with
  | JFeature _ _ p => p
  | JBare p => p
  end.

(** A record on which [feature.get('properties', feature)] yields its
    attribute mapping. *)
Definition well_formed_record (r : jrecord) : Prop :=
  record_props r = Ok (attributes r).

(** [props[key]]. *)
Definition getitem (p : props) (k : string) : result value :=
  match p !! k with
  | Some v => Ok v
  | None => Err (KeyError k)
  end.

(** A parcel record after lines 245-253.  Line 253 stores [props] under
    ["properties"] when the record has such a member; for a bare record
    [props] is the record itself, so a bare record that was given an
    attribute named ["properties"] ends up containing itself. *)
Inductive updated_record : Type :=
  | Updated (r : jrecord)
  | SelfContaining (p : props).

(** Lines 252-253, the attribute mapping having been updated in place to
    [p']. *)
Definition with_props (r : jrecord) (p' : props) : updated_record :=
  match r with
  | JFeature fid g _ => Updated (JFeature fid g p')
  | JBare _ =>
      match p' !! "properties" with
      | Some _ => SelfContaining p'
      | None => Updated (JBare p')
      end
  end.

(** Lines 236-239. *)
Definition join_lookup_step (address_key : string)
    (lk : gmap value props) (r : jrecord) : result (gmap value props) :=
  p ← record_props r;
  key ← getitem p address_key;
  Ok (<[hkey key := p]> lk).

(** [if k != address_key]. *)
Definition not_address_key (address_key : string) (k : string) (v : value) : bool :=
  negb (String.eqb k address_key).

(** Lines 244-254. *)
Definition join_record (lk : gmap value props)
    (parcel_key address_key : string) (r : jrecord) : result updated_record :=
  p ← record_props r;
  key ← getitem p parcel_key;
  Ok (with_props r
        match lk !! hkey key with
        | Some address_props =>
            copy_items (not_address_key address_key) address_props p
        | None => p
        end).

(** Lines 263-268: [json.dump] writes the records out, and raises on one
    that contains itself. *)
Definition json_dump (records : list updated_record) : result (list jrecord) :=
  for_collect (λ u, match u with
                    | Updated r => Ok r
                    | SelfContaining _ => Err ValueError
                    end) records.

Definition join_address_to_parcel (parcel_features address_features : list jrecord)
    (parcel_key address_key : string) : result (list jrecord) :=
  lk ← for_each (join_lookup_step address_key) ∅ address_features;
  updated_features ← for_collect (join_record lk parcel_key address_key)
                                 parcel_features;
  json_dump updated_features.

(** ** CRS detection: [DataStandardizer.detect_coordinate_system] *)

Definition EPSG_4326 : string := "EPSG:4326".
Definition EPSG_3739 : string := "EPSG:3739".
Definition EPSG_3738 : string := "EPSG:3738".

(** Truth value of a coordinate array (or number). *)
Definition coords_truthy (c : coords) : bool :=
  match c with
  | CNum q => negb (Qeq_bool q 0)
  | CList [] => false
  | CList (_ :: _) => true
  end.

(** Lines 54-57: the test of the search loop. *)
Definition has_coordinates (f : feature) : bool :=
  match f_geometry f with
  | Some g =>
      match g_coordinates g with
      | Some c => coords_truthy c
      | None => false
      end
  | None => false
  end.

(** [c[i]] on a coordinate array. *)
Definition item (c : coords) (i : nat) : result coords :=
  match c with
  | CList l => index l i
  | CNum _ => Err TypeError
  end.

(** An ordinate entering a numeric comparison. *)
Definition ordinate (c : coords) : result Q :=
  match c with
  | CNum q => Ok q
  | CList _ => Err TypeError
  end.

(** [a < b] on numbers. *)
Definition Qlt_bool (a b : Q) : bool := negb (Qle_bool b a).

(** Lines 69-72: [None] for any other geometry type. *)
Definition first_point (g : geometry) : result (option coords) :=
  match g_coordinates g with
  | None => Err (KeyError "coordinates")
  | Some coordinates =>
      if String.eqb (g_type g) "Polygon" then
        ring ← item coordinates 0;
        pt ← item ring 0;
        Ok (Some pt)
      else if String.eqb (g_type g) "MultiPolygon" then
        polygon ← item coordinates 0;
        ring ← item polygon 0;
        pt ← item ring 0;
        Ok (Some pt)
      else Ok None
  end.

(** Lines 78-86, with the evaluation order of the chained comparisons. *)
Definition classify_point (pt : coords) : result string :=
  x ← item pt 0;
  y ← item pt 1;
  xq ← ordinate x;
  geographic ←
    (if Qle_bool (-180) xq && Qle_bool xq 180 then
       yq ← ordinate y;
       Ok (Qle_bool (-90) yq && Qle_bool yq 90)
     else Ok false);
  if (geographic : bool) then Ok EPSG_4326
  else if Qlt_bool 1000000 xq then Ok EPSG_3739
  else
    yq ← ordinate y;
    if Qlt_bool 1000000 yq then Ok EPSG_3739 else Ok EPSG_4326.

(** Lines 42-49: [None] when the branch falls through. *)
Definition explicit_crs (geojson_data : feature_collection) : option string :=
  match fc_crs geojson_data with
  | None => None
  | Some crs_name =>
      if py_contains "3738" crs_name then Some EPSG_3738
      else if py_contains "EPSG:3739" crs_name || py_contains "EPSG:2677" crs_name
      then Some EPSG_3739
      else if py_contains "EPSG:4326" crs_name then Some EPSG_4326
      else None
  end.

Definition detect_coordinate_system (geojson_data : feature_collection)
    : result string :=
  match fc_features geojson_data with
  | [] => Ok EPSG_4326
  | _ :: _ =>
      match explicit_crs geojson_data with
      | Some crs => Ok crs
      | None =>
          match List.find has_coordinates (fc_features geojson_data) with
          | None => Ok EPSG_4326
          | Some first_valid_feature =>
              match f_geometry first_valid_feature with
              | None => Err TypeError
              | Some geometry =>
                  coords ← first_point geometry;
                  match coords with
                  | None => Ok EPSG_4326
                  | Some pt =>
                      if coords_truthy pt then classify_point pt
                      else Ok EPSG_4326
                  end
              end
          end
      end
  end.

(** The first coordinate pair of a polygonal geometry: the first point
    of the first ring (of the first polygon). *)
Definition first_pair (g : geometry) (x y : Q) : Prop :=
  (g_type g = "Polygon" ∧
   ∃ rest pts rings,
     g_coordinates g
       = Some (CList (CList (CList (CNum x :: CNum y :: rest) :: pts) :: rings))) ∨
  (g_type g = "MultiPolygon" ∧
   ∃ rest pts rings polygons,
     g_coordinates g
       = Some (CList (CList (CList (CList (CNum x :: CNum y :: rest) :: pts)
                             :: rings) :: polygons))).

(** ** Elevation stripping: [DataStandardizer.convert_to_2d_coordinates] *)

(** [if len(coord) > 2: ring[i] = [coord[0], coord[1]]]. *)
Definition truncate_point (coord : coords) : result coords :=
  match coord with
  | CList (a :: b :: _ :: _) => Ok (CList [a; b])
  | CList _ => Ok coord
  | CNum _ => Err TypeError
  end.

Definition convert_ring (ring : coords) : result coords :=
  match ring with
  | CList pts => pts' ← for_collect truncate_point pts; Ok (CList pts')
  | CNum _ => Err TypeError
  end.

Definition convert_polygon (rings : coords) : result coords :=
  match rings with
  | CList rs => rs' ← for_collect convert_ring rs; Ok (CList rs')
  | CNum _ => Err TypeError
  end.

Definition convert_multipolygon (polygons : coords) : result coords :=
  match polygons with
  | CList ps => ps' ← for_collect convert_polygon ps; Ok (CList ps')
  | CNum _ => Err TypeError
  end.

Definition convert_feature (f : feature) : result feature :=
  match f_geometry f with
  | None => Ok f
  | Some g =>
      match g_coordinates g with
      | None => Ok f
      | Some c =>
          c' ← (if String.eqb (g_type g) "Polygon" then convert_polygon c
                else if String.eqb (g_type g) "MultiPolygon" then convert_multipolygon c
                else Ok c);
          Ok {| f_id := f_id f;
                f_geometry := Some {| g_type := g_type g; g_coordinates := Some c' |};
                f_properties := f_properties f |}
      end
  end.

Definition convert_to_2d_coordinates (geojson_data : feature_collection)
    : result feature_collection :=
  fs ← for_collect convert_feature (fc_features geojson_data);
  Ok {| fc_crs := fc_crs geojson_data; fc_features := fs |}.

(** ** Field mapping: [DataStandardizer.standardize_ownership] *)

(** One entry of ["standardized_links"]. *)
Record link_info : Type := {
  static_url : option string;
  base_url : option string;
  link_field : option string
}.

(** The ["ownership"] configuration of one county; a member that is
    absent is the empty map. *)
Record county_config : Type := {
  standardization_mappings : gmap string (list string);
  standardized_links : gmap string link_info
}.

Definition get_mappings (config : gmap string county_config)
    (county_name : string) : gmap string (list string) :=
  default ∅ (standardization_mappings <$> config !! county_name).

Definition get_links_config (config : gmap string county_config)
    (county_name : string) : gmap string link_info :=
  default ∅ (standardized_links <$> config !! county_name).

(** Lines 243-249. *)
Definition _extract_from_mapping (p : props)
    (mappings : gmap string (list string)) (field : string) : value :=
  match default [] (mappings !! field) with
  | key :: _ => get p key
  | [] => VNone
  end.

(** [props.get(mailing_mapping[i], "") if len(mailing_mapping) > i else ""]. *)
Definition positional (p : props) (mailing_mapping : list string) (i : nat) : value :=
  match mailing_mapping !! i with
  | Some key => get_or p key (VStr "")
  | None => VStr ""
  end.

(** Lines 251-267. *)
Definition _extract_mailing_address (p : props)
    (mappings : gmap string (list string)) : result value :=
  let mailing_mapping := default [] (mappings !! "mailing_address") in
  if decide (1 < length mailing_mapping)%nat then
    let address := positional p mailing_mapping 0 in
    let city := positional p mailing_mapping 1 in
    let state := positional p mailing_mapping 2 in
    let zip_code := positional p mailing_mapping 3 in
    if truthy city || truthy state || truthy zip_code then
      match address with
      | VStr line =>
          Ok (VStr (py_strip_chars ", "
                      (line +:+ py_strip (", " +:+ py_str city +:+ ", "
                                          +:+ py_str state +:+ " "
                                          +:+ py_str zip_code))))
      | _ => Err TypeError
      end
    else
      match address with
      | VStr line => Ok (VStr (py_strip_chars ", " line))
      | _ => Err AttributeError
      end
  else
    match mailing_mapping with
    | [key] =>
        match p !! key with
        | Some v => Ok (if truthy v then v else VNone)
        | None => Ok VNone
        end
    | _ => Ok VNone
    end.

(** [build_link], lines 190-201. *)
Definition build_link (p : props) (info : option link_info) : value :=
  match info with
  | None => VNone
  | Some li =>
      match static_url li with
      | Some u => VStr u
      | None =>
          match base_url li, link_field li with
          | Some b, Some fld =>
              let field_val := get p fld in
              if truthy field_val then VStr (b +:+ py_str field_val) else VNone
          | _, _ => VNone
          end
      end
  end.

(** [v or None]. *)
Definition or_none (v : value) : value := if truthy v then v else VNone.

Record standardized_props : Type := {
  global_parcel_uid : string;
  county : string;
  county_parcel_id_num : value;
  owner_name : value;
  physical_address : value;
  mailing_address : value;
  acreage : value;
  property_value : value;
  land_type_description : value;
  deed_reference : value;
  tax_year : value;
  owner_city : value;
  owner_state : value;
  owner_zip : value;
  property_details_link : value;
  tax_details_link : value;
  clerk_records_link : value;
  raw_data : props
}.

Record standardized_feature : Type := {
  sf_properties : standardized_props;
  sf_geometry : option geometry
}.

(** Line 188. *)
Definition unique_id (county_name : string) (i : nat) : string :=
  py_lower county_name +:+ "_" +:+ zfill 6 (pretty i).

(** The sequence number carried by an identifier of [county_name]: what
    follows the prefix and the underscore, read as a numeral. *)
Definition sequence_of (county_name uid : string) : N :=
  read_decimal (drop_chars (String.length (py_lower county_name +:+ "_")) uid).

(** Lines 187-236: the body of the loop for the [i]-th feature. *)
Definition standardize_feature (mappings : gmap string (list string))
    (links_cfg : gmap string link_info) (county_name : string)
    (entry : nat * feature) : result standardized_feature :=
  let '(i, f) := entry in
  let p := properties_or_empty f in
  mailing ← _extract_mailing_address p mappings;
  Ok {| sf_properties :=
          {| global_parcel_uid := unique_id county_name i;
             county := county_name;
             county_parcel_id_num := _extract_from_mapping p mappings "parcel_id";
             owner_name := _extract_from_mapping p mappings "owner_name";
             physical_address := _extract_from_mapping p mappings "physical_address";
             mailing_address := mailing;
             acreage := _extract_from_mapping p mappings "acreage";
             property_value := _extract_from_mapping p mappings "property_value";
             land_type_description :=
               _extract_from_mapping p mappings "land_type_description";
             deed_reference := _extract_from_mapping p mappings "deed_reference";
             tax_year := _extract_from_mapping p mappings "tax_year";
             owner_city := _extract_from_mapping p mappings "owner_city";
             owner_state := _extract_from_mapping p mappings "owner_state";
             owner_zip := _extract_from_mapping p mappings "owner_zip";
             property_details_link :=
               or_none (build_link p (links_cfg !! "property_details"));
             tax_details_link :=
               or_none (build_link p (links_cfg !! "tax_details"));
             clerk_records_link :=
               or_none (build_link p (links_cfg !! "clerk_records"));
             raw_data := p |};
        sf_geometry := f_geometry f |}.

Section Standardize.
(** geopandas: [from_features], [set_crs], [to_crs], [to_json]. *)
Variable transform_coordinates :
  feature_collection → string → string → result feature_collection.

Definition standardize_ownership (config : gmap string county_config)
    (county_data : feature_collection) (county_name : string)
    : result (list standardized_feature) :=
  let mappings := get_mappings config county_name in
  let links_cfg := get_links_config config county_name in
  detected_crs ← detect_coordinate_system county_data;
  county_data1 ←
    (if bool_decide (detected_crs ∈ ["EPSG:3739"; "EPSG:2677"; "EPSG:3738"])
     then transform_coordinates county_data detected_crs "EPSG:4326"
     else Ok county_data);
  county_data2 ← convert_to_2d_coordinates county_data1;
  for_collect (standardize_feature mappings links_cfg county_name)
              (enumerate_from 1 (fc_features county_data2)).
End Standardize.

(** ** The claim of a containment-first selection, in the words of the
    specification *)

Section ContainmentFirst.
Context {Shape : Type}.
Variable contains intersects : Shape → Shape → bool.

(** "select the first one for which containment holds, falling back to
    intersection if no containment match exists". *)
Definition spec_select_containment_first (addr_geom : Shape)
    (candidates : list Shape) : option Shape :=
  match List.find (λ c, contains c addr_geom) candidates with
  | Some c => Some c
  | None => List.find (λ c, intersects c addr_geom) candidates
  end.
End ContainmentFirst.

(** ** The composite mailing address, in the words of the specification *)

(** "the empty string for any missing positional candidate". *)
Definition spec_candidate (p : props) (mailing_mapping : list string) (i : nat) : string :=
  match mailing_mapping !! i with
  | Some key =>
      match p !! key with
      | Some v => py_str v
      | None => ""
      end
  | None => ""
  end.

(** "concatenate candidate[0] with ", {candidate[1]}, {candidate[2]}
    {candidate[3]}" ..., then trim trailing ", "". *)
Definition spec_composite_address (p : props) (mailing_mapping : list string) : string :=
  rstrip_by (λ c, char_in c ", ")
    (spec_candidate p mailing_mapping 0 +:+ ", "
     +:+ spec_candidate p mailing_mapping 1 +:+ ", "
     +:+ spec_candidate p mailing_mapping 2 +:+ " "
     +:+ spec_candidate p mailing_mapping 3).

(** The characters [strip(", ")] removes. *)
Definition comma_space (c : ascii) : bool := char_in c ", ".

(** Every whitespace character of [s] is the plain space. *)
Fixpoint plain_spaces (s : string) : bool :=
  match s with
  | EmptyString => true
  | String c r => (negb (py_isspace c) || bool_decide (c = " "%char)) && plain_spaces r
  end.

(** ** A planar instance of the geometry library

    Points and axis-parallel rectangles with integer corners, on which
    containment and intersection are decided exactly as the DE-9IM
    predicates decide them; the index query is the bounding-box filter, in
    insertion order.  Used to run the join on concrete data. *)
Module Planar.

Inductive shape_t : Type :=
  | Point (x y : Z)
  | Box (x0 y0 x1 y1 : Z).

Definition as_int (c : coords) : option Z :=
  match c with
  | CNum q => if (Qden q =? 1)%positive then Some (Qnum q) else None
  | CList _ => None
  end.

Definition as_pair (c : coords) : option (Z * Z) :=
  match c with
  | CList [a; b] => x ← as_int a; y ← as_int b; Some (x, y)
  | _ => None
  end.

Definition shape (g : geometry) : option shape_t :=
  match g_coordinates g with
  | None => None
  | Some c =>
      if String.eqb (g_type g) "Point" then
        '(x, y) ← as_pair c; Some (Point x y)
      else if String.eqb (g_type g) "Polygon" then
        match c with
        | CList [CList [c0; c1; c2; c3; c4]] =>
            '(x0, y0) ← as_pair c0;
            '(x1, y1) ← as_pair c2;
            p1 ← as_pair c1;
            p3 ← as_pair c3;
            p4 ← as_pair c4;
            if bool_decide (x0 < x1 ∧ y0 < y1 ∧ p1 = (x1, y0)
                            ∧ p3 = (x0, y1) ∧ p4 = (x0, y0))
            then Some (Box x0 y0 x1 y1) else None
        | _ => None
        end
      else None
  end.

Definition contains (a b : shape_t) : bool :=
  match a, b with
  | Point x y, Point u v => bool_decide (x = u ∧ y = v)
  | Point _ _, Box _ _ _ _ => false
  | Box x0 y0 x1 y1, Point u v =>
      bool_decide (x0 < u ∧ u < x1 ∧ y0 < v ∧ v < y1)
  | Box x0 y0 x1 y1, Box u0 v0 u1 v1 =>
      bool_decide (x0 ≤ u0 ∧ u1 ≤ x1 ∧ y0 ≤ v0 ∧ v1 ≤ y1)
  end.

Definition intersects (a b : shape_t) : bool :=
  match a, b with
  | Point x y, Point u v => bool_decide (x = u ∧ y = v)
  | Point u v, Box x0 y0 x1 y1
  | Box x0 y0 x1 y1, Point u v =>
      bool_decide (x0 ≤ u ∧ u ≤ x1 ∧ y0 ≤ v ∧ v ≤ y1)
  | Box x0 y0 x1 y1, Box u0 v0 u1 v1 =>
      bool_decide (x0 ≤ u1 ∧ u0 ≤ x1 ∧ y0 ≤ v1 ∧ v0 ≤ y1)
  end.

Definition wkt_pair (x y : Z) : string := pretty x +:+ " " +:+ pretty y.

Definition wkt (a : shape_t) : string :=
  match a with
  | Point x y => "POINT (" +:+ wkt_pair x y +:+ ")"
  | Box x0 y0 x1 y1 =>
      "POLYGON ((" +:+ wkt_pair x0 y0 +:+ ", " +:+ wkt_pair x1 y0 +:+ ", "
      +:+ wkt_pair x1 y1 +:+ ", " +:+ wkt_pair x0 y1 +:+ ", "
      +:+ wkt_pair x0 y0 +:+ "))"
  end.

Definition query (geoms : list shape_t) (g : shape_t) : list (candidate shape_t) :=
  CandGeom <$> List.filter (λ c, intersects c g) geoms.

Definition pt (x y : Z) : coords := CList [CNum (inject_Z x); CNum (inject_Z y)].

Definition point_geometry (x y : Z) : geometry :=
  {| g_type := "Point"; g_coordinates := Some (pt x y) |}.

Definition box_geometry (x0 y0 x1 y1 : Z) : geometry :=
  {| g_type := "Polygon";
     g_coordinates :=
       Some (CList [CList [pt x0 y0; pt x1 y0; pt x1 y1; pt x0 y1; pt x0 y0]]) |}.

Definition spatial_join := spatial_join shape wkt contains intersects query.

End Planar.

(** ** What "preserves the records and their geometry" means *)

Definition same_records_and_geometry (input output : list feature) : Prop :=
  length output = length input ∧
  ∀ i f, input !! i = Some f →
         ∃ f', output !! i = Some f' ∧ f_geometry f' = f_geometry f.

(** The attribute [k] of the [i]-th feature, when there is one. *)
Definition attribute_at (fs : list feature) (i : nat) (k : string) : option value :=
  f ← fs !! i; p ← f_properties f; p !! k.

(** ** Sample data *)

Definition mk_feature (g : option geometry) (kvs : list (string * value)) : feature :=
  {| f_id := None; f_geometry := g; f_properties := Some (list_to_map kvs) |}.

Definition mk_collection (fs : list feature) : feature_collection :=
  {| fc_crs := None; fc_features := fs |}.

(** Two overlapping parcels; the address point lies on the boundary of the
    first and in the interior of the second. *)
Definition parcel_A : feature :=
  mk_feature (Some (Planar.box_geometry 0 0 2 2)) [("PIN", VStr "P1")].
Definition parcel_B : feature :=
  mk_feature (Some (Planar.box_geometry 1 0 4 4)) [("PIN", VStr "P2")].
Definition parcel_no_geometry : feature :=
  mk_feature None [("PIN", VStr "P0")].
Definition address_on_edge : feature :=
  mk_feature (Some (Planar.point_geometry 2 1))
             [("FID", VInt 7); ("street", VStr "12 Elm St")].
Definition address_far : feature :=
  mk_feature (Some (Planar.point_geometry 9 9)) [("FID", VInt 8)].
Definition address_no_geometry : feature :=
  mk_feature None [("FID", VInt 9)].

Definition sample_parcels : feature_collection :=
  mk_collection [parcel_no_geometry; parcel_A; parcel_B].
Definition sample_addresses : feature_collection :=
  mk_collection [address_on_edge; address_far].

(** Record sets without CRS metadata. *)
Definition negative_easting : feature_collection :=
  mk_collection [parcel_no_geometry;
                 mk_feature (Some (Planar.box_geometry (-2000000) 0 (-1999000) 1000)) []].
Definition large_point : feature_collection :=
  mk_collection [mk_feature (Some (Planar.point_geometry 2000000 3000000)) []].
Definition state_plane_parcels : feature_collection :=
  mk_collection [mk_feature (Some (Planar.box_geometry 2400000 1300000 2400100 1300100)) []].
Definition northing_only : feature_collection :=
  mk_collection [mk_feature (Some (Planar.box_geometry (-500) 1300000 100 1300100)) []].
Definition wgs84_parcels : feature_collection :=
  mk_collection [mk_feature (Some (Planar.box_geometry (-111) 43 (-110) 44)) []].

(** A county configuration and a reprojection stand-in that leaves the
    features where they are. *)
Definition sample_config : gmap string county_config :=
  {[ "Teton" :=
       {| standardization_mappings :=
            list_to_map [("parcel_id", ["PIN"]); ("owner_name", ["owner"]);
                         ("mailing_address", ["addr"; "city"; "st"; "zip"])];
          standardized_links :=
            list_to_map [("property_details",
                          {| static_url := None;
                             base_url := Some "https://x/";
                             link_field := Some "PIN" |})] |} ]}.

Definition no_reprojection (d : feature_collection) (source target : string)
    : result feature_collection :=
  Ok {| fc_crs := None; fc_features := fc_features d |}.

Definition teton_parcels : feature_collection :=
  mk_collection
    [mk_feature (Some (Planar.box_geometry (-111) 43 (-110) 44))
                [("PIN", VStr "A1"); ("owner", VStr "Jane Doe");
                 ("addr", VStr "12 Elm St"); ("city", VStr "Jackson");
                 ("st", VStr "WY"); ("zip", VStr "83001")];
     mk_feature None [("PIN", VStr "A2")];
     mk_feature None []].

Definition mailing_mapping_4 : gmap string (list string) :=
  {[ "mailing_address" := ["addr"; "city"; "st"; "zip"] ]}.
Definition mailing_mapping_1 : gmap string (list string) :=
  {[ "mailing_address" := ["addr"] ]}.

(** A stand-in for the HTML parser: the markup is "label|value". *)
Definition toy_rows (html : string) : list (list string) :=
  match String.index 0 "|" html with
  | Some n => [[String.substring 0 n html;
                String.substring (S n) (String.length html - S n) html]]
  | None => []
  end.

Definition described (g : option geometry) (description : string) : feature :=
  mk_feature g [("description", VStr description)].

Definition pidn_parcels : feature_collection :=
  mk_collection [described (Some (Planar.box_geometry 0 0 2 2)) "PIDN| 22-41-16 ";
                 described None "Owner Name|Jane Doe"].
Definition pidn_addresses : feature_collection :=
  mk_collection [described (Some (Planar.point_geometry 1 1)) "pidn|22-41-16"].

Definition id_primary : feature_collection :=
  mk_collection
    [mk_feature (Some (Planar.box_geometry 0 0 2 2))
                [("PIN", VStr "P1"); ("owner", VStr "Jane Doe")];
     mk_feature None [("PIN", VStr "P7"); ("owner", VStr "John Roe")]].
Definition id_secondary : feature_collection :=
  mk_collection
    [mk_feature None [("PIN", VStr "P1"); ("owner", VStr ""); ("zip", VStr "83001")]].

Definition scraped_items : list props :=
  [list_to_map [("PIN", VStr "P1"); ("tax", VInt 1200); ("owner", VStr "")]].

Definition jsonl_addresses : list jrecord :=
  [JBare (list_to_map [("Account #", VStr "R1"); ("street", VStr "12 Elm St");
                       ("unit", VStr "")])].
Definition geojson_parcels : list jrecord :=
  [JFeature None (Some (Planar.box_geometry 0 0 2 2))
            (list_to_map [("RWACCT", VStr "R1"); ("Account #", VStr "old")]);
   JFeature None None (list_to_map [("RWACCT", VStr "R2")])].

(** ** Description parsing in place: [DataMerger.parse_description_to_properties]

    The function is modelled from the loaded feature collection to the
    collection it writes out. *)

Section ParseDescriptions.
Variable table_rows : string → list (list string).

(** Lines 277-283: [props.update(parsed)] on one feature. *)
Definition parse_description_feature (f : feature) : result feature :=
  let p := properties_or_empty f in
  parsed ← parse_description table_rows p;
  Ok {| f_id := f_id f;
        f_geometry := f_geometry f;
        f_properties := Some ((VStr <$> parsed) ∪ p) |}.

Definition parse_description_to_properties (data : feature_collection)
    : result feature_collection :=
  fs ← for_collect parse_description_feature (fc_features data);
  Ok {| fc_crs := None; fc_features := fs |}.
End ParseDescriptions.

(** Upper-case letters, as [str.lower] sees them. *)
Definition is_upper (c : ascii) : bool :=
  let n := nat_of_ascii c in
  ((65 <=? n) && (n <=? 90) || (192 <=? n) && (n <=? 214)
   || (216 <=? n) && (n <=? 222))%nat.

Fixpoint all_chars (p : ascii → bool) (s : string) : bool :=
  match s with
  | EmptyString => true
  | String c r => p c && all_chars p r
  end.

(** A normalised label: no whitespace, no upper-case letter. *)
Definition normalised_label (k : string) : bool :=
  all_chars (λ c, negb (py_isspace c) && negb (is_upper c)) k.

(** The element reached by following indices into nested coordinate
    arrays: [c[i][j]...]. *)
Fixpoint coords_at (c : coords) (path : list nat) : option coords :=
  match path with
  | [] => Some c
  | i :: rest =>
      match c with
      | CList l => c' ← l !! i; coords_at c' rest
      | CNum _ => None
      end
  end.

(** ** Combining the counties: [OwnershipPipeline.combine_county_geojsons]

    One entry per county of the list, in order: the features of its final
    file, or [None] when the file does not exist.  The result is the list
    written to the combined file, [None] when there is nothing to write. *)

(** Lines 106-120: the two accumulators of the loop. *)
Definition combined_features {A} (county_files : list (option (list A))) : list A :=
  foldl (λ combined file,
           match file with
           | Some features => combined ++ features
           | None => combined
           end) [] county_files.

Definition total_features {A} (county_files : list (option (list A))) : nat :=
  foldl (λ total file,
           match file with
           | Some features => (total + length features)%nat
           | None => total
           end) 0%nat county_files.

(** Lines 122-130. *)
Definition combine_county_geojsons {A} (county_files : list (option (list A)))
    : option (list A) :=
  match combined_features county_files with
  | [] => None
  | combined => Some combined
  end.


(** ** More sample data *)

(** Two secondary records and two scraped items with the same key value. *)
Definition id_secondary_twice : feature_collection :=
  mk_collection
    (fc_features id_secondary
       ++ [mk_feature None [("PIN", VStr "P1"); ("zip", VStr "83002")]]).
Definition scraped_items_twice : list props :=
  scraped_items ++ [list_to_map [("PIN", VStr "P1"); ("tax", VInt 1350)]].

(** A parcel whose ring carries elevations. *)
Definition point3 (x y z : Z) : coords :=
  CList [CNum (inject_Z x); CNum (inject_Z y); CNum (inject_Z z)].
Definition elevated_parcels : feature_collection :=
  mk_collection
    [mk_feature
       (Some {| g_type := "Polygon";
                g_coordinates :=
                  Some (CList [CList [point3 0 0 1900; point3 2 0 1901;
                                      point3 2 2 1902; point3 0 0 1900]]) |})
       [("PIN", VStr "P1")];
     address_far].

(** A polygon whose first ring is empty. *)
Definition empty_ring_parcels : feature_collection :=
  mk_collection
    [mk_feature (Some {| g_type := "Polygon";
                         g_coordinates := Some (CList [CList []]) |}) []].

(** A second stand-in for the HTML parser: rows are separated by ";" and
    the cells of a row by "|". *)
Fixpoint split_on (sep : ascii) (s : string) : list string :=
  match s with
  | EmptyString => [EmptyString]
  | String c r =>
      if Ascii.eqb c sep then EmptyString :: split_on sep r
      else match split_on sep r with
           | [] => [String c EmptyString]
           | w :: ws => String c w :: ws
           end
  end.

Definition toy_table (html : string) : list (list string) :=
  split_on "|" <$> split_on ";" html.

Definition tabled_parcel : feature :=
  described (Some (Planar.box_geometry 0 0 2 2)) "PIDN| 22-41-16 ;Owner|Jane Doe".
Definition tabled_address : feature :=
  described (Some (Planar.point_geometry 1 1))
            "pidn|22-41-16;Owner|J. Doe;Street|12 Elm St".
Definition tabled_parcels : feature_collection := mk_collection [tabled_parcel].
Definition tabled_addresses : feature_collection := mk_collection [tabled_address].

(** A bare parcel record, and an address feature with an attribute named
    "properties". *)
Definition bare_parcels : list jrecord :=
  [JBare (list_to_map [("RWACCT", VStr "R1")])].
Definition address_with_properties : jrecord :=
  JFeature None None
           (list_to_map [("Account #", VStr "R1"); ("properties", VStr "x")]).

(** * Proofs *)

Section CopyItems.
Context (keep : string → value → bool).

Lemma lookup_copy_items (src dst : props) (k : string) :
  copy_items keep src dst !! k =
    match src !! k with
    | Some v => if keep k v then Some v else dst !! k
    | None => dst !! k
    end.
Proof.
  unfold copy_items.
  revert k.
  apply (map_fold_weak_ind
           (λ (r : props) (m : props), ∀ k,
              r !! k = match m !! k with
                       | Some v => if keep k v then Some v else dst !! k
                       | None => dst !! k
                       end)).
  - intros k. by rewrite lookup_empty.
  - intros i x m r Hi IH k.
    destruct (decide (i = k)) as [->|Hne].
    + rewrite lookup_insert_eq.
      destruct (keep k x) eqn:Hk.
      * by rewrite lookup_insert_eq.
      * rewrite IH, Hi. done.
    + rewrite (lookup_insert_ne m) by done.
      destruct (keep i x).
      * rewrite lookup_insert_ne by done. apply IH.
      * apply IH.
Qed.
End CopyItems.

(** ** Loops *)

Lemma for_collect_lookup {A B} (body : A → result B) (l : list A) (ys : list B) :
  for_collect body l = Ok ys →
  length ys = length l ∧
  ∀ i x, l !! i = Some x → ∃ y, ys !! i = Some y ∧ body x = Ok y.
Proof.
  revert ys. induction l as [|a l IH]; intros ys H; simpl in H.
  - inversion H; subst. split; [done|]. intros i x Hx. by destruct i.
  - unfold mbind, result_bind in H.
    destruct (body a) as [y|e] eqn:Hy; [|done].
    destruct (for_collect body l) as [ys'|e] eqn:Hl; [|done].
    inversion H; subst. destruct (IH ys' eq_refl) as [Hlen Hlk].
    split; [simpl; by rewrite Hlen|].
    intros [|i] x Hx; simpl in *.
    + inversion Hx; subst. eauto.
    + eauto.
Qed.

(** A loop invariant that every successful iteration preserves holds at a
    successful exit. *)
Lemma for_each_invariant {A S} (body : S → A → result S) (P : S → list A → Prop)
    (s0 : S) (l : list A) (s : S) :
  P s0 [] →
  (∀ s x s' seen, P s seen → body s x = Ok s' → P s' (seen ++ [x])) →
  for_each body s0 l = Ok s →
  P s l.
Proof.
  intros H0 Hstep.
  assert (∀ seen s1, P s1 seen → for_each body s1 l = Ok s → P s (seen ++ l)) as G.
  { induction l as [|a l IH]; intros seen s1 Hs1 H; simpl in H.
    - inversion H; subst. by rewrite app_nil_r.
    - unfold mbind, result_bind in H.
      destruct (body s1 a) as [s2|] eqn:Hb; [|done].
      replace (seen ++ a :: l) with ((seen ++ [a]) ++ l) by (by rewrite <-app_assoc).
      eapply IH; [|done]. eauto. }
  intros H. by apply (G [] s0).
Qed.

(** ** Lookups built by the key-based joins *)

Lemma secondary_lookup_Some (field : string) (features : list feature)
    (κ : value) (sp : props) :
  secondary_lookup field features !! κ = Some sp →
  ∃ s, s ∈ features ∧ sp = properties_or_empty s ∧
       truthy (get sp field) = true ∧ hkey (get sp field) = κ.
Proof.
  unfold secondary_lookup.
  induction features as [|s features IH] using rev_ind; simpl.
  - by rewrite lookup_empty.
  - rewrite foldl_app. simpl.
    destruct (truthy (get (properties_or_empty s) field)) eqn:Ht.
    + destruct (decide (hkey (get (properties_or_empty s) field) = κ)) as [<-|Hne].
      * rewrite lookup_insert_eq. intros [= <-].
        exists s. split; [apply elem_of_app; right; by left|done].
      * rewrite lookup_insert_ne by done. intros H.
        destruct (IH H) as (s' & ? & ?). exists s'.
        split; [apply elem_of_app; by left|done].
    + intros H. destruct (IH H) as (s' & ? & ?). exists s'.
      split; [apply elem_of_app; by left|done].
Qed.

(** ** Exact-attribute join *)

Lemma merge_by_id_lookup (primary secondary : feature_collection)
    (pf sf : string) (i : nat) :
  fc_features (merge_by_id primary secondary pf sf) !! i =
    merge_by_id_feature (secondary_lookup sf (fc_features secondary)) pf
      <$> fc_features primary !! i.
Proof. unfold merge_by_id; simpl. apply list_lookup_fmap. Qed.

(** C4.  In the exact-attribute join, the attributes of the i-th output
    record differ from those of the i-th primary record at a name [k] only
    if some secondary record carries a truthy key value equal to the
    primary's and a truthy value under [k], which is then the output value;
    when no secondary record carries the primary's key value the output
    attributes equal the input attributes; and a falsy value of the matched
    secondary record never replaces the primary's attribute. *)
Theorem merge_by_id_frame (primary secondary : feature_collection)
    (pf sf : string) (i : nat) (f : feature) :
  fc_features primary !! i = Some f →
  let p := properties_or_empty f in
  let lk := secondary_lookup sf (fc_features secondary) in
  ∃ f' p',
    fc_features (merge_by_id primary secondary pf sf) !! i = Some f' ∧
    f_properties f' = Some p' ∧
    (∀ k, p' !! k ≠ p !! k →
       ∃ s v, s ∈ fc_features secondary ∧
              truthy (get (properties_or_empty s) sf) = true ∧
              py_eq (get (properties_or_empty s) sf) (get p pf) ∧
              properties_or_empty s !! k = Some v ∧
              truthy v = true ∧ p' !! k = Some v) ∧
    ((∀ s, s ∈ fc_features secondary →
           truthy (get (properties_or_empty s) sf) = true →
           ¬ py_eq (get (properties_or_empty s) sf) (get p pf)) →
     p' = p) ∧
    (∀ sp k v, lk !! hkey (get p pf) = Some sp → sp !! k = Some v →
               truthy v = false → p' !! k = p !! k).
Proof.
  intros Hf p lk.
  eexists _, _. split; [rewrite merge_by_id_lookup, Hf; reflexivity|].
  split; [reflexivity|]. fold p lk.
  destruct (truthy (get p pf)) eqn:Hpid.
  2: { split; [done|]. split; [done|]. intros sp k v Hsp Hv Hfalsy. done. }
  destruct (lk !! hkey (get p pf)) as [sp|] eqn:Hlk.
  - split; [|split].
    + intros k Hk. rewrite lookup_copy_items in Hk.
      destruct (secondary_lookup_Some _ _ _ _ Hlk) as (s & Hs & -> & Ht & Hkey).
      destruct (properties_or_empty s !! k) as [v|] eqn:Hv; [|done].
      unfold key_and_value in Hk.
      destruct (truthy_key k && truthy v) eqn:Hkeep; [|done].
      destruct (andb_prop _ _ Hkeep) as [_ Htv].
      exists s, v. repeat split; try done.
      rewrite lookup_copy_items, Hv. unfold key_and_value.
      by rewrite Hkeep.
    + intros Habs.
      destruct (secondary_lookup_Some _ _ _ _ Hlk) as (s & Hs & -> & Ht & Hkey).
      by destruct (Habs s Hs Ht).
    + intros sp' k v [= <-] Hv Hfalsy.
      rewrite lookup_copy_items, Hv. unfold key_and_value.
      by rewrite Hfalsy, andb_false_r.
  - split; [done|]. split; [done|]. intros sp k v [=].
Qed.

(** ** Scraped-data merge and cross-encoding join *)

Lemma merge_scraped_data_lookup (parcel_data : feature_collection)
    (scraped_data : list props) (merge_field : string) (i : nat) :
  fc_features (merge_scraped_data parcel_data scraped_data merge_field) !! i =
    merge_scraped_feature (scraped_lookup merge_field scraped_data) merge_field
      <$> fc_features parcel_data !! i.
Proof. unfold merge_scraped_data; simpl. apply list_lookup_fmap. Qed.

Lemma scraped_keep_true (merge_field k : string) (v : value) :
  scraped_keep merge_field k v = true ↔
  k ≠ "" ∧ truthy v = true ∧ k ≠ merge_field.
Proof.
  unfold scraped_keep, truthy_key.
  rewrite !andb_true_iff, !negb_true_iff, !String.eqb_neq. tauto.
Qed.

Lemma not_address_key_true (address_key k : string) (v : value) :
  not_address_key address_key k v = true ↔ k ≠ address_key.
Proof. unfold not_address_key. by rewrite negb_true_iff, String.eqb_neq. Qed.

Lemma join_record_attributes (lk : gmap value props) (pk ak : string)
    (r r' : jrecord) :
  join_record lk pk ak r = Ok (Updated r') →
  ∃ key, attributes r !! pk = Some key ∧
    attributes r' =
      match lk !! hkey key with
      | Some address_props => copy_items (not_address_key ak) address_props (attributes r)
      | None => attributes r
      end.
Proof.
  unfold join_record, mbind, result_bind.
  destruct (record_props r) as [p|] eqn:Hp; [|done].
  assert (p = attributes r) as ->.
  { destruct r as [fid g q|q]; simpl in *; [congruence|].
    destruct (q !! "properties"); congruence. }
  unfold getitem. destruct (attributes r !! pk) as [key|] eqn:Hk; [|done].
  intros [= H]. exists key. split; [done|].
  destruct r as [fid g q|q]; simpl in H.
  - by inversion H.
  - destruct (_ !! "properties"); by inversion H.
Qed.

(** What a completed join wrote at position [i] is what the parcel loop
    made of the [i]-th parcel record. *)
Lemma join_address_to_parcel_lookup (parcels addresses : list jrecord)
    (pk ak : string) (lk : gmap value props) (out : list jrecord) :
  for_each (join_lookup_step ak) ∅ addresses = Ok lk →
  join_address_to_parcel parcels addresses pk ak = Ok out →
  length out = length parcels ∧
  ∀ i r, parcels !! i = Some r →
         ∃ r', out !! i = Some r' ∧ join_record lk pk ak r = Ok (Updated r').
Proof.
  intros Hlk H. unfold join_address_to_parcel in H. rewrite Hlk in H.
  simpl in H. unfold mbind, result_bind in H.
  destruct (for_collect (join_record lk pk ak) parcels) as [us|] eqn:Hus; [|done].
  apply for_collect_lookup in Hus as [Hlen Hus].
  apply for_collect_lookup in H as [Hlen' H].
  split; [congruence|]. intros i r Hr.
  destruct (Hus i r Hr) as (u & Hu & Hbody).
  destruct (H i u Hu) as (r' & Hr' & Hdump).
  exists r'. split; [done|]. destruct u; [|done]. by inversion Hdump; subst.
Qed.

(** C10.  Neither the scraped-data merge nor the cross-encoding join copies
    the secondary record's join-key field: the output record keeps the
    primary's own entry (or absence of one) under that name, while every
    other qualifying attribute of the matched secondary record is copied
    (in the scraped-data merge the attributes with a non-empty name and a
    truthy value, in the cross-encoding join all of them).  For the
    cross-encoding join this is about the records of a run that completes:
    a bare parcel record that receives an attribute named "properties"
    ends up containing itself and the write-out raises. *)
Theorem join_key_field_never_copied :
  (∀ (parcel_data : feature_collection) (scraped_data : list props)
     (merge_field : string) (i : nat) (f : feature),
     fc_features parcel_data !! i = Some f →
     let p := properties_or_empty f in
     ∃ f' p',
       fc_features (merge_scraped_data parcel_data scraped_data merge_field) !! i
         = Some f' ∧
       f_properties f' = Some p' ∧
       p' !! merge_field = p !! merge_field ∧
       (∀ item k v,
          truthy (get p merge_field) = true →
          scraped_lookup merge_field scraped_data !! hkey (get p merge_field)
            = Some item →
          item !! k = Some v → k ≠ "" → truthy v = true → k ≠ merge_field →
          p' !! k = Some v)) ∧
  (∀ (parcel_features address_features : list jrecord)
     (parcel_key address_key : string) (lk : gmap value props)
     (out : list jrecord) (i : nat) (r : jrecord),
     for_each (join_lookup_step address_key) ∅ address_features = Ok lk →
     join_address_to_parcel parcel_features address_features
                            parcel_key address_key = Ok out →
     parcel_features !! i = Some r →
     ∃ r' key,
       out !! i = Some r' ∧
       attributes r !! parcel_key = Some key ∧
       attributes r' !! address_key = attributes r !! address_key ∧
       (∀ address_props k v,
          lk !! hkey key = Some address_props →
          address_props !! k = Some v → k ≠ address_key →
          attributes r' !! k = Some v)).
Proof.
  split.
  - intros parcel_data scraped_data merge_field i f Hf p.
    eexists _, _. split; [rewrite merge_scraped_data_lookup, Hf; reflexivity|].
    split; [reflexivity|]. fold p.
    destruct (truthy (get p merge_field)) eqn:Ht; [|by split].
    destruct (scraped_lookup merge_field scraped_data !! hkey (get p merge_field))
      as [item|] eqn:Hlk.
    + split.
      * rewrite lookup_copy_items.
        destruct (item !! merge_field) as [v|]; [|done].
        destruct (scraped_keep merge_field merge_field v) eqn:Hk; [|done].
        apply scraped_keep_true in Hk as (_ & _ & Hne). done.
      * intros item' k v _ [= <-] Hv Hk Htv Hne.
        rewrite lookup_copy_items, Hv.
        by rewrite (proj2 (scraped_keep_true merge_field k v)).
    + split; [done|]. intros item k v _ [=].
  - intros parcel_features address_features parcel_key address_key lk out i r
      Hlk Hjoin Hr.
    apply (join_address_to_parcel_lookup _ _ _ _ _ _ Hlk) in Hjoin as [_ Hjoin].
    destruct (Hjoin i r Hr) as (r' & Hr' & Hbody).
    apply join_record_attributes in Hbody as (key & Hkey & Hattr).
    exists r', key. split; [done|]. split; [done|].
    rewrite Hattr. destruct (lk !! hkey key) as [address_props|].
    + split.
      * rewrite lookup_copy_items.
        destruct (address_props !! address_key) as [v|]; [|done].
        destruct (not_address_key address_key address_key v) eqn:Hk; [|done].
        by apply not_address_key_true in Hk.
      * intros ap k v [= <-] Hv Hne.
        rewrite lookup_copy_items, Hv.
        by rewrite (proj2 (not_address_key_true address_key k v)).
    + split; [done|]. intros ap k v [=].
Qed.

Lemma join_lookup_step_wf (ak : string) (lk : gmap value props) (r : jrecord) :
  well_formed_record r →
  join_lookup_step ak lk r =
    match attributes r !! ak with
    | Some key => Ok (<[hkey key := attributes r]> lk)
    | None => Err (KeyError ak)
    end.
Proof.
  unfold well_formed_record, join_lookup_step, mbind, result_bind, getitem.
  intros ->. by destruct (attributes r !! ak).
Qed.

Lemma join_record_wf (lk : gmap value props) (pk ak : string) (r : jrecord) :
  well_formed_record r →
  join_record lk pk ak r =
    match attributes r !! pk with
    | Some key =>
        Ok (with_props r
              match lk !! hkey key with
              | Some address_props =>
                  copy_items (not_address_key ak) address_props (attributes r)
              | None => attributes r
              end)
    | None => Err (KeyError pk)
    end.
Proof.
  unfold well_formed_record, join_record, mbind, result_bind, getitem.
  intros ->. by destruct (attributes r !! pk).
Qed.

Lemma join_lookup_missing_key (ak : string) (addresses : list jrecord)
    (lk0 : gmap value props) :
  Forall well_formed_record addresses →
  (∃ r, r ∈ addresses ∧ attributes r !! ak = None) →
  for_each (join_lookup_step ak) lk0 addresses = Err (KeyError ak).
Proof.
  revert lk0. induction addresses as [|a addresses IH]; intros lk0 Hwf (r & Hr & Hk).
  - by apply elem_of_nil in Hr.
  - apply Forall_cons in Hwf as [Ha Hwf]. simpl.
    rewrite (join_lookup_step_wf ak lk0 a Ha). unfold mbind, result_bind.
    destruct (attributes a !! ak) as [v|] eqn:Hv.
    + apply IH; [done|]. apply elem_of_cons in Hr as [->|Hr]; [congruence|eauto].
    + done.
Qed.

Lemma join_lookup_total (ak : string) (addresses : list jrecord)
    (lk0 : gmap value props) :
  Forall well_formed_record addresses →
  (∀ r, r ∈ addresses → is_Some (attributes r !! ak)) →
  ∃ lk, for_each (join_lookup_step ak) lk0 addresses = Ok lk.
Proof.
  revert lk0. induction addresses as [|a addresses IH]; intros lk0 Hwf Hk.
  - by eexists.
  - apply Forall_cons in Hwf as [Ha Hwf]. simpl.
    rewrite (join_lookup_step_wf ak lk0 a Ha). unfold mbind, result_bind.
    destruct (Hk a) as [v ->]; [by left|].
    apply IH; [done|]. intros r Hr. apply Hk. by right.
Qed.

Lemma join_records_missing_key (lk : gmap value props) (pk ak : string)
    (parcels : list jrecord) :
  Forall well_formed_record parcels →
  (∃ r, r ∈ parcels ∧ attributes r !! pk = None) →
  for_collect (join_record lk pk ak) parcels = Err (KeyError pk).
Proof.
  induction parcels as [|a parcels IH]; intros Hwf (r & Hr & Hk).
  - by apply elem_of_nil in Hr.
  - apply Forall_cons in Hwf as [Ha Hwf]. simpl.
    rewrite (join_record_wf lk pk ak a Ha). unfold mbind, result_bind.
    destruct (attributes a !! pk) as [v|] eqn:Hv.
    + rewrite IH; [done|done|].
      apply elem_of_cons in Hr as [->|Hr]; [congruence|eauto].
    + done.
Qed.

(** C8.  The cross-encoding join looks keys up strictly: when some address
    record lacks the address key the whole operation raises [KeyError] for
    that key, and when every address record has its key but some parcel
    record lacks the parcel key it raises [KeyError] for the parcel key;
    no record is skipped silently.  The exact-attribute join and the
    structured-text-derived join look keys up leniently: a primary record
    without the key passes through, with no error. *)
Theorem cross_encoding_join_strict_lookup :
  (∀ (parcels addresses : list jrecord) (pk ak : string),
     Forall well_formed_record addresses →
     (∃ r, r ∈ addresses ∧ attributes r !! ak = None) →
     join_address_to_parcel parcels addresses pk ak = Err (KeyError ak)) ∧
  (∀ (parcels addresses : list jrecord) (pk ak : string),
     Forall well_formed_record (addresses ++ parcels) →
     (∀ r, r ∈ addresses → is_Some (attributes r !! ak)) →
     (∃ r, r ∈ parcels ∧ attributes r !! pk = None) →
     join_address_to_parcel parcels addresses pk ak = Err (KeyError pk)) ∧
  (∀ (primary secondary : feature_collection) (pf sf : string)
     (i : nat) (f : feature),
     fc_features primary !! i = Some f →
     properties_or_empty f !! pf = None →
     ∃ f', fc_features (merge_by_id primary secondary pf sf) !! i = Some f' ∧
           f_properties f' = Some (properties_or_empty f)) ∧
  (∀ (table_rows : string → list (list string))
     (lk : gmap string (gmap string string)) (f : feature)
     (parsed : gmap string string),
     parse_description table_rows (properties_or_empty f) = Ok parsed →
     parsed !! "pidn" = None →
     ∃ f', merge_by_pidn_feature table_rows lk f = Ok f' ∧
           f_properties f' =
             Some (copy_items key_and_value (VStr <$> parsed)
                              (properties_or_empty f))).
Proof.
  split; [|split; [|split]].
  - intros parcels addresses pk ak Hwf Hmiss.
    unfold join_address_to_parcel.
    by rewrite (join_lookup_missing_key ak addresses ∅ Hwf Hmiss).
  - intros parcels addresses pk ak Hwf Hall Hmiss.
    apply Forall_app in Hwf as [Hwa Hwp].
    unfold join_address_to_parcel.
    destruct (join_lookup_total ak addresses ∅ Hwa Hall) as [lk ->]. simpl.
    by rewrite join_records_missing_key.
  - intros primary secondary pf sf i f Hf Hk.
    eexists. split; [rewrite merge_by_id_lookup, Hf; reflexivity|].
    simpl. unfold get. by rewrite Hk.
  - intros table_rows lk f parsed Hparse Hk.
    unfold merge_by_pidn_feature. rewrite Hparse. simpl.
    eexists. split; [reflexivity|]. simpl.
    unfold pidn_of. by rewrite Hk.
Qed.

(** ** Spatial join *)

Lemma enumerate_from_lookup {A} (n : nat) (l : list A) (pos : nat) (x : A) :
  (pos, x) ∈ enumerate_from n l → (n ≤ pos)%nat ∧ l !! (pos - n)%nat = Some x.
Proof.
  revert n. induction l as [|a l IH]; intros n H; simpl in H.
  - by apply elem_of_nil in H.
  - apply elem_of_cons in H as [[= -> ->]|H].
    + split; [lia|]. by rewrite Nat.sub_diag.
    + apply IH in H as [Hle Hl]. split; [lia|].
      replace (pos - n)%nat with (S (pos - S n)) by lia. done.
Qed.

Section SpatialJoinProofs.
Context {Shape : Type}.
Variable shape : geometry → option Shape.
Variable wkt : Shape → string.
Variable contains intersects : Shape → Shape → bool.
Variable query : list Shape → Shape → list (candidate Shape).

Lemma build_index_ok (features : list feature) (ix : parcel_index Shape) :
  build_index shape wkt features = Ok ix → index_ok features ix.
Proof.
  intros H. unfold build_index in H.
  apply (for_each_invariant _
           (λ (ix : parcel_index Shape) seen,
              length (parcel_geoms ix) = length (parcel_features ix) ∧
              (∀ w idx, geom_wkt_to_idx ix !! w = Some idx →
                        (idx < length (parcel_features ix))%nat) ∧
              (∀ idx pos, parcel_features ix !! idx = Some pos →
                 ∃ f, (pos, f) ∈ seen ∧ is_Some (f_geometry f)))) in H.
  - destruct H as (H1 & H2 & H3). split; [done|]. split; [done|].
    intros idx pos Hpos. destruct (H3 idx pos Hpos) as (f & Hin & Hg).
    exists f. split; [|done].
    apply enumerate_from_lookup in Hin as [_ Hin].
    by rewrite Nat.sub_0_r in Hin.
  - unfold empty_index; simpl. split; [done|]. split.
    + intros w idx. by rewrite lookup_empty.
    + intros idx pos. by rewrite lookup_nil.
  - intros s [pos f] s' seen (H1 & H2 & H3) Hstep. simpl in Hstep.
    destruct (f_geometry f) as [g|] eqn:Hg.
    + destruct (shape g) as [geom|]; [|done].
      inversion Hstep; subst; clear Hstep. simpl.
      split; [rewrite !length_app; simpl; lia|]. split.
      * intros w idx Hw. rewrite length_app in *. simpl in *.
        destruct (decide (wkt geom = w)) as [<-|Hne].
        -- rewrite lookup_insert_eq in Hw. inversion Hw. lia.
        -- rewrite lookup_insert_ne in Hw by done. apply H2 in Hw. lia.
      * intros idx p Hp.
        destruct (decide (idx < length (parcel_features s))%nat) as [Hlt|Hge].
        -- rewrite lookup_app_l in Hp by done.
           destruct (H3 idx p Hp) as (f' & Hin & Hg').
           exists f'. split; [|done]. apply elem_of_app. by left.
        -- rewrite lookup_app_r in Hp by lia.
           destruct (idx - length (parcel_features s))%nat; [|by destruct n].
           inversion Hp; subst. exists f. split; [|by rewrite Hg].
           apply elem_of_app. right. by left.
    + inversion Hstep; subst; clear Hstep.
      split; [done|]. split; [done|].
      intros idx p Hp. destruct (H3 idx p Hp) as (f' & Hin & Hg').
      exists f'. split; [|done]. apply elem_of_app. by left.
Qed.

(** C1 (as amended).  For an index built by the join, the candidate loop
    never fails and selects the first candidate, in the order the spatial
    index returned them, that is a geometry known to the index and either
    contains or intersects the address geometry; containment has no
    priority over intersection.  When it selects nothing, no such
    candidate exists. *)
Theorem first_matching_candidate_wins (features : list feature)
    (ix : parcel_index Shape) (addr_geom : Shape)
    (candidates : list (candidate Shape)) :
  build_index shape wkt features = Ok ix →
  ∃ r, match_candidates wkt contains intersects ix addr_geom candidates = Ok r ∧
    match r with
    | Some (idx, c) =>
        ∃ pre post,
          candidates = pre ++ CandGeom c :: post ∧
          geom_wkt_to_idx ix !! wkt c = Some idx ∧
          (contains c addr_geom = true ∨ intersects c addr_geom = true) ∧
          ∀ c', CandGeom c' ∈ pre → is_Some (geom_wkt_to_idx ix !! wkt c') →
                contains c' addr_geom = false ∧ intersects c' addr_geom = false
    | None =>
        ∀ c', CandGeom c' ∈ candidates → is_Some (geom_wkt_to_idx ix !! wkt c') →
              contains c' addr_geom = false ∧ intersects c' addr_geom = false
    end.
Proof.
  intros Hix. apply build_index_ok in Hix as (_ & Hidx & _).
  induction candidates as [|cand candidates IH]; simpl.
  - exists None. split; [done|]. intros c' Hc'. by apply elem_of_nil in Hc'.
  - destruct IH as (r & Hr & Hspec).
    assert (∀ r0 : option (nat * Shape),
              match_candidates wkt contains intersects ix addr_geom candidates = Ok r0 →
              (∀ c', CandGeom c' ∈ [cand] →
                     is_Some (geom_wkt_to_idx ix !! wkt c') →
                     contains c' addr_geom = false ∧ intersects c' addr_geom = false) →
              r0 = r ∧
              match r with
              | Some (idx, c) =>
                  ∃ pre post,
                    cand :: candidates = pre ++ CandGeom c :: post ∧
                    geom_wkt_to_idx ix !! wkt c = Some idx ∧
                    (contains c addr_geom = true ∨ intersects c addr_geom = true) ∧
                    ∀ c', CandGeom c' ∈ pre →
                          is_Some (geom_wkt_to_idx ix !! wkt c') →
                          contains c' addr_geom = false ∧
                          intersects c' addr_geom = false
              | None =>
                  ∀ c', CandGeom c' ∈ cand :: candidates →
                        is_Some (geom_wkt_to_idx ix !! wkt c') →
                        contains c' addr_geom = false ∧
                        intersects c' addr_geom = false
              end) as Hskip.
    { intros r0 Hr0 Hcand. split; [congruence|].
      destruct r as [[idx c]|].
      - destruct Hspec as (pre & post & -> & Hw & Hm & Hpre).
        exists (cand :: pre), post. split; [done|]. split; [done|]. split; [done|].
        intros c' Hc' Hs. apply elem_of_cons in Hc' as [<-|Hc'].
        + apply Hcand; [by left|done].
        + by apply Hpre.
      - intros c' Hc' Hs. apply elem_of_cons in Hc' as [<-|Hc'].
        + apply Hcand; [by left|done].
        + by apply Hspec. }
    destruct cand as [c|i].
    + destruct (geom_wkt_to_idx ix !! wkt c) as [idx|] eqn:Hw.
      * unfold index. pose proof (Hidx _ _ Hw) as Hlt.
        destruct (lookup_lt_is_Some_2 _ _ Hlt) as [pos ->]. simpl.
        destruct (contains c addr_geom || intersects c addr_geom) eqn:Hm.
        -- exists (Some (idx, c)). split; [done|].
           exists [], candidates. split; [done|]. split; [done|].
           split; [by apply orb_true_iff|].
           intros c' Hc'. by apply elem_of_nil in Hc'.
        -- exists r. split; [done|]. apply (Hskip r Hr).
           intros c' Hc' _. apply list_elem_of_singleton in Hc' as [= ->].
           by apply orb_false_iff.
      * exists r. split; [done|]. apply (Hskip r Hr).
        intros c' Hc' Hs. apply list_elem_of_singleton in Hc' as [= ->].
        rewrite Hw in Hs. by destruct Hs.
    + exists r. split; [done|]. apply (Hskip r Hr).
      intros c' Hc'. by apply list_elem_of_singleton in Hc'.
Qed.

Lemma match_candidates_in_range (features : list feature)
    (ix : parcel_index Shape) (addr_geom : Shape)
    (candidates : list (candidate Shape)) :
  index_ok features ix →
  ∃ r, match_candidates wkt contains intersects ix addr_geom candidates = Ok r ∧
       ∀ idx c, r = Some (idx, c) → (idx < length (parcel_features ix))%nat.
Proof.
  intros (_ & Hidx & _).
  induction candidates as [|[c|i] candidates IH]; simpl.
  - exists None. by split.
  - destruct (geom_wkt_to_idx ix !! wkt c) as [idx|] eqn:Hw; [|done].
    unfold index. pose proof (Hidx _ _ Hw) as Hlt.
    destruct (lookup_lt_is_Some_2 _ _ Hlt) as [pos ->]. simpl.
    destruct (contains c addr_geom || intersects c addr_geom); [|done].
    exists (Some (idx, c)). split; [done|]. by intros ? ? [= <- <-].
  - done.
Qed.

Lemma recorded_append_address (idx : nat) (a : feature)
    (m : list (nat * list feature)) :
  recorded (append_address idx a m) = S (recorded m).
Proof.
  unfold recorded. induction m as [|[j l] m IH]; simpl; [done|].
  destruct (decide (j = idx)); simpl.
  - rewrite length_app. simpl. lia.
  - rewrite IH. lia.
Qed.

Lemma elem_of_append_address (idx : nat) (a : feature)
    (m : list (nat * list feature)) (j : nat) (l : list feature) :
  (j, l) ∈ append_address idx a m →
  (j, l) ∈ m ∨ (j = idx ∧ ∃ l0, l = l0 ++ [a] ∧ (l0 = [] ∨ (idx, l0) ∈ m)).
Proof.
  induction m as [|[j' l'] m IH]; simpl.
  - intros H. apply list_elem_of_singleton in H as [= -> ->].
    right. split; [done|]. exists []. by split; [|left].
  - destruct (decide (j' = idx)) as [->|Hne].
    + intros H. apply elem_of_cons in H as [[= -> ->]|H].
      * right. split; [done|]. exists l'. split; [done|]. right. by left.
      * left. by right.
    + intros H. apply elem_of_cons in H as [[= -> ->]|H].
      * left. by left.
      * destruct (IH H) as [?|(-> & l0 & -> & [->|?])].
        -- left. by right.
        -- right. split; [done|]. exists []. by split; [|left].
        -- right. split; [done|]. exists l0. split; [done|]. right. by right.
Qed.

(** The matching loop files every address exactly once. *)
Lemma address_loop_counts (ix : parcel_index Shape) (addresses : list feature)
    (ms : match_state) :
  for_each (address_step shape wkt contains intersects query ix)
           {| parcel_to_addresses := []; unmatched_addresses := [] |}
           addresses = Ok ms →
  (recorded (parcel_to_addresses ms) + length (unmatched_addresses ms)
   = length addresses)%nat.
Proof.
  intros H.
  apply (for_each_invariant _
           (λ (ms : match_state) seen,
              (recorded (parcel_to_addresses ms) + length (unmatched_addresses ms)
               = length seen)%nat)) in H; [done|done|].
  clear. intros s a s' seen Hinv Hstep. unfold address_step in Hstep.
  destruct (f_geometry a) as [g|]; [|done].
  destruct (shape g) as [sg|]; [|done].
  destruct (match_candidates _ _ _ _ _ _) as [[[idx c]|]|]; simplify_eq/=.
  - rewrite recorded_append_address, length_app. simpl. lia.
  - rewrite !length_app. simpl. lia.
Qed.

Lemma write_properties_geometry (addr_props : props) (pf pf' : feature) :
  write_properties addr_props pf = Ok pf' → f_geometry pf' = f_geometry pf.
Proof.
  unfold write_properties. destruct (f_properties pf).
  - by intros [= <-].
  - case_bool_decide; [by intros [= <-]|done].
Qed.

(** The application loop adds up the recorded addresses and leaves every
    geometry where it was. *)
Lemma apply_loop_invariant (ix : parcel_index Shape) (pid_field aid_field : string)
    (features : list feature) (entries : list (nat * list feature))
    (st : apply_state) :
  for_each (apply_step ix pid_field aid_field)
           {| features_now := features; matched_so_far := 0%nat; reported := [] |}
           entries = Ok st →
  matched_so_far st = recorded entries ∧
  f_geometry <$> features_now st = f_geometry <$> features.
Proof.
  intros H.
  apply (for_each_invariant _
           (λ (st : apply_state) seen,
              matched_so_far st = recorded seen ∧
              f_geometry <$> features_now st = f_geometry <$> features)) in H;
    [done|done|].
  clear. intros s [idx l] s' seen [Hm Hg] Hstep.
  unfold apply_step, mbind, result_bind in Hstep.
  destruct (index (parcel_features ix) idx) as [pos|]; [|done].
  destruct (index (features_now s) pos) as [pf|] eqn:Hpf; [|done].
  match type of Hstep with
  | match ?r with _ => _ end = _ => destruct r as [report|]; [|done]
  end.
  destruct (index l 0) as [first|]; [|done].
  destruct (properties_of first) as [addr_props|]; [|done].
  destruct (write_properties addr_props pf) as [pf'|] eqn:Hw; [|done].
  inversion Hstep; subst; clear Hstep. simpl. split.
  - unfold recorded. rewrite sum_list_with_app. simpl.
    unfold recorded in Hm. lia.
  - rewrite list_fmap_insert, (write_properties_geometry _ _ _ Hw), <-Hg.
    apply list_insert_id. rewrite list_lookup_fmap.
    unfold index in Hpf. destruct (features_now s !! pos); by simplify_eq/=.
Qed.

Lemma spatial_join_Ok (parcel_data address_data : feature_collection)
    (pid_field aid_field : string) (out : feature_collection)
    (stats : join_summary) :
  spatial_join shape wkt contains intersects query
               parcel_data address_data pid_field aid_field = Ok (out, stats) →
  ∃ ix ms st,
    build_index shape wkt (fc_features parcel_data) = Ok ix ∧
    for_each (address_step shape wkt contains intersects query ix)
             {| parcel_to_addresses := []; unmatched_addresses := [] |}
             (fc_features address_data) = Ok ms ∧
    for_each (apply_step ix pid_field aid_field)
             {| features_now := fc_features parcel_data;
                matched_so_far := 0%nat; reported := [] |}
             (parcel_to_addresses ms) = Ok st ∧
    out = {| fc_crs := fc_crs parcel_data; fc_features := features_now st |} ∧
    stats = {| parcels_with_address := length (parcel_to_addresses ms);
               total_matched_addresses := matched_so_far st;
               unmatched_count := length (unmatched_addresses ms);
               multiple_matches := reported st |}.
Proof.
  unfold spatial_join, mbind, result_bind. intros H.
  destruct (build_index _ _ _) as [ix|]; [|done].
  destruct (for_each (address_step _ _ _ _ _ _) _ _) as [ms|] eqn:Hms; [|done].
  destruct (for_each (apply_step _ _ _) _ _) as [st|] eqn:Hst; [|done].
  inversion H; subst. by exists ix, ms, st.
Qed.

Lemma spatial_join_geometry (parcel_data address_data : feature_collection)
    (pid_field aid_field : string) (out : feature_collection)
    (stats : join_summary) :
  spatial_join shape wkt contains intersects query
               parcel_data address_data pid_field aid_field = Ok (out, stats) →
  f_geometry <$> fc_features out = f_geometry <$> fc_features parcel_data.
Proof.
  intros H. apply spatial_join_Ok in H as (ix & ms & st & _ & _ & Hst & -> & _).
  by apply apply_loop_invariant in Hst as [_ Hg].
Qed.

Lemma for_each_raises {A S} (body : S → A → result S) (l : list A) (x : A) (s0 : S) :
  x ∈ l → (∀ s, ∃ e, body s x = Err e) → ∃ e, for_each body s0 l = Err e.
Proof.
  intros Hx Hbody. revert s0.
  induction l as [|a l IH]; intros s0; [by apply elem_of_nil in Hx|].
  simpl. unfold mbind, result_bind.
  destruct (body s0 a) as [s1|e] eqn:Hb; [|by exists e].
  apply elem_of_cons in Hx as [->|Hx].
  - destruct (Hbody s0) as [e He]. congruence.
  - by apply IH.
Qed.

(** A secondary record without geometry makes the whole join raise. *)
Lemma address_without_geometry_raises (parcel_data address_data : feature_collection)
    (pid_field aid_field : string) (a : feature) :
  a ∈ fc_features address_data → f_geometry a = None →
  ∃ e, spatial_join shape wkt contains intersects query
                    parcel_data address_data pid_field aid_field = Err e.
Proof.
  intros Ha Hg. unfold spatial_join, mbind, result_bind.
  destruct (build_index _ _ _) as [ix|e]; [|by exists e].
  destruct (for_each_raises (address_step shape wkt contains intersects query ix)
              (fc_features address_data) a
              {| parcel_to_addresses := []; unmatched_addresses := [] |} Ha)
    as [e ->]; [|by exists e].
  intros s. exists NoGeometry. unfold address_step. by rewrite Hg.
Qed.

(** A primary record without geometry is passed over by the indexing loop. *)
Lemma index_step_skips_missing_geometry (ix : parcel_index Shape)
    (pos : nat) (f : feature) :
  f_geometry f = None → index_step shape wkt ix (pos, f) = Ok ix.
Proof. intros H. unfold index_step. by rewrite H. Qed.

Lemma for_each_total {A S} (body : S → A → result S) (Inv : S → Prop)
    (l : list A) (s0 : S) :
  Inv s0 →
  (∀ s x, Inv s → x ∈ l → ∃ s', body s x = Ok s' ∧ Inv s') →
  ∃ s, for_each body s0 l = Ok s ∧ Inv s.
Proof.
  revert s0. induction l as [|a l IH]; intros s0 H0 Hstep; simpl.
  - by exists s0.
  - destruct (Hstep s0 a H0) as (s1 & Hb & H1); [by left|].
    unfold mbind, result_bind. rewrite Hb. apply IH; [done|].
    intros s x Hs Hx. apply Hstep; [done|by right].
Qed.

Lemma for_collect_total {A B} (body : A → result B) (l : list A) :
  (∀ x, x ∈ l → ∃ y, body x = Ok y) → ∃ ys, for_collect body l = Ok ys.
Proof.
  induction l as [|a l IH]; intros H; simpl; [by eexists|].
  destruct (H a) as [y Hy]; [by left|].
  destruct IH as [ys Hys]; [intros x Hx; apply H; by right|].
  unfold mbind, result_bind. rewrite Hy, Hys. by eexists.
Qed.

Lemma elem_of_insert_inv {A} (l : list A) (i : nat) (x y : A) :
  y ∈ <[i:=x]> l → y = x ∨ y ∈ l.
Proof.
  intros H. apply list_elem_of_lookup in H as [j Hj].
  destruct (decide (i = j)) as [->|Hne].
  - destruct (decide (j < length l)%nat).
    + rewrite list_lookup_insert_eq in Hj by done. left. congruence.
    + rewrite list_insert_ge in Hj by lia. right. by eapply list_elem_of_lookup_2.
  - rewrite list_lookup_insert_ne in Hj by done.
    right. by eapply list_elem_of_lookup_2.
Qed.

Lemma build_index_total (features : list feature) :
  (∀ f g, f ∈ features → f_geometry f = Some g → is_Some (shape g)) →
  ∃ ix, build_index shape wkt features = Ok ix.
Proof.
  intros Hshape. unfold build_index.
  destruct (for_each_total (index_step shape wkt) (λ _, True)
              (enumerate features) empty_index I) as (ix & Hix & _); [|by exists ix].
  intros s [pos f] _ Hin. unfold index_step.
  apply enumerate_from_lookup in Hin as [_ Hin].
  apply list_elem_of_lookup_2 in Hin.
  destruct (f_geometry f) as [g|] eqn:Hg; [|by eexists].
  destruct (Hshape f g Hin Hg) as [sg ->]. by eexists.
Qed.

(** Under the stated conditions on the data the join runs to its end. *)
Lemma spatial_join_completes (parcel_data address_data : feature_collection)
    (pid_field aid_field : string) :
  (∀ a, a ∈ fc_features address_data → is_Some (f_geometry a)) →
  (∀ f g, f ∈ fc_features parcel_data ++ fc_features address_data →
          f_geometry f = Some g → is_Some (shape g)) →
  (∀ f, f ∈ fc_features parcel_data ++ fc_features address_data →
        is_Some (f_properties f)) →
  ∃ out stats,
    spatial_join shape wkt contains intersects query
                 parcel_data address_data pid_field aid_field = Ok (out, stats).
Proof.
  intros Hgeom Hshape Hprops.
  destruct (build_index_total (fc_features parcel_data)) as [ix Hix].
  { intros f g Hf. apply Hshape, elem_of_app. by left. }
  pose proof (build_index_ok _ _ Hix) as Hok.
  unfold spatial_join, mbind, result_bind. rewrite Hix.
  (* the matching loop *)
  destruct (for_each_total (address_step shape wkt contains intersects query ix)
              (λ ms : match_state,
                 ∀ idx l, (idx, l) ∈ parcel_to_addresses ms →
                   (idx < length (parcel_features ix))%nat ∧ l ≠ [] ∧
                   ∀ a, a ∈ l → a ∈ fc_features address_data)
              (fc_features address_data)
              {| parcel_to_addresses := []; unmatched_addresses := [] |})
    as (ms & -> & Hms).
  { intros idx l Hin. by apply elem_of_nil in Hin. }
  { intros s a Hs Ha. unfold address_step.
    destruct (Hgeom a Ha) as [g Hg]. rewrite Hg.
    destruct (Hshape a g) as [sg ->]; [apply elem_of_app; by right|done|].
    destruct (match_candidates_in_range _ ix sg (query (parcel_geoms ix) sg) Hok)
      as (r & -> & Hr).
    unfold mbind, result_bind.
    destruct r as [[idx c]|]; (eexists; split; [reflexivity|]); simpl; [|done].
    intros j l Hin. apply elem_of_append_address in Hin
      as [Hin|(-> & l0 & -> & Hl0)]; [by apply Hs|].
    split; [by eapply Hr|]. split; [by destruct l0|].
    intros a' Ha'. apply elem_of_app in Ha' as [Ha'|Ha'].
    - destruct Hl0 as [->|Hl0]; [by apply elem_of_nil in Ha'|].
      by apply (Hs idx l0).
    - by apply list_elem_of_singleton in Ha' as ->. }
  (* the application loop *)
  destruct (for_each_total (apply_step ix pid_field aid_field)
              (λ st : apply_state,
                 length (features_now st) = length (fc_features parcel_data) ∧
                 ∀ f, f ∈ features_now st → is_Some (f_properties f))
              (parcel_to_addresses ms)
              {| features_now := fc_features parcel_data;
                 matched_so_far := 0%nat; reported := [] |})
    as (st & -> & _); [| |by eexists _, _].
  { split; [done|]. intros f Hf. apply Hprops, elem_of_app. by left. }
  intros s [idx l] [Hlen Hp] Hin.
  destruct (Hms idx l Hin) as (Hidx & Hne & Hl).
  unfold apply_step, mbind, result_bind, index.
  destruct (lookup_lt_is_Some_2 _ _ Hidx) as [pos Hpos]. rewrite Hpos.
  destruct Hok as (_ & _ & Hpf). destruct (Hpf idx pos Hpos) as (f0 & Hf0 & _).
  apply lookup_lt_Some in Hf0. rewrite <-Hlen in Hf0.
  destruct (lookup_lt_is_Some_2 _ _ Hf0) as [pf Hpfeat]. rewrite Hpfeat.
  destruct (Hp pf) as [pp Hpp]; [by eapply list_elem_of_lookup_2|].
  unfold properties_of at 1. rewrite Hpp.
  destruct (for_collect_total
              (λ a, match properties_of a with
                    | Ok ap => Ok (get_or ap aid_field VNone)
                    | Err e => Err e
                    end) l) as [fids Hfids].
  { intros a Ha. unfold properties_of.
    destruct (Hprops a) as [ap ->]; [apply elem_of_app; right; by apply Hl|].
    by eexists. }
  rewrite Hfids.
  destruct l as [|first l]; [done|]. simpl.
  unfold properties_of.
  destruct (Hprops first) as [ap ->]; [apply elem_of_app; right; apply Hl; by left|].
  unfold write_properties. rewrite Hpp.
  destruct (decide (1 < S (length l))%nat);
    (eexists; split; [reflexivity|]); simpl;
    (split; [by rewrite length_insert|]);
    intros f Hf; apply elem_of_insert_inv in Hf as [->|Hf]; eauto.
Qed.

(** C5.  When every secondary record has a geometry, any run of the
    spatial join that reaches its summary reports a matched count equal to
    the number of secondary records minus the unmatched count (which never
    exceeds that number); and the run does reach its summary whenever the
    geometry library accepts the geometries present and every record
    carries an attribute mapping. *)
Theorem summary_counts_add_up (parcel_data address_data : feature_collection)
    (pid_field aid_field : string) :
  (∀ a, a ∈ fc_features address_data → is_Some (f_geometry a)) →
  (∀ out stats,
     spatial_join shape wkt contains intersects query
                  parcel_data address_data pid_field aid_field = Ok (out, stats) →
     total_matched_addresses stats
       = (length (fc_features address_data) - unmatched_count stats)%nat ∧
     (unmatched_count stats ≤ length (fc_features address_data))%nat) ∧
  ((∀ f g, f ∈ fc_features parcel_data ++ fc_features address_data →
           f_geometry f = Some g → is_Some (shape g)) →
   (∀ f, f ∈ fc_features parcel_data ++ fc_features address_data →
         is_Some (f_properties f)) →
   ∃ out stats,
     spatial_join shape wkt contains intersects query
                  parcel_data address_data pid_field aid_field = Ok (out, stats)).
Proof.
  intros Hgeom. split.
  - intros out stats H.
    apply spatial_join_Ok in H as (ix & ms & st & _ & Hms & Hst & _ & ->). simpl.
    apply address_loop_counts in Hms.
    apply apply_loop_invariant in Hst as [-> _]. lia.
  - intros Hshape Hprops. by apply spatial_join_completes.
Qed.

End SpatialJoinProofs.

(** ** The joins on concrete data *)

(** C1, as stated, fails.  Parcels A = [0,2]x[0,2] and B = [1,4]x[0,4]
    are indexed in this order; the address point (2,1) lies on the boundary
    of A (A intersects it without containing it) and in the interior of B.
    The index returns [A; B]; the candidate loop selects A, whereas
    containment-first selection picks B; the address attributes end up on
    parcel A and parcel B receives nothing. *)
Lemma containment_first_counterexample :
  ∃ ix out stats,
    build_index Planar.shape Planar.wkt [parcel_A; parcel_B] = Ok ix ∧
    Planar.query (parcel_geoms ix) (Planar.Point 2 1)
      = [CandGeom (Planar.Box 0 0 2 2); CandGeom (Planar.Box 1 0 4 4)] ∧
    Planar.contains (Planar.Box 0 0 2 2) (Planar.Point 2 1) = false ∧
    Planar.intersects (Planar.Box 0 0 2 2) (Planar.Point 2 1) = true ∧
    Planar.contains (Planar.Box 1 0 4 4) (Planar.Point 2 1) = true ∧
    match_candidates Planar.wkt Planar.contains Planar.intersects ix
      (Planar.Point 2 1)
      [CandGeom (Planar.Box 0 0 2 2); CandGeom (Planar.Box 1 0 4 4)]
      = Ok (Some (0%nat, Planar.Box 0 0 2 2)) ∧
    spec_select_containment_first Planar.contains Planar.intersects
      (Planar.Point 2 1) [Planar.Box 0 0 2 2; Planar.Box 1 0 4 4]
      = Some (Planar.Box 1 0 4 4) ∧
    Planar.spatial_join (mk_collection [parcel_A; parcel_B])
                        (mk_collection [address_on_edge]) "PIN" "FID"
      = Ok (out, stats) ∧
    attribute_at (fc_features out) 0 "street" = Some (VStr "12 Elm St") ∧
    attribute_at (fc_features out) 1 "street" = None.
Proof.
  eexists _, _, _.
  split; [vm_compute; reflexivity|].
  split; [vm_compute; reflexivity|].
  split; [vm_compute; reflexivity|].
  split; [vm_compute; reflexivity|].
  split; [vm_compute; reflexivity|].
  split; [vm_compute; reflexivity|].
  split; [vm_compute; reflexivity|].
  split; [vm_compute; reflexivity|].
  split; vm_compute; reflexivity.
Qed.

Lemma first_matching_candidate_wins_witness :
  ∃ ix,
    build_index Planar.shape Planar.wkt [parcel_A; parcel_B] = Ok ix ∧
    ∃ r, match_candidates Planar.wkt Planar.contains Planar.intersects ix
           (Planar.Point 2 1)
           [CandOther 5; CandGeom (Planar.Box 7 7 8 8);
            CandGeom (Planar.Box 0 0 2 2); CandGeom (Planar.Box 1 0 4 4)] = Ok r ∧
      match r with
      | Some (idx, c) =>
          ∃ pre post,
            [CandOther 5; CandGeom (Planar.Box 7 7 8 8);
             CandGeom (Planar.Box 0 0 2 2); CandGeom (Planar.Box 1 0 4 4)]
              = pre ++ CandGeom c :: post ∧
            geom_wkt_to_idx ix !! Planar.wkt c = Some idx ∧
            (Planar.contains c (Planar.Point 2 1) = true
             ∨ Planar.intersects c (Planar.Point 2 1) = true) ∧
            ∀ c', CandGeom c' ∈ pre →
                  is_Some (geom_wkt_to_idx ix !! Planar.wkt c') →
                  Planar.contains c' (Planar.Point 2 1) = false ∧
                  Planar.intersects c' (Planar.Point 2 1) = false
      | None =>
          ∀ c', CandGeom c' ∈ [CandOther 5; CandGeom (Planar.Box 7 7 8 8);
                               CandGeom (Planar.Box 0 0 2 2);
                               CandGeom (Planar.Box 1 0 4 4)] →
                is_Some (geom_wkt_to_idx ix !! Planar.wkt c') →
                Planar.contains c' (Planar.Point 2 1) = false ∧
                Planar.intersects c' (Planar.Point 2 1) = false
      end.
Proof.
  eexists. split; [vm_compute; reflexivity|].
  apply (first_matching_candidate_wins Planar.shape Planar.wkt
           Planar.contains Planar.intersects [parcel_A; parcel_B]).
  vm_compute; reflexivity.
Defined.

(** C3.  A secondary record whose geometry is null or missing is not
    skipped: the join raises on it.  A primary record whose geometry is
    null or missing is skipped from indexing, and the join completes. *)
Theorem null_secondary_geometry_raises :
  Planar.spatial_join (mk_collection [parcel_A])
                      (mk_collection [address_on_edge; address_no_geometry])
                      "PIN" "FID" = Err NoGeometry ∧
  ∃ out stats,
    Planar.spatial_join (mk_collection [parcel_no_geometry; parcel_A])
                        (mk_collection [address_on_edge]) "PIN" "FID"
      = Ok (out, stats) ∧
    total_matched_addresses stats = 1%nat ∧
    unmatched_count stats = 0%nat.
Proof.
  split; [vm_compute; reflexivity|].
  eexists _, _. split; [vm_compute; reflexivity|]. split; reflexivity.
Qed.

Lemma summary_counts_add_up_witness :
  (∀ a, a ∈ fc_features sample_addresses → is_Some (f_geometry a)) ∧
  ∃ out stats,
    Planar.spatial_join sample_parcels sample_addresses "PIN" "FID"
      = Ok (out, stats) ∧
    total_matched_addresses stats
      = (length (fc_features sample_addresses) - unmatched_count stats)%nat ∧
    (unmatched_count stats ≤ length (fc_features sample_addresses))%nat.
Proof.
  assert (∀ a, a ∈ fc_features sample_addresses → is_Some (f_geometry a)) as Hgeom.
  { intros a Ha. simpl in Ha.
    repeat (apply elem_of_cons in Ha as [->|Ha]; [by eexists|]).
    by apply elem_of_nil in Ha. }
  split; [exact Hgeom|].
  eexists _, _. split; [vm_compute; reflexivity|].
  refine (proj1 (summary_counts_add_up Planar.shape Planar.wkt Planar.contains
                   Planar.intersects Planar.query sample_parcels sample_addresses
                   "PIN" "FID" Hgeom) _ _ _).
  vm_compute; reflexivity.
Defined.

(** ** Every join keeps the primary records and their geometry *)

Lemma same_geometry_fmap (input output : list feature) :
  f_geometry <$> output = f_geometry <$> input →
  same_records_and_geometry input output.
Proof.
  intros H. split.
  - rewrite <-(length_fmap f_geometry output), H. apply length_fmap.
  - intros i f Hf.
    assert ((f_geometry <$> output) !! i = Some (f_geometry f)) as Hi.
    { by rewrite H, list_lookup_fmap, Hf. }
    rewrite list_lookup_fmap in Hi.
    destruct (output !! i) as [f'|]; simplify_eq/=. by exists f'.
Qed.

Lemma same_geometry_collect (body : feature → result feature)
    (input output : list feature) :
  (∀ f f', body f = Ok f' → f_geometry f' = f_geometry f) →
  for_collect body input = Ok output →
  same_records_and_geometry input output.
Proof.
  intros Hbody H. apply for_collect_lookup in H as [Hlen Hlk].
  split; [done|]. intros i f Hf.
  destruct (Hlk i f Hf) as (f' & Hf' & Hb). exists f'. split; [done|].
  by apply Hbody.
Qed.

(** C9.  The exact-attribute join, the structured-text-derived join, the
    scraped-data merge and the spatial join each return as many records as
    the primary record set holds, in the same order, and the geometry of
    the i-th output record is the geometry of the i-th primary record. *)
Theorem joins_preserve_records_and_geometry :
  (∀ (primary secondary : feature_collection) (pf sf : string),
     same_records_and_geometry
       (fc_features primary)
       (fc_features (merge_by_id primary secondary pf sf))) ∧
  (∀ (table_rows : string → list (list string))
     (parcel_data address_data out : feature_collection),
     merge_by_pidn table_rows parcel_data address_data = Ok out →
     same_records_and_geometry (fc_features parcel_data) (fc_features out)) ∧
  (∀ (parcel_data : feature_collection) (scraped_data : list props)
     (merge_field : string),
     same_records_and_geometry
       (fc_features parcel_data)
       (fc_features (merge_scraped_data parcel_data scraped_data merge_field))) ∧
  (∀ (Shape : Type) (shape : geometry → option Shape) (wkt : Shape → string)
     (contains intersects : Shape → Shape → bool)
     (query : list Shape → Shape → list (candidate Shape))
     (parcel_data address_data : feature_collection)
     (parcel_id_field address_id_field : string)
     (out : feature_collection) (stats : join_summary),
     spatial_join shape wkt contains intersects query parcel_data address_data
                  parcel_id_field address_id_field = Ok (out, stats) →
     same_records_and_geometry (fc_features parcel_data) (fc_features out)).
Proof.
  split; [|split; [|split]].
  - intros. apply same_geometry_fmap. unfold merge_by_id; simpl.
    rewrite <-list_fmap_compose. by apply list_fmap_ext.
  - intros table_rows parcel_data address_data out H.
    unfold merge_by_pidn, mbind, result_bind in H.
    destruct (for_each _ _ _) as [lk|]; [|done].
    destruct (for_collect _ _) as [updated|] eqn:Hc; [|done].
    inversion H; subst; simpl.
    apply (same_geometry_collect _ _ _ ) in Hc; [done|].
    intros f f' Hf. unfold merge_by_pidn_feature, mbind, result_bind in Hf.
    destruct (parse_description _ _); [|done]. by inversion Hf.
  - intros. apply same_geometry_fmap. unfold merge_scraped_data; simpl.
    rewrite <-list_fmap_compose. by apply list_fmap_ext.
  - intros Shape shape wkt contains intersects query parcel_data address_data
      pid_field aid_field out stats H.
    apply same_geometry_fmap. by eapply spatial_join_geometry.
Qed.

Lemma joins_preserve_records_and_geometry_witness :
  same_records_and_geometry
    (fc_features id_primary)
    (fc_features (merge_by_id id_primary id_secondary "PIN" "PIN")) ∧
  (∃ out, merge_by_pidn toy_rows pidn_parcels pidn_addresses = Ok out ∧
          same_records_and_geometry (fc_features pidn_parcels) (fc_features out)) ∧
  same_records_and_geometry
    (fc_features id_primary)
    (fc_features (merge_scraped_data id_primary scraped_items "PIN")) ∧
  (∃ out stats,
     Planar.spatial_join sample_parcels sample_addresses "PIN" "FID"
       = Ok (out, stats) ∧
     same_records_and_geometry (fc_features sample_parcels) (fc_features out)).
Proof.
  destruct joins_preserve_records_and_geometry as (H1 & H2 & H3 & H4).
  split; [apply H1|]. split.
  { eexists. split; [vm_compute; reflexivity|].
    apply (H2 toy_rows pidn_parcels pidn_addresses). vm_compute; reflexivity. }
  split; [apply H3|].
  eexists _, _. split; [vm_compute; reflexivity|].
  eapply (H4 _ Planar.shape Planar.wkt Planar.contains Planar.intersects Planar.query
             sample_parcels sample_addresses "PIN" "FID").
  vm_compute; reflexivity.
Defined.

Lemma merge_by_id_frame_witness :
  fc_features id_primary !! 0%nat
    = Some (mk_feature (Some (Planar.box_geometry 0 0 2 2))
                       [("PIN", VStr "P1"); ("owner", VStr "Jane Doe")]) ∧
  ∃ f' p',
    fc_features (merge_by_id id_primary id_secondary "PIN" "PIN") !! 0%nat = Some f' ∧
    f_properties f' = Some p' ∧
    p' !! "owner" = Some (VStr "Jane Doe").
Proof.
  split; [reflexivity|].
  destruct (merge_by_id_frame id_primary id_secondary "PIN" "PIN" 0
              (mk_feature (Some (Planar.box_geometry 0 0 2 2))
                          [("PIN", VStr "P1"); ("owner", VStr "Jane Doe")])
              eq_refl) as (f' & p' & Hf' & Hp' & _ & _ & Hfalsy).
  exists f', p'. split; [done|]. split; [done|].
  rewrite (Hfalsy (list_to_map [("PIN", VStr "P1"); ("owner", VStr "");
                                ("zip", VStr "83001")])
                  "owner" (VStr "")); vm_compute; reflexivity.
Defined.

Lemma cross_encoding_join_strict_lookup_witness :
  join_address_to_parcel geojson_parcels
    (jsonl_addresses ++ [JBare (list_to_map [("street", VStr "1 Main St")])])
    "RWACCT" "Account #" = Err (KeyError "Account #") ∧
  join_address_to_parcel
    (geojson_parcels ++ [JBare (list_to_map [("owner", VStr "Jane Doe")])])
    jsonl_addresses "RWACCT" "Account #" = Err (KeyError "RWACCT") ∧
  ∃ f', fc_features (merge_by_id id_primary id_secondary "parcel" "PIN") !! 1%nat
          = Some f' ∧
        f_properties f'
          = Some (list_to_map [("PIN", VStr "P7"); ("owner", VStr "John Roe")]).
Proof.
  destruct cross_encoding_join_strict_lookup as (Ha & Hp & Hid & _).
  split; [|split].
  - apply Ha.
    + repeat constructor.
    + eexists. split; [apply elem_of_app; right; by left|reflexivity].
  - apply Hp.
    + repeat constructor.
    + intros r Hr. apply list_elem_of_singleton in Hr as ->. by eexists.
    + eexists. split; [apply elem_of_app; right; by left|reflexivity].
  - apply (Hid id_primary id_secondary "parcel" "PIN" 1%nat
             (mk_feature None [("PIN", VStr "P7"); ("owner", VStr "John Roe")]));
      reflexivity.
Defined.

Lemma join_key_field_never_copied_witness :
  (∃ f' p',
     fc_features (merge_scraped_data id_primary scraped_items "PIN") !! 0%nat
       = Some f' ∧
     f_properties f' = Some p' ∧
     p' !! "PIN" = Some (VStr "P1") ∧ p' !! "tax" = Some (VInt 1200)) ∧
  (∃ out r',
     join_address_to_parcel geojson_parcels jsonl_addresses "RWACCT" "Account #"
       = Ok out ∧
     out !! 0%nat = Some r' ∧
     attributes r' !! "Account #" = Some (VStr "old") ∧
     attributes r' !! "unit" = Some (VStr "")).
Proof.
  destruct join_key_field_never_copied as [Hs Hj]. split.
  - destruct (Hs id_primary scraped_items "PIN" 0%nat
                (mk_feature (Some (Planar.box_geometry 0 0 2 2))
                            [("PIN", VStr "P1"); ("owner", VStr "Jane Doe")])
                eq_refl) as (f' & p' & Hf' & Hp' & Hkey & Hcopy).
    exists f', p'. split; [done|]. split; [done|]. split.
    + rewrite Hkey. reflexivity.
    + apply (Hcopy (list_to_map [("PIN", VStr "P1"); ("tax", VInt 1200);
                                 ("owner", VStr "")])); try done;
        vm_compute; reflexivity.
  - assert (∃ lk, for_each (join_lookup_step "Account #") ∅ jsonl_addresses = Ok lk)
      as [lk Hlk] by (eexists; vm_compute; reflexivity).
    assert (∃ out, join_address_to_parcel geojson_parcels jsonl_addresses
                     "RWACCT" "Account #" = Ok out)
      as [out Hout] by (eexists; vm_compute; reflexivity).
    destruct (Hj geojson_parcels jsonl_addresses "RWACCT" "Account #" lk out 0%nat
                (JFeature None (Some (Planar.box_geometry 0 0 2 2))
                   (list_to_map [("RWACCT", VStr "R1"); ("Account #", VStr "old")]))
                Hlk Hout eq_refl) as (r' & key & Hr' & Hkey & Hak & Hcopy).
    exists out, r'. split; [done|]. split; [done|]. split.
    + rewrite Hak. reflexivity.
    + simpl in Hkey. vm_compute in Hkey. inversion Hkey; subst key.
      apply (Hcopy (list_to_map [("Account #", VStr "R1"); ("street", VStr "12 Elm St");
                                 ("unit", VStr "")])); [|reflexivity|done].
      vm_compute in Hlk. inversion Hlk; subst lk. vm_compute. reflexivity.
Defined.

(** ** CRS detection *)

Lemma Qlt_bool_true (a b : Q) : Qlt_bool a b = true ↔ (a < b)%Q.
Proof.
  unfold Qlt_bool. rewrite negb_true_iff. split.
  - intros H. apply Qnot_le_lt. intros Hle. apply Qle_bool_iff in Hle. congruence.
  - intros H. destruct (Qle_bool b a) eqn:E; [|done].
    apply Qle_bool_iff in E. by apply Qlt_not_le in H.
Qed.

Lemma classify_point_pair (x y : Q) (rest : list coords) :
  classify_point (CList (CNum x :: CNum y :: rest)) =
    Ok (if Qle_bool (-180) x && Qle_bool x 180
           && (Qle_bool (-90) y && Qle_bool y 90)
        then EPSG_4326
        else if Qlt_bool 1000000 x || Qlt_bool 1000000 y
             then EPSG_3739 else EPSG_4326).
Proof.
  unfold classify_point. simpl.
  destruct (Qle_bool (-180) x && Qle_bool x 180); simpl.
  - destruct (Qle_bool (-90) y && Qle_bool y 90); simpl; [done|].
    destruct (Qlt_bool 1000000 x); simpl; [done|].
    by destruct (Qlt_bool 1000000 y).
  - destruct (Qlt_bool 1000000 x); simpl; [done|].
    by destruct (Qlt_bool 1000000 y).
Qed.

Lemma detect_on_first_geometry (data : feature_collection) (f : feature)
    (g : geometry) :
  fc_crs data = None →
  List.find has_coordinates (fc_features data) = Some f →
  f_geometry f = Some g →
  detect_coordinate_system data =
    (coords ← first_point g;
     match coords with
     | None => Ok EPSG_4326
     | Some pt => if coords_truthy pt then classify_point pt else Ok EPSG_4326
     end).
Proof.
  intros Hcrs Hfind Hg. unfold detect_coordinate_system, explicit_crs.
  rewrite Hcrs, Hfind, Hg.
  destruct (fc_features data); [done|reflexivity].
Qed.

Lemma first_point_pair (g : geometry) (x y : Q) :
  first_pair g x y →
  ∃ rest, first_point g = Ok (Some (CList (CNum x :: CNum y :: rest))).
Proof.
  unfold first_point.
  intros [[Ht (rest & pts & rings & ->)]|[Ht (rest & pts & rings & polys & ->)]];
    rewrite Ht; simpl; by exists rest.
Qed.

(** C2 (as amended).  For a record set without explicit CRS metadata whose
    first geometry with coordinates is a Polygon or MultiPolygon with first
    coordinate pair (x, y): detection returns the state-plane system when
    x > 1,000,000 or y > 1,000,000 (signed comparison), and the geographic
    WGS84 system when (x, y) lies within [-180,180]x[-90,90].  For a first
    geometry of any other type detection returns WGS84. *)
Theorem detect_by_first_pair (data : feature_collection) (f : feature)
    (g : geometry) :
  fc_crs data = None →
  List.find has_coordinates (fc_features data) = Some f →
  f_geometry f = Some g →
  (∀ x y, first_pair g x y → (1000000 < x ∨ 1000000 < y)%Q →
          detect_coordinate_system data = Ok EPSG_3739) ∧
  (∀ x y, first_pair g x y →
          (-180 <= x ∧ x <= 180 ∧ -90 <= y ∧ y <= 90)%Q →
          detect_coordinate_system data = Ok EPSG_4326) ∧
  (g_type g ≠ "Polygon" → g_type g ≠ "MultiPolygon" →
   detect_coordinate_system data = Ok EPSG_4326).
Proof.
  intros Hcrs Hfind Hg.
  rewrite (detect_on_first_geometry data f g Hcrs Hfind Hg).
  split; [|split].
  - intros x y Hpair Hbig.
    destruct (first_point_pair g x y Hpair) as [rest ->]. simpl.
    rewrite classify_point_pair.
    assert (Qlt_bool 1000000 x || Qlt_bool 1000000 y = true) as ->.
    { apply orb_true_iff. by rewrite !Qlt_bool_true. }
    assert (Qle_bool (-180) x && Qle_bool x 180
            && (Qle_bool (-90) y && Qle_bool y 90) = false) as ->; [|done].
    apply not_true_is_false. rewrite !andb_true_iff, !Qle_bool_iff.
    intros [[_ Hx] [_ Hy]].
    destruct Hbig as [Hb|Hb].
    + apply (Qlt_not_le _ _ Hb). eapply Qle_trans; [exact Hx|]. by compute.
    + apply (Qlt_not_le _ _ Hb). eapply Qle_trans; [exact Hy|]. by compute.
  - intros x y Hpair (Hx1 & Hx2 & Hy1 & Hy2).
    destruct (first_point_pair g x y Hpair) as [rest ->]. simpl.
    rewrite classify_point_pair.
    assert (Qle_bool (-180) x && Qle_bool x 180
            && (Qle_bool (-90) y && Qle_bool y 90) = true) as ->; [|done].
    by rewrite !andb_true_iff, !Qle_bool_iff.
  - intros Hp Hm. unfold first_point.
    destruct (has_coordinates f) eqn:Hc.
    + unfold has_coordinates in Hc. rewrite Hg in Hc.
      destruct (g_coordinates g) as [c|]; [|done].
      apply String.eqb_neq in Hp, Hm. by rewrite Hp, Hm.
    + apply find_some in Hfind as [_ Hfind]. congruence.
Qed.

(** C2, as stated, fails.  A polygon whose first point is (-2000000, 0)
    has an ordinate of magnitude above 1,000,000, yet detection returns
    WGS84: the test is [x > 1000000 or y > 1000000], without absolute
    value.  A Point geometry at (2000000, 3000000) is classified WGS84 as
    well: only Polygon and MultiPolygon coordinates are inspected. *)
Lemma magnitude_counterexample :
  (fc_crs negative_easting = None ∧
   List.find has_coordinates (fc_features negative_easting)
     = Some (mk_feature (Some (Planar.box_geometry (-2000000) 0 (-1999000) 1000)) []) ∧
   first_pair (Planar.box_geometry (-2000000) 0 (-1999000) 1000) (-2000000) 0 ∧
   (1000000 < Qabs (-2000000))%Q ∧
   detect_coordinate_system negative_easting = Ok EPSG_4326 ∧
   EPSG_4326 ≠ EPSG_3739) ∧
  (fc_crs large_point = None ∧
   List.find has_coordinates (fc_features large_point)
     = Some (mk_feature (Some (Planar.point_geometry 2000000 3000000)) []) ∧
   (1000000 < Qabs 2000000)%Q ∧
   detect_coordinate_system large_point = Ok EPSG_4326).
Proof.
  split.
  - split; [reflexivity|]. split; [reflexivity|]. split.
    { left. split; [reflexivity|]. by eexists _, _, _. }
    split; [reflexivity|]. split; [reflexivity|]. discriminate.
  - split; [reflexivity|]. split; [reflexivity|]. split; reflexivity.
Qed.

Lemma detect_by_first_pair_witness :
  detect_coordinate_system state_plane_parcels = Ok EPSG_3739 ∧
  detect_coordinate_system northing_only = Ok EPSG_3739 ∧
  detect_coordinate_system wgs84_parcels = Ok EPSG_4326 ∧
  detect_coordinate_system large_point = Ok EPSG_4326.
Proof.
  split; [|split; [|split]].
  - apply (proj1 (detect_by_first_pair state_plane_parcels
                    (mk_feature (Some (Planar.box_geometry 2400000 1300000 2400100 1300100)) [])
                    (Planar.box_geometry 2400000 1300000 2400100 1300100)
                    eq_refl eq_refl eq_refl) 2400000%Q 1300000%Q).
    + left. split; [reflexivity|]. by eexists _, _, _.
    + left. reflexivity.
  - apply (proj1 (detect_by_first_pair northing_only
                    (mk_feature (Some (Planar.box_geometry (-500) 1300000 100 1300100)) [])
                    (Planar.box_geometry (-500) 1300000 100 1300100)
                    eq_refl eq_refl eq_refl) (-500)%Q 1300000%Q).
    + left. split; [reflexivity|]. by eexists _, _, _.
    + right. reflexivity.
  - apply (proj1 (proj2 (detect_by_first_pair wgs84_parcels
                    (mk_feature (Some (Planar.box_geometry (-111) 43 (-110) 44)) [])
                    (Planar.box_geometry (-111) 43 (-110) 44)
                    eq_refl eq_refl eq_refl)) (-111)%Q 43%Q).
    + left. split; [reflexivity|]. by eexists _, _, _.
    + repeat split; vm_compute; discriminate.
  - apply (proj2 (proj2 (detect_by_first_pair large_point
                    (mk_feature (Some (Planar.point_geometry 2000000 3000000)) [])
                    (Planar.point_geometry 2000000 3000000)
                    eq_refl eq_refl eq_refl))); vm_compute; discriminate.
Defined.

(** ** Global identifiers *)

Lemma read_decimal_go_pretty (x : N) :
  ∃ p : N, ∀ acc s,
    read_decimal_go acc (pretty_N_go x s) = read_decimal_go (acc * p + x)%N s.
Proof.
  induction (N.lt_wf_0 x) as [x _ IH].
  destruct (decide (x = 0)%N) as [->|Hx].
  - exists 1%N. intros acc s. rewrite pretty_N_go_0. f_equal. lia.
  - destruct (IH (x `div` 10)%N) as [p Hp]; [apply N.div_lt; lia|].
    exists (p * 10)%N. intros acc s.
    rewrite pretty_N_go_step by lia. rewrite Hp. simpl. f_equal.
    assert (digit_value (pretty_N_char (x `mod` 10)) = x `mod` 10)%N as ->.
    { pose proof (N.mod_upper_bound x 10 ltac:(lia)) as Hlt.
      generalize dependent (x `mod` 10)%N. clear. intros d Hlt.
      assert (d = 0 ∨ d = 1 ∨ d = 2 ∨ d = 3 ∨ d = 4 ∨ d = 5 ∨ d = 6
              ∨ d = 7 ∨ d = 8 ∨ d = 9)%N as Hd by lia.
      destruct Hd as [->|[->|[->|[->|[->|[->|[->|[->|[->| ->]]]]]]]]]; reflexivity. }
    pose proof (N.div_mod x 10 ltac:(lia)). lia.
Qed.

Lemma read_decimal_pretty (x : N) : read_decimal (pretty x) = x.
Proof.
  unfold read_decimal, pretty, pretty_N. case_decide as Hx; [by subst|].
  destruct (read_decimal_go_pretty x) as [p Hp]. rewrite Hp. simpl. lia.
Qed.

Lemma read_decimal_go_zeros (n : nat) (s : string) :
  read_decimal_go 0 (zeros n +:+ s) = read_decimal_go 0 s.
Proof. induction n as [|n IH]; simpl; [done|]. apply IH. Qed.

Lemma pretty_N_go_head (x : N) (s : string) :
  (0 < x)%N → ∃ d rest, pretty_N_go x s = String (pretty_N_char d) rest.
Proof.
  revert s. induction (N.lt_wf_0 x) as [x _ IH]; intros s Hx.
  rewrite pretty_N_go_step by done.
  destruct (decide (x `div` 10 = 0)%N) as [->|Hd].
  - rewrite pretty_N_go_0. by eexists _, _.
  - apply IH; [apply N.div_lt; lia|by apply N.neq_0_lt_0].
Qed.

Lemma pretty_N_char_no_sign (d : N) : char_in (pretty_N_char d) "+-" = false.
Proof. unfold pretty_N_char. by repeat case_match. Qed.

(** Zero filling a numeral of a natural number puts zeros in front. *)
Lemma zfill_pretty (w : nat) (x : N) :
  ∃ n, zfill w (pretty x) = zeros n +:+ pretty x.
Proof.
  unfold zfill. destruct (w <=? String.length (pretty x))%nat; [by exists 0%nat|].
  assert (∃ d rest, pretty x = String (pretty_N_char d) rest) as (d & rest & ->).
  { unfold pretty, pretty_N. case_decide as Hx.
    - by exists 0%N, "".
    - apply pretty_N_go_head. lia. }
  rewrite pretty_N_char_no_sign. by eexists.
Qed.

Lemma read_decimal_zfill (w : nat) (i : nat) :
  read_decimal (zfill w (pretty i)) = N.of_nat i.
Proof.
  unfold pretty, pretty_nat.
  destruct (zfill_pretty w (N.of_nat i)) as [n ->].
  unfold read_decimal. rewrite read_decimal_go_zeros. apply read_decimal_pretty.
Qed.

Lemma length_zeros_app (n : nat) (s : string) :
  String.length (zeros n +:+ s) = (n + String.length s)%nat.
Proof. induction n as [|n IH]; simpl; [done|]. by rewrite IH. Qed.

Lemma zfill_pretty_length (w : nat) (i : nat) :
  (w ≤ String.length (zfill w (pretty i)))%nat.
Proof.
  unfold pretty, pretty_nat. unfold zfill.
  destruct (w <=? String.length (pretty (N.of_nat i)))%nat eqn:E.
  - by apply Nat.leb_le.
  - apply Nat.leb_gt in E.
    assert (∃ d rest, pretty (N.of_nat i) = String (pretty_N_char d) rest)
      as (d & rest & Hp).
    { unfold pretty, pretty_N. case_decide as Hx.
      - by exists 0%N, "".
      - apply pretty_N_go_head. lia. }
    rewrite Hp in *. rewrite pretty_N_char_no_sign, length_zeros_app. lia.
Qed.

Lemma drop_chars_app (a b : string) : drop_chars (String.length a) (a +:+ b) = b.
Proof. induction a as [|c a IH]; simpl; [by destruct b|done]. Qed.

Lemma string_app_assoc (a b c : string) : (a +:+ b) +:+ c = a +:+ b +:+ c.
Proof.
  induction a as [|x a IH]; [done|].
  change (String x ((a +:+ b) +:+ c) = String x (a +:+ b +:+ c)). by rewrite IH.
Qed.

Lemma sequence_of_unique_id (county_name : string) (i : nat) :
  sequence_of county_name (unique_id county_name i) = N.of_nat i.
Proof.
  unfold sequence_of, unique_id.
  rewrite <-string_app_assoc, drop_chars_app. apply read_decimal_zfill.
Qed.

Lemma enumerate_from_lookup_index {A} (n : nat) (l : list A) (k i : nat) (x : A) :
  enumerate_from n l !! k = Some (i, x) → i = (n + k)%nat ∧ l !! k = Some x.
Proof.
  revert n k. induction l as [|a l IH]; intros n k H; simpl in H; [done|].
  destruct k as [|k]; simpl in H.
  - inversion H; subst. split; [lia|done].
  - apply IH in H as [-> H]. split; [lia|done].
Qed.

(** Decimal numerals of equal length compare as the numbers they denote. *)

Lemma read_decimal_go_shift (s : string) (acc : N) :
  all_digits s = true →
  (read_decimal_go acc s = acc * 10 ^ N.of_nat (String.length s) + read_decimal_go 0 s
   ∧ read_decimal_go 0 s < 10 ^ N.of_nat (String.length s))%N.
Proof.
  revert acc. induction s as [|c s IH]; intros acc Hd.
  - simpl. split; lia.
  - cbn [all_digits] in Hd. apply andb_true_iff in Hd as [Hc Hs].
    cbn [read_decimal_go String.length].
    destruct (IH (acc * 10 + digit_value c)%N Hs) as [E1 B].
    destruct (IH (0 * 10 + digit_value c)%N Hs) as [E2 _].
    rewrite E1, E2.
    replace (N.of_nat (S (String.length s))) with (N.succ (N.of_nat (String.length s)))
      by lia.
    rewrite N.pow_succ_r'.
    assert (digit_value c ≤ 9)%N as Hdv.
    { unfold is_digit in Hc. apply andb_true_iff in Hc as [H1 H2].
      apply N.leb_le in H1, H2. unfold digit_value. lia. }
    set (P := (10 ^ N.of_nat (String.length s))%N) in *.
    split; nia.
Qed.

Lemma compare_digit_strings (s t : string) :
  all_digits s = true → all_digits t = true →
  String.length s = String.length t →
  (s ?= t)%string = (read_decimal s ?= read_decimal t)%N.
Proof.
  unfold read_decimal. revert t.
  induction s as [|c s IH]; intros [|d t] Hs Ht Hlen; try done.
  cbn [all_digits] in Hs, Ht.
  apply andb_true_iff in Hs as [Hc Hs]. apply andb_true_iff in Ht as [Hd Ht].
  injection Hlen as Hlen.
  cbn [String.compare read_decimal_go].
  destruct (read_decimal_go_shift s (0 * 10 + digit_value c)%N Hs) as [-> _].
  destruct (read_decimal_go_shift t (0 * 10 + digit_value d)%N Ht) as [-> _].
  destruct (read_decimal_go_shift s 0%N Hs) as [_ Bs].
  destruct (read_decimal_go_shift t 0%N Ht) as [_ Bt].
  rewrite <-Hlen in *.
  set (P := (10 ^ N.of_nat (String.length s))%N) in *.
  unfold is_digit in Hc, Hd.
  apply andb_true_iff in Hc as [Hc1 Hc2]. apply andb_true_iff in Hd as [Hd1 Hd2].
  apply N.leb_le in Hc1, Hc2, Hd1, Hd2.
  unfold Ascii.compare, digit_value.
  destruct (N.compare_spec (N_of_ascii c) (N_of_ascii d)) as [E|L|G].
  - rewrite E, (IH t Hs Ht Hlen).
    destruct (N.compare_spec (read_decimal_go 0 s) (read_decimal_go 0 t));
      symmetry; [apply N.compare_eq_iff|apply N.compare_lt_iff|apply N.compare_gt_iff];
      nia.
  - symmetry. apply N.compare_lt_iff. nia.
  - symmetry. apply N.compare_gt_iff. nia.
Qed.

Lemma compare_common_prefix (p a b : string) :
  (p +:+ a ?= p +:+ b)%string = (a ?= b)%string.
Proof.
  induction p as [|c p IH]; [done|].
  change ((String c (p +:+ a) ?= String c (p +:+ b))%string = (a ?= b)%string).
  cbn [String.compare]. unfold Ascii.compare. by rewrite N.compare_refl.
Qed.

Lemma all_digits_zeros_app (n : nat) (s : string) :
  all_digits s = true → all_digits (zeros n +:+ s) = true.
Proof. intros H. induction n as [|n IH]; [done|]. exact IH. Qed.

Lemma is_digit_pretty_N_char (d : N) : is_digit (pretty_N_char d) = true.
Proof. unfold pretty_N_char. by repeat case_match. Qed.

Lemma all_digits_pretty_N_go (x : N) (s : string) :
  all_digits s = true → all_digits (pretty_N_go x s) = true.
Proof.
  revert s. induction (N.lt_wf_0 x) as [x _ IH]; intros s Hs.
  destruct (decide (x = 0)%N) as [->|Hx]; [by rewrite pretty_N_go_0|].
  rewrite pretty_N_go_step by lia.
  apply IH; [apply N.div_lt; lia|].
  cbn [all_digits]. by rewrite is_digit_pretty_N_char.
Qed.

Lemma all_digits_pretty (x : N) : all_digits (pretty x) = true.
Proof.
  unfold pretty, pretty_N. case_decide; [done|]. by apply all_digits_pretty_N_go.
Qed.

Lemma length_pretty_N_go (k : nat) (x : N) (s : string) :
  (x < 10 ^ N.of_nat k)%N →
  (String.length (pretty_N_go x s) ≤ String.length s + k)%nat.
Proof.
  revert x s. induction k as [|k IH]; intros x s Hx.
  - assert (x = 0)%N as -> by (simpl in Hx; lia). rewrite pretty_N_go_0. lia.
  - destruct (decide (x = 0)%N) as [->|Hx0]; [rewrite pretty_N_go_0; lia|].
    rewrite pretty_N_go_step by lia.
    etrans; [apply IH|simpl; lia].
    replace (N.of_nat (S k)) with (N.succ (N.of_nat k)) in Hx by lia.
    rewrite N.pow_succ_r' in Hx.
    apply N.Div0.div_lt_upper_bound. lia.
Qed.

Lemma zfill_pretty_exact (i : nat) :
  (N.of_nat i ≤ 999999)%N →
  String.length (zfill 6 (pretty i)) = 6%nat ∧ all_digits (zfill 6 (pretty i)) = true.
Proof.
  intros Hi. unfold pretty at 1 2, pretty_nat.
  assert (String.length (pretty (N.of_nat i)) ≤ 6)%nat as Hlen.
  { unfold pretty, pretty_N. case_decide; [simpl; lia|].
    etrans; [apply (length_pretty_N_go 6)|simpl; lia].
    change (10 ^ N.of_nat 6)%N with 1000000%N. lia. }
  pose proof (all_digits_pretty (N.of_nat i)) as Hd.
  pose proof (zfill_pretty_length 6 i) as Hge.
  unfold pretty at 1, pretty_nat in Hge.
  destruct (zfill_pretty 6 (N.of_nat i)) as [n Hn].
  rewrite Hn in *. rewrite length_zeros_app in *.
  split; [|by apply all_digits_zeros_app].
  unfold zfill in Hn.
  destruct (6 <=? String.length (pretty (N.of_nat i)))%nat eqn:E.
  - apply Nat.leb_le in E.
    assert (String.length (zeros n +:+ pretty (N.of_nat i))
            = String.length (pretty (N.of_nat i))) as Hl by (by rewrite <-Hn).
    rewrite length_zeros_app in Hl. lia.
  - apply Nat.leb_gt in E.
    assert (∃ d rest, pretty (N.of_nat i) = String (pretty_N_char d) rest)
      as (d & rest & Hp).
    { unfold pretty, pretty_N. case_decide as Hx.
      - by exists 0%N, "".
      - apply pretty_N_go_head. lia. }
    rewrite Hp in Hn. rewrite pretty_N_char_no_sign in Hn. rewrite <-Hp in Hn.
    assert (String.length (zeros n +:+ pretty (N.of_nat i))
            = String.length (zeros (6 - String.length (pretty (N.of_nat i)))
                             +:+ pretty (N.of_nat i))) as Hl by (by rewrite <-Hn).
    rewrite !length_zeros_app in Hl. lia.
Qed.

(** Up to 999,999 the identifiers of one jurisdiction are ordered as
    strings the way their sequence numbers are ordered. *)
Lemma unique_id_lexicographic (county_name : string) (i j : nat) :
  (i < j)%nat → (N.of_nat j ≤ 999999)%N →
  (unique_id county_name i ?= unique_id county_name j)%string = Lt.
Proof.
  intros Hij Hj. unfold unique_id.
  rewrite <-!string_app_assoc, compare_common_prefix.
  destruct (zfill_pretty_exact i) as [Li Di]; [lia|].
  destruct (zfill_pretty_exact j) as [Lj Dj]; [lia|].
  rewrite compare_digit_strings by (done || congruence).
  rewrite !read_decimal_zfill. apply N.compare_lt_iff. lia.
Qed.

Section StandardizeProofs.
Variable transform_coordinates :
  feature_collection → string → string → result feature_collection.

Lemma standardized_uid (config : gmap string county_config)
    (county_data : feature_collection) (county_name : string)
    (out : list standardized_feature) (k : nat) (rec : standardized_feature) :
  standardize_ownership transform_coordinates config county_data county_name = Ok out →
  out !! k = Some rec →
  global_parcel_uid (sf_properties rec) = unique_id county_name (S k).
Proof.
  unfold standardize_ownership, mbind, result_bind. intros H Hk.
  destruct (detect_coordinate_system county_data) as [crs|]; [|done].
  match type of H with
  | match ?r with _ => _ end = _ => destruct r as [d1|]; [|done]
  end.
  destruct (convert_to_2d_coordinates d1) as [d2|]; [|done].
  apply for_collect_lookup in H as [Hlen Hlk].
  assert (k < length (enumerate_from 1 (fc_features d2)))%nat as Hlt.
  { rewrite <-Hlen. by eapply lookup_lt_Some. }
  destruct (lookup_lt_is_Some_2 _ _ Hlt) as [[i f] Hif].
  destruct (Hlk k (i, f) Hif) as (rec' & Hrec' & Hbody).
  assert (rec' = rec) as -> by congruence.
  apply enumerate_from_lookup_index in Hif as [-> _].
  unfold standardize_feature, mbind, result_bind in Hbody.
  destruct (_extract_mailing_address _ _); [|done].
  by inversion Hbody.
Qed.

(** C6.  In every completed standardization the k-th output record
    (counting from 0) carries the identifier made of the lower-cased
    jurisdiction name, an underscore and the sequence number k+1 written in
    decimal and zero-filled to at least six digits; the sequence number
    read back from the identifier is k+1, so it starts at 1 and strictly
    increases along the output (up to sequence number 999,999 the numeral
    has exactly six digits and the identifiers increase as strings too);
    and no two output records share an identifier. *)
Theorem global_identifiers_sequential (config : gmap string county_config)
    (county_data : feature_collection) (county_name : string)
    (out : list standardized_feature) :
  standardize_ownership transform_coordinates config county_data county_name = Ok out →
  (∀ k rec, out !! k = Some rec →
     global_parcel_uid (sf_properties rec)
       = py_lower county_name +:+ "_" +:+ zfill 6 (pretty (S k)) ∧
     (6 ≤ String.length (zfill 6 (pretty (S k))))%nat ∧
     sequence_of county_name (global_parcel_uid (sf_properties rec))
       = N.of_nat (S k)) ∧
  (∀ i j ri rj, (i < j)%nat → out !! i = Some ri → out !! j = Some rj →
     (sequence_of county_name (global_parcel_uid (sf_properties ri))
      < sequence_of county_name (global_parcel_uid (sf_properties rj)))%N ∧
     ((N.of_nat (S j) ≤ 999999)%N →
      String.length (zfill 6 (pretty (S i))) = 6%nat ∧
      String.length (zfill 6 (pretty (S j))) = 6%nat ∧
      (global_parcel_uid (sf_properties ri)
       ?= global_parcel_uid (sf_properties rj))%string = Lt)) ∧
  NoDup ((λ rec, global_parcel_uid (sf_properties rec)) <$> out).
Proof.
  intros H.
  assert (∀ k rec, out !! k = Some rec →
            sequence_of county_name (global_parcel_uid (sf_properties rec))
              = N.of_nat (S k)) as Hseq.
  { intros k rec Hk. rewrite (standardized_uid _ _ _ _ _ _ H Hk).
    apply sequence_of_unique_id. }
  split; [|split].
  - intros k rec Hk. split; [by rewrite (standardized_uid _ _ _ _ _ _ H Hk)|].
    split; [apply zfill_pretty_length|by apply Hseq].
  - intros i j ri rj Hij Hi Hj. split.
    + rewrite (Hseq i ri Hi), (Hseq j rj Hj). lia.
    + intros Hbound.
      split; [apply zfill_pretty_exact; lia|].
      split; [by apply zfill_pretty_exact|].
      rewrite (standardized_uid _ _ _ _ _ _ H Hi), (standardized_uid _ _ _ _ _ _ H Hj).
      apply unique_id_lexicographic; [lia|done].
  - apply NoDup_alt. intros i j uid Hi Hj.
    rewrite list_lookup_fmap in Hi, Hj.
    destruct (out !! i) as [ri|] eqn:Hri; [|done].
    destruct (out !! j) as [rj|] eqn:Hrj; [|done].
    simpl in Hi, Hj.
    pose proof (Hseq i ri Hri) as Si. pose proof (Hseq j rj Hrj) as Sj.
    assert (global_parcel_uid (sf_properties ri)
            = global_parcel_uid (sf_properties rj)) as E by congruence.
    rewrite E in Si. lia.
Qed.

End StandardizeProofs.

Lemma global_identifiers_sequential_witness :
  ∃ out r0 r2,
    standardize_ownership no_reprojection sample_config teton_parcels "Teton" = Ok out ∧
    out !! 0%nat = Some r0 ∧ out !! 2%nat = Some r2 ∧
    global_parcel_uid (sf_properties r0) = "teton_000001" ∧
    global_parcel_uid (sf_properties r2) = "teton_000003" ∧
    (sequence_of "Teton" (global_parcel_uid (sf_properties r0))
     < sequence_of "Teton" (global_parcel_uid (sf_properties r2)))%N ∧
    NoDup ((λ rec, global_parcel_uid (sf_properties rec)) <$> out).
Proof.
  assert (∃ out, standardize_ownership no_reprojection sample_config teton_parcels
                   "Teton" = Ok out) as [out Hout]
    by (eexists; vm_compute; reflexivity).
  assert (∃ r0 r2, out !! 0%nat = Some r0 ∧ out !! 2%nat = Some r2)
    as (r0 & r2 & H0 & H2).
  { vm_compute in Hout. inversion Hout; subst out. by eexists _, _. }
  destruct (global_identifiers_sequential no_reprojection sample_config
              teton_parcels "Teton" out Hout) as (Hform & Hinc & Hnodup).
  exists out, r0, r2. split; [done|]. split; [done|]. split; [done|].
  split; [by rewrite (proj1 (Hform 0%nat r0 H0))|].
  split; [by rewrite (proj1 (Hform 2%nat r2 H2))|].
  split; [apply (proj1 (Hinc 0%nat 2%nat r0 r2 ltac:(lia) H0 H2))|done].
Defined.

(** ** Composite mailing address *)

Section Strip.
Variable P : ascii → bool.

Lemma rstrip_by_app (a t : string) :
  rstrip_by P (a +:+ t) =
    match rstrip_by P t with
    | EmptyString => rstrip_by P a
    | String _ _ => a +:+ rstrip_by P t
    end.
Proof.
  induction a as [|c a IH].
  - change (EmptyString +:+ t) with t. by destruct (rstrip_by P t).
  - change (String c a +:+ t) with (String c (a +:+ t)).
    change (String c a +:+ rstrip_by P t) with (String c (a +:+ rstrip_by P t)).
    cbn [rstrip_by]. rewrite IH.
    destruct (rstrip_by P t) as [|d r] eqn:Ht; [done|].
    change (a +:+ String d r) with (String.append a (String d r)).
    by destruct a.
Qed.

Lemma rstrip_lstrip_comm (s : string) :
  rstrip_by P (lstrip_by P s) = lstrip_by P (rstrip_by P s).
Proof.
  induction s as [|c s IH]; [done|].
  cbn [lstrip_by rstrip_by]. destruct (P c) eqn:Hc.
  - rewrite IH. destruct (rstrip_by P s) as [|d r]; [done|].
    cbn [lstrip_by]. by rewrite Hc.
  - cbn [rstrip_by]. destruct (rstrip_by P s) as [|d r]; cbn [lstrip_by];
      by rewrite Hc.
Qed.

Lemma lstrip_by_id (c : ascii) (s : string) :
  P c = false → lstrip_by P (String c s) = String c s.
Proof. intros H. cbn [lstrip_by]. by rewrite H. Qed.

Lemma rstrip_by_head (c : ascii) (s : string) :
  P c = false → ∃ r, rstrip_by P (String c s) = String c r.
Proof.
  intros H. cbn [rstrip_by]. destruct (rstrip_by P s); [|by eexists].
  rewrite H. by eexists.
Qed.
End Strip.

Lemma rstrip_after_whitespace (t : string) :
  plain_spaces t = true →
  rstrip_by comma_space (rstrip_by py_isspace t) = rstrip_by comma_space t.
Proof.
  induction t as [|c t IH]; [done|].
  cbn [plain_spaces]. rewrite andb_true_iff. intros [Hc Ht].
  specialize (IH Ht). cbn [rstrip_by].
  destruct (rstrip_by py_isspace t) as [|d r] eqn:Hw.
  - cbn [rstrip_by] in IH. rewrite <-IH.
    destruct (py_isspace c) eqn:Hs.
    + cbn [rstrip_by]. simpl in Hc. apply bool_decide_eq_true in Hc as ->. done.
    + done.
  - cbn [rstrip_by]. cbn [rstrip_by] in IH. by rewrite IH.
Qed.

Lemma plain_spaces_app (a b : string) :
  plain_spaces a = true → plain_spaces b = true → plain_spaces (a +:+ b) = true.
Proof.
  intros Ha Hb. induction a as [|c a IH]; [done|].
  change (String c a +:+ b) with (String c (a +:+ b)).
  cbn [plain_spaces] in *. apply andb_true_iff in Ha as [Hc Ha].
  by rewrite Hc, IH.
Qed.

Lemma spec_candidate_positional (p : props) (m : list string) (i : nat) :
  spec_candidate p m i = py_str (positional p m i).
Proof.
  unfold spec_candidate, positional, get_or.
  destruct (m !! i) as [key|]; [|done]. by destruct (p !! key).
Qed.

Lemma truthy_VStr_false (s : string) : truthy (VStr s) = false → s = "".
Proof. simpl. rewrite negb_false_iff. apply String.eqb_eq. Qed.

(** The composite computed by the code is the composite of the
    specification with commas and spaces trimmed at the front too. *)
Lemma composite_refines_spec (p : props) (mappings : gmap string (list string))
    (m : list string) (a s1 s2 s3 : string) :
  mappings !! "mailing_address" = Some m →
  (1 < length m)%nat →
  positional p m 0 = VStr a → positional p m 1 = VStr s1 →
  positional p m 2 = VStr s2 → positional p m 3 = VStr s3 →
  plain_spaces s1 = true → plain_spaces s2 = true → plain_spaces s3 = true →
  _extract_mailing_address p mappings
    = Ok (VStr (lstrip_by comma_space (spec_composite_address p m))).
Proof.
  intros Hm Hlen H0 H1 H2 H3 P1 P2 P3.
  unfold _extract_mailing_address. rewrite Hm. simpl.
  destruct (decide (1 < length m)%nat); [|lia].
  rewrite H0, H1, H2, H3.
  unfold spec_composite_address. rewrite !spec_candidate_positional.
  rewrite H0, H1, H2, H3. cbn [py_str].
  fold comma_space.
  destruct (truthy (VStr s1) || truthy (VStr s2) || truthy (VStr s3)) eqn:Hany.
  - do 2 f_equal. unfold py_strip_chars, py_strip, strip_by. fold comma_space.
    set (suffix := ", " +:+ s1 +:+ ", " +:+ s2 +:+ " " +:+ s3).
    assert (lstrip_by py_isspace suffix = suffix) as -> by done.
    rewrite rstrip_lstrip_comm. f_equal.
    rewrite !rstrip_by_app. rewrite rstrip_after_whitespace; [done|].
    unfold suffix.
    repeat (apply plain_spaces_app; [done|]). done.
  - apply orb_false_iff in Hany as [Hany E3].
    apply orb_false_iff in Hany as [E1 E2].
    apply truthy_VStr_false in E1, E2, E3. subst.
    do 2 f_equal. unfold py_strip_chars, strip_by. fold comma_space.
    rewrite rstrip_lstrip_comm. f_equal.
    by rewrite rstrip_by_app.
Qed.
(** C7 (as amended).  With more than one candidate configured, and the
    candidates holding strings (whose only whitespace is the plain space)
    or being missing, the composite mailing address is candidate[0]'s value
    followed by ", {candidate[1]}, {candidate[2]} {candidate[3]}" (the
    empty string for a missing positional candidate) with commas and spaces
    trimmed at both ends, not only at the end; it is exactly the
    concatenation with its end trimmed when candidate[0]'s value starts
    with another character.  With exactly one candidate configured the
    result is that field's raw value when it is present and truthy, and
    null otherwise.  With four candidates valued ("12 Elm St", "Jackson",
    "WY", "83001") the result is "12 Elm St, Jackson, WY 83001". *)
Theorem mailing_address_composition :
  (∀ (p : props) (mappings : gmap string (list string)) (m : list string)
     (a s1 s2 s3 : string),
     mappings !! "mailing_address" = Some m →
     (1 < length m)%nat →
     positional p m 0 = VStr a → positional p m 1 = VStr s1 →
     positional p m 2 = VStr s2 → positional p m 3 = VStr s3 →
     plain_spaces s1 = true → plain_spaces s2 = true → plain_spaces s3 = true →
     _extract_mailing_address p mappings
       = Ok (VStr (lstrip_by comma_space (spec_composite_address p m))) ∧
     (∀ c a', a = String c a' → comma_space c = false →
        _extract_mailing_address p mappings
          = Ok (VStr (spec_composite_address p m)))) ∧
  (∀ (p : props) (mappings : gmap string (list string)) (key : string),
     mappings !! "mailing_address" = Some [key] →
     _extract_mailing_address p mappings
       = Ok match p !! key with
            | Some v => if truthy v then v else VNone
            | None => VNone
            end) ∧
  (∀ (p : props) (mappings : gmap string (list string)) (k0 k1 k2 k3 : string),
     mappings !! "mailing_address" = Some [k0; k1; k2; k3] →
     p !! k0 = Some (VStr "12 Elm St") → p !! k1 = Some (VStr "Jackson") →
     p !! k2 = Some (VStr "WY") → p !! k3 = Some (VStr "83001") →
     _extract_mailing_address p mappings
       = Ok (VStr "12 Elm St, Jackson, WY 83001")).
Proof.
  split; [|split].
  - intros p mappings m a s1 s2 s3 Hm Hlen H0 H1 H2 H3 P1 P2 P3.
    pose proof (composite_refines_spec p mappings m a s1 s2 s3
                  Hm Hlen H0 H1 H2 H3 P1 P2 P3) as Hc.
    split; [exact Hc|].
    intros c a' -> Hcs. rewrite Hc. do 2 f_equal.
    unfold spec_composite_address. rewrite spec_candidate_positional, H0.
    cbn [py_str].
    match goal with
    | |- context [rstrip_by ?P (String c a' +:+ ?t)] =>
        change (String c a' +:+ t) with (String c (a' +:+ t));
        destruct (rstrip_by_head P c (a' +:+ t) Hcs) as [r ->]
    end.
    by apply lstrip_by_id.
  - intros p mappings key Hm. unfold _extract_mailing_address. rewrite Hm. simpl.
    by destruct (p !! key).
  - intros p mappings k0 k1 k2 k3 Hm H0 H1 H2 H3.
    unfold _extract_mailing_address. rewrite Hm. simpl.
    unfold positional, get_or. simpl. rewrite H0, H1, H2, H3. simpl.
    vm_compute. reflexivity.
Qed.

(** C7, as stated, fails.  (1) When candidate[0] is missing, the leading
    ", " is trimmed as well.  (2) A single configured candidate holding the
    empty string yields null, not the raw value.  (3) A falsy non-string
    candidate (the integer 0) is not interpolated when the others are
    empty.  (4) A non-string candidate[0] makes the function raise. *)
Lemma mailing_address_counterexample :
  (_extract_mailing_address
     (list_to_map [("city", VStr "Jackson"); ("st", VStr "WY"); ("zip", VStr "83001")])
     mailing_mapping_4 = Ok (VStr "Jackson, WY 83001") ∧
   spec_composite_address
     (list_to_map [("city", VStr "Jackson"); ("st", VStr "WY"); ("zip", VStr "83001")])
     ["addr"; "city"; "st"; "zip"] = ", Jackson, WY 83001") ∧
  (_extract_mailing_address (list_to_map [("addr", VStr "")]) mailing_mapping_1
     = Ok VNone ∧
   (list_to_map [("addr", VStr "")] : props) !! "addr" = Some (VStr "")) ∧
  (_extract_mailing_address
     (list_to_map [("addr", VStr "12 Elm St"); ("city", VInt 0)])
     mailing_mapping_4 = Ok (VStr "12 Elm St") ∧
   spec_composite_address
     (list_to_map [("addr", VStr "12 Elm St"); ("city", VInt 0)])
     ["addr"; "city"; "st"; "zip"] = "12 Elm St, 0") ∧
  (_extract_mailing_address
     (list_to_map [("addr", VInt 12); ("city", VStr "Jackson")])
     mailing_mapping_4 = Err TypeError).
Proof.
  repeat split; vm_compute; reflexivity.
Qed.

Lemma mailing_address_composition_witness :
  _extract_mailing_address
    (list_to_map [("city", VStr "Jackson"); ("st", VStr "WY"); ("zip", VStr "83001")])
    mailing_mapping_4 = Ok (VStr "Jackson, WY 83001") ∧
  _extract_mailing_address
    (list_to_map [("addr", VStr "12 Elm St"); ("city", VStr "Jackson"); ("st", VStr "WY")])
    mailing_mapping_4 = Ok (VStr "12 Elm St, Jackson, WY") ∧
  _extract_mailing_address (list_to_map [("addr", VStr "PO Box 1")]) mailing_mapping_1
    = Ok (VStr "PO Box 1") ∧
  _extract_mailing_address
    (list_to_map [("addr", VStr "12 Elm St"); ("city", VStr "Jackson");
                  ("st", VStr "WY"); ("zip", VStr "83001")])
    mailing_mapping_4 = Ok (VStr "12 Elm St, Jackson, WY 83001").
Proof.
  destruct mailing_address_composition as (Hcomp & Hone & Hfour).
  split; [|split; [|split]].
  - rewrite (proj1 (Hcomp
               (list_to_map [("city", VStr "Jackson"); ("st", VStr "WY");
                             ("zip", VStr "83001")])
               mailing_mapping_4 ["addr"; "city"; "st"; "zip"]
               "" "Jackson" "WY" "83001"
               eq_refl ltac:(simpl; lia) eq_refl eq_refl eq_refl eq_refl
               eq_refl eq_refl eq_refl)).
    vm_compute. reflexivity.
  - rewrite (proj2 (Hcomp
               (list_to_map [("addr", VStr "12 Elm St"); ("city", VStr "Jackson");
                             ("st", VStr "WY")])
               mailing_mapping_4 ["addr"; "city"; "st"; "zip"]
               "12 Elm St" "Jackson" "WY" ""
               eq_refl ltac:(simpl; lia) eq_refl eq_refl eq_refl eq_refl
               eq_refl eq_refl eq_refl) "1"%char "2 Elm St" eq_refl eq_refl).
    vm_compute. reflexivity.
  - rewrite (Hone (list_to_map [("addr", VStr "PO Box 1")]) mailing_mapping_1 "addr"
               eq_refl).
    reflexivity.
  - apply (Hfour _ mailing_mapping_4 "addr" "city" "st" "zip"); reflexivity.
Defined.

(** * Further properties of the joins *)

(** ** More on loops *)

(** As [for_each_invariant], the step knowing where in the list it is. *)
Lemma for_each_invariant_split {A S} (body : S → A → result S)
    (P : S → list A → Prop) (s0 : S) (l : list A) (s : S) :
  P s0 [] →
  (∀ s x s' seen rest, l = seen ++ x :: rest → P s seen → body s x = Ok s' →
                       P s' (seen ++ [x])) →
  for_each body s0 l = Ok s →
  P s l.
Proof.
  intros H0 Hstep.
  assert (∀ rest seen s1, l = seen ++ rest → P s1 seen →
            for_each body s1 rest = Ok s → P s l) as G.
  { induction rest as [|a rest IH]; intros seen s1 Hl Hs1 H; simpl in H.
    - inversion H; subst. by rewrite app_nil_r.
    - unfold mbind, result_bind in H.
      destruct (body s1 a) as [s2|] eqn:Hb; [|done].
      apply (IH (seen ++ [a]) s2); [by rewrite <-app_assoc|eauto|done]. }
  intros H. by apply (G l [] s0).
Qed.

Section SpatialJoinMore.
Context {Shape : Type}.
Variable shape : geometry → option Shape.
Variable wkt : Shape → string.
Variable contains intersects : Shape → Shape → bool.
Variable query : list Shape → Shape → list (candidate Shape).

(** Indexed positions grow along [parcel_features]. *)
Lemma build_index_positions (features : list feature) (n : nat)
    (ix0 ix : parcel_index Shape) :
  for_each (index_step shape wkt) ix0 (enumerate_from n features) = Ok ix →
  NoDup (parcel_features ix0) →
  (∀ p, p ∈ parcel_features ix0 → (p < n)%nat) →
  NoDup (parcel_features ix).
Proof.
  revert n ix0. induction features as [|f features IH]; intros n ix0 H Hnd Hlt.
  - simpl in H. by inversion H; subst.
  - simpl in H. unfold mbind, result_bind in H.
    destruct (f_geometry f) as [g|].
    + destruct (shape g) as [sg|]; [|done].
      apply IH in H; [done| |]; simpl.
      * apply NoDup_app. split; [done|]. split; [|apply NoDup_singleton].
        intros p Hp Hp'. apply list_elem_of_singleton in Hp' as ->.
        apply Hlt in Hp. lia.
      * intros p Hp. apply elem_of_app in Hp as [Hp|Hp].
        -- apply Hlt in Hp. lia.
        -- apply list_elem_of_singleton in Hp as ->. lia.
    + apply IH in H; [done|done|]. intros p Hp. apply Hlt in Hp. lia.
Qed.

Lemma build_index_NoDup (features : list feature) (ix : parcel_index Shape) :
  build_index shape wkt features = Ok ix → NoDup (parcel_features ix).
Proof.
  intros H. apply (build_index_positions features 0 empty_index ix H).
  - apply NoDup_nil_2.
  - intros p Hp. by apply elem_of_nil in Hp.
Qed.

(** The map from WKT text to index points at the last geometry with that
    text. *)
Lemma build_index_last (features : list feature) (ix : parcel_index Shape) :
  build_index shape wkt features = Ok ix →
  ∀ w idx,
    geom_wkt_to_idx ix !! w = Some idx ↔
    ∃ g, parcel_geoms ix !! idx = Some g ∧ wkt g = w ∧
         ∀ j g', (idx < j)%nat → parcel_geoms ix !! j = Some g' → wkt g' ≠ w.
Proof.
  intros H. unfold build_index in H.
  refine (for_each_invariant _
           (λ (ix : parcel_index Shape) (_ : list (nat * feature)),
              ∀ w idx,
                geom_wkt_to_idx ix !! w = Some idx ↔
                ∃ g, parcel_geoms ix !! idx = Some g ∧ wkt g = w ∧
                     ∀ j g', (idx < j)%nat → parcel_geoms ix !! j = Some g' →
                             wkt g' ≠ w) _ _ _ _ _ H).
  - intros w idx. unfold empty_index; simpl. rewrite lookup_empty. split; [done|].
    intros (g & Hg & _). by rewrite lookup_nil in Hg.
  - clear. intros s [pos f] s' seen Hinv Hstep. simpl in Hstep.
    destruct (f_geometry f) as [gd|]; [|by inversion Hstep; subst].
    destruct (shape gd) as [geom|]; [|done].
    inversion Hstep; subst; clear Hstep. simpl.
    intros w idx. rewrite length_app. simpl.
    replace (length (parcel_geoms s) + 1 - 1)%nat with (length (parcel_geoms s)) by lia.
    destruct (decide (wkt geom = w)) as [<-|Hne].
    + rewrite lookup_insert_eq. split.
      * intros [= <-]. exists geom. split; [by apply list_lookup_middle|].
        split; [done|]. intros j g' Hj Hg'.
        apply lookup_lt_Some in Hg'. rewrite length_app in Hg'. simpl in Hg'. lia.
      * intros (g & Hg & Hw & Hlast). f_equal.
        pose proof (lookup_lt_Some _ _ _ Hg) as Hlt.
        rewrite length_app in Hlt. simpl in Hlt.
        destruct (decide (idx = length (parcel_geoms s))) as [->|Hneq]; [done|].
        exfalso. apply (Hlast (length (parcel_geoms s)) geom); [lia| |done].
        by apply list_lookup_middle.
    + rewrite lookup_insert_ne by done. rewrite Hinv. split.
      * intros (g & Hg & Hw & Hlast). exists g.
        split; [by apply lookup_app_l_Some|]. split; [done|].
        intros j g' Hj Hg'.
        destruct (decide (j < length (parcel_geoms s))%nat).
        -- rewrite lookup_app_l in Hg' by done. by eapply Hlast.
        -- rewrite lookup_app_r in Hg' by lia.
           destruct (j - length (parcel_geoms s))%nat; simpl in Hg'; [|done].
           congruence.
      * intros (g & Hg & Hw & Hlast).
        destruct (decide (idx < length (parcel_geoms s))%nat).
        -- rewrite lookup_app_l in Hg by done. exists g.
           split; [done|]. split; [done|].
           intros j g' Hj Hg'. apply (Hlast j g' Hj). by apply lookup_app_l_Some.
        -- rewrite lookup_app_r in Hg by lia.
           destruct (idx - length (parcel_geoms s))%nat; simpl in Hg; [|done].
           congruence.
Qed.


Lemma append_address_keys (idx : nat) (a : feature) (m : list (nat * list feature)) :
  (∀ j, j ∈ (append_address idx a m).*1 ↔ j = idx ∨ j ∈ m.*1) ∧
  (NoDup m.*1 → NoDup (append_address idx a m).*1).
Proof.
  induction m as [|[j' l'] m [IHin IHnd]]; simpl.
  - split.
    + intros j. rewrite list_elem_of_singleton, elem_of_nil. tauto.
    + intros _. apply NoDup_singleton.
  - destruct (decide (j' = idx)) as [->|Hne]; simpl.
    + split; [intros j; rewrite !elem_of_cons; tauto|done].
    + split; [intros j; rewrite !elem_of_cons, IHin; tauto|].
      intros Hnd. apply NoDup_cons in Hnd as [Hnotin Hnd].
      apply NoDup_cons. split; [|auto].
      rewrite IHin. intros [?|?]; done.
Qed.

(** What the matching loop keeps true of [parcel_to_addresses]: one entry
    per index, every index in range, every list non-empty and made of
    addresses of the input. *)
Lemma address_loop_entries (features : list feature) (ix : parcel_index Shape)
    (addresses : list feature) (ms : match_state) :
  index_ok features ix →
  for_each (address_step shape wkt contains intersects query ix)
           {| parcel_to_addresses := []; unmatched_addresses := [] |}
           addresses = Ok ms →
  NoDup (parcel_to_addresses ms).*1 ∧
  ∀ idx l, (idx, l) ∈ parcel_to_addresses ms →
    (idx < length (parcel_features ix))%nat ∧ l ≠ [] ∧
    ∀ a, a ∈ l → a ∈ addresses.
Proof.
  intros Hok H.
  refine (for_each_invariant _
            (λ (ms : match_state) seen,
               NoDup (parcel_to_addresses ms).*1 ∧
               ∀ idx l, (idx, l) ∈ parcel_to_addresses ms →
                 (idx < length (parcel_features ix))%nat ∧ l ≠ [] ∧
                 ∀ a, a ∈ l → a ∈ seen) _ _ _ _ _ H).
  - simpl. split; [apply NoDup_nil_2|]. intros idx l Hin. by apply elem_of_nil in Hin.
  - intros s a s' seen [Hnd Hs] Hstep. unfold address_step in Hstep.
    destruct (f_geometry a) as [g|]; [|done].
    destruct (shape g) as [sg|]; [|done].
    destruct (match_candidates_in_range wkt contains intersects _ ix sg
                (query (parcel_geoms ix) sg) Hok) as (r & Hr & Hrange).
    rewrite Hr in Hstep. simpl in Hstep.
    destruct r as [[idx c]|]; inversion Hstep; subst; clear Hstep; simpl.
    + split; [by apply append_address_keys|].
      intros j l Hin. apply elem_of_append_address in Hin
        as [Hin|(-> & l0 & -> & Hl0)].
      * destruct (Hs j l Hin) as (? & ? & Hl). split; [done|]. split; [done|].
        intros a' Ha'. apply elem_of_app. left. by apply Hl.
      * split; [by eapply Hrange|]. split; [by destruct l0|].
        intros a' Ha'. apply elem_of_app in Ha' as [Ha'|Ha'].
        -- destruct Hl0 as [->|Hl0]; [by apply elem_of_nil in Ha'|].
           apply elem_of_app. left. by apply (Hs idx l0).
        -- apply elem_of_app. by right.
    + split; [done|]. intros j l Hin.
      destruct (Hs j l Hin) as (? & ? & Hl). split; [done|]. split; [done|].
      intros a' Ha'. apply elem_of_app. left. by apply Hl.
Qed.

(** What [write_properties] does to the shared parcel feature, as seen
    from outside. *)
Lemma write_properties_spec (addr_props : props) (f f' : feature) :
  write_properties addr_props f = Ok f' →
  f_id f' = f_id f ∧ f_geometry f' = f_geometry f ∧
  properties_or_empty f'
    = copy_items key_and_value addr_props (properties_or_empty f).
Proof.
  unfold write_properties, properties_or_empty.
  destruct (f_properties f) as [p|] eqn:Hp.
  - by intros [= <-].
  - case_bool_decide as Hempty; [|done]. intros [= <-].
    split; [done|]. split; [done|]. rewrite Hp. simpl.
    apply map_eq. intros k. rewrite lookup_copy_items, lookup_empty.
    destruct (addr_props !! k) as [v|] eqn:Hv; [|done].
    destruct (key_and_value k v) eqn:Hkeep; [|done].
    assert (filter (λ kv : string * value, key_and_value kv.1 kv.2 = true)
                   addr_props !! k = Some v) as Hf.
    { by apply map_lookup_filter_Some. }
    rewrite Hempty in Hf. by rewrite lookup_empty in Hf.
Qed.

(** The application loop writes each matched parcel once, from its first
    address, and touches nothing else. *)
Lemma apply_loop_per_parcel (features : list feature) (ix : parcel_index Shape)
    (pid_field aid_field : string) (entries : list (nat * list feature))
    (st : apply_state) :
  NoDup (parcel_features ix) →
  NoDup entries.*1 →
  for_each (apply_step ix pid_field aid_field)
           {| features_now := features; matched_so_far := 0%nat; reported := [] |}
           entries = Ok st →
  (∀ pos, (∀ idx l, (idx, l) ∈ entries → parcel_features ix !! idx ≠ Some pos) →
          features_now st !! pos = features !! pos) ∧
  (∀ idx l pos, (idx, l) ∈ entries → parcel_features ix !! idx = Some pos →
     ∃ f0 a0 ap f',
       features !! pos = Some f0 ∧ l !! 0%nat = Some a0 ∧
       f_properties a0 = Some ap ∧ write_properties ap f0 = Ok f' ∧
       features_now st !! pos = Some f') ∧
  length (reported st) = length (filter (λ e, 1 < length e.2)%nat entries).
Proof.
  intros Hpf Hnd H.
  refine (for_each_invariant_split _
            (λ (st : apply_state) seen,
               (∀ pos, (∀ idx l, (idx, l) ∈ seen →
                                 parcel_features ix !! idx ≠ Some pos) →
                       features_now st !! pos = features !! pos) ∧
               (∀ idx l pos, (idx, l) ∈ seen →
                  parcel_features ix !! idx = Some pos →
                  ∃ f0 a0 ap f',
                    features !! pos = Some f0 ∧ l !! 0%nat = Some a0 ∧
                    f_properties a0 = Some ap ∧ write_properties ap f0 = Ok f' ∧
                    features_now st !! pos = Some f') ∧
               length (reported st)
                 = length (filter (λ e, 1 < length e.2)%nat seen))
            _ _ _ _ _ H).
  - simpl. split; [done|]. split; [|done].
    intros idx l pos Hin. by apply elem_of_nil in Hin.
  - intros s [idx l] s' seen rest Hsplit (Ha & Hb & Hc) Hstep.
    assert (idx ∉ seen.*1) as Hfresh.
    { rewrite Hsplit, fmap_app in Hnd. apply NoDup_app in Hnd as (_ & Hdisj & _).
      intros Hin. apply (Hdisj idx Hin). simpl. by left. }
    unfold apply_step, mbind, result_bind in Hstep.
    unfold index at 1 in Hstep.
    destruct (parcel_features ix !! idx) as [pos|] eqn:Hpos; [|done].
    unfold index at 1 in Hstep.
    destruct (features_now s !! pos) as [pf|] eqn:Hpfeat; [|done].
    match type of Hstep with
    | match ?r with _ => _ end = _ => destruct r as [report|] eqn:Hrep; [|done]
    end.
    unfold index in Hstep.
    destruct (l !! 0%nat) as [first|] eqn:Hfirst; [|done].
    unfold properties_of at 1 in Hstep.
    destruct (f_properties first) as [ap|] eqn:Hap; [|done].
    destruct (write_properties ap pf) as [pf'|] eqn:Hw; [|done].
    inversion Hstep; subst s'; clear Hstep. simpl.
    assert (features_now s !! pos = features !! pos) as Horig.
    { apply Ha. intros idx1 l1 Hin1 Hp1.
      assert (idx1 = idx) as -> by exact (NoDup_lookup _ _ _ _ Hpf Hp1 Hpos).
      apply Hfresh. apply list_elem_of_fmap. by exists (idx, l1). }
    split; [|split].
    + intros pos' Hnone.
      assert (pos ≠ pos') as Hne.
      { intros ->. apply (Hnone idx l); [|done]. apply elem_of_app. right. by left. }
      rewrite list_lookup_insert_ne by done. apply Ha.
      intros idx1 l1 Hin1. apply (Hnone idx1 l1). apply elem_of_app. by left.
    + intros idx1 l1 pos1 Hin1 Hp1. apply elem_of_app in Hin1 as [Hin1|Hin1].
      * assert (pos ≠ pos1) as Hne.
        { intros ->. assert (idx1 = idx) as -> by exact (NoDup_lookup _ _ _ _ Hpf Hp1 Hpos).
          apply Hfresh. apply list_elem_of_fmap. by exists (idx, l1). }
        rewrite list_lookup_insert_ne by done. by apply (Hb idx1 l1).
      * apply list_elem_of_singleton in Hin1 as [= -> ->].
        assert (pos1 = pos) as -> by congruence.
        exists pf, first, ap, pf'. rewrite <-Horig.
        split; [done|]. split; [done|]. split; [done|]. split; [done|].
        apply list_lookup_insert_eq. by eapply lookup_lt_Some.
    + rewrite filter_app, !length_app, Hc. f_equal.
      rewrite filter_cons, filter_nil. simpl.
      destruct (decide (1 < length l)%nat).
      * destruct (properties_of pf); [|done]. simpl in Hrep.
        destruct (for_collect _ l); [|done]. by inversion Hrep.
      * by inversion Hrep.
Qed.

(** The per-parcel account of a completed join. *)
Lemma spatial_join_per_parcel (parcel_data address_data : feature_collection)
    (pid_field aid_field : string) (out : feature_collection)
    (stats : join_summary) (pos : nat) (f : feature) :
  spatial_join shape wkt contains intersects query
               parcel_data address_data pid_field aid_field = Ok (out, stats) →
  fc_features parcel_data !! pos = Some f →
  fc_features out !! pos = Some f ∨
  (is_Some (f_geometry f) ∧
   ∃ a ap f', a ∈ fc_features address_data ∧ f_properties a = Some ap ∧
              write_properties ap f = Ok f' ∧ fc_features out !! pos = Some f').
Proof.
  intros H Hf.
  apply spatial_join_Ok in H as (ix & ms & st & Hix & Hms & Hst & -> & _). simpl.
  pose proof (build_index_ok _ _ _ _ Hix) as Hok.
  pose proof (build_index_NoDup _ _ Hix) as Hpf.
  destruct (address_loop_entries _ _ _ _ Hok Hms) as [Hnd Hentries].
  destruct (apply_loop_per_parcel _ _ _ _ _ _ Hpf Hnd Hst) as (Ha & Hb & _).
  destruct (decide (Exists (λ e, parcel_features ix !! e.1 = Some pos)
                           (parcel_to_addresses ms))) as [Hex|Hnex].
  - right. apply Exists_exists in Hex as ([idx l] & Hin & Hpos). simpl in Hpos.
    destruct (Hb idx l pos Hin Hpos) as (f0 & a0 & ap & f' & Hf0 & Ha0 & Hap & Hw & Hnow).
    assert (f0 = f) as -> by congruence.
    destruct Hok as (_ & _ & Hgeo).
    destruct (Hgeo idx pos Hpos) as (f1 & Hf1 & Hg).
    assert (f1 = f) as -> by congruence.
    split; [done|]. exists a0, ap, f'. split; [|done].
    destruct (Hentries idx l Hin) as (_ & _ & Hl). apply Hl.
    by eapply list_elem_of_lookup_2.
  - left. rewrite Ha; [done|]. intros idx l Hin Hpos. apply Hnex.
    apply Exists_exists. by exists (idx, l).
Qed.

(** X1.  After a completed spatial join a parcel comes out either as it
    went in, or with its id and geometry kept and the non-empty attributes
    of exactly one address record of the input copied over its own; it
    never carries attributes of two address records. *)
Theorem spatial_join_one_address_per_parcel
    (parcel_data address_data : feature_collection)
    (pid_field aid_field : string) (out : feature_collection)
    (stats : join_summary) (pos : nat) (f : feature) :
  spatial_join shape wkt contains intersects query
               parcel_data address_data pid_field aid_field = Ok (out, stats) →
  fc_features parcel_data !! pos = Some f →
  fc_features out !! pos = Some f ∨
  ∃ a ap f', a ∈ fc_features address_data ∧ f_properties a = Some ap ∧
             fc_features out !! pos = Some f' ∧
             f_id f' = f_id f ∧ f_geometry f' = f_geometry f ∧
             properties_or_empty f'
               = copy_items key_and_value ap (properties_or_empty f).
Proof.
  intros H Hf.
  destruct (spatial_join_per_parcel _ _ _ _ _ _ _ _ H Hf)
    as [?|(_ & a & ap & f' & Ha & Hap & Hw & Hout)]; [by left|].
  right. exists a, ap, f'. apply write_properties_spec in Hw as (? & ? & ?).
  done.
Qed.

(** X2.  A parcel without geometry is never indexed: a completed spatial
    join returns it exactly as it came in, at the same position. *)
Theorem spatial_join_skips_parcels_without_geometry
    (parcel_data address_data : feature_collection)
    (pid_field aid_field : string) (out : feature_collection)
    (stats : join_summary) (pos : nat) (f : feature) :
  spatial_join shape wkt contains intersects query
               parcel_data address_data pid_field aid_field = Ok (out, stats) →
  fc_features parcel_data !! pos = Some f →
  f_geometry f = None →
  fc_features out !! pos = Some f.
Proof.
  intros H Hf Hg.
  destruct (spatial_join_per_parcel _ _ _ _ _ _ _ _ H Hf) as [?|([g Hg'] & _)];
    [done|congruence].
Qed.

Lemma recorded_lower_bound (entries : list (nat * list feature)) :
  (∀ idx l, (idx, l) ∈ entries → l ≠ []) →
  (length entries + length (filter (λ e, 1 < length e.2)%nat entries)
   ≤ recorded entries)%nat.
Proof.
  induction entries as [|[idx l] entries IH]; intros Hne; [done|].
  rewrite filter_cons. unfold recorded in *. simpl.
  assert (l ≠ []) as Hl by (apply (Hne idx); by left).
  assert (0 < length l)%nat by (destruct l; [done|simpl; lia]).
  specialize (IH (λ i l' Hin, Hne i l' (list_elem_of_further _ _ _ Hin))).
  destruct (decide (1 < length l)%nat); simpl; lia.
Qed.

Lemma bounded_NoDup_length (l : list nat) (n : nat) :
  NoDup l → (∀ x, x ∈ l → (x < n)%nat) → (length l ≤ n)%nat.
Proof.
  intros Hnd Hlt.
  trans (length (seq 0 n)); [|by rewrite length_seq].
  apply submseteq_length, NoDup_submseteq; [done|].
  intros x Hx. apply elem_of_seq. specialize (Hlt x Hx). lia.
Qed.

(** X3.  The printed summary of a completed spatial join is consistent:
    parcels with an address plus multiple-match reports do not exceed the
    matched addresses; there are no more reports than parcels with an
    address, no more parcels with an address than parcels, and no more
    matched addresses than address records. *)
Theorem spatial_join_summary_bounds
    (parcel_data address_data : feature_collection)
    (pid_field aid_field : string) (out : feature_collection)
    (stats : join_summary) :
  spatial_join shape wkt contains intersects query
               parcel_data address_data pid_field aid_field = Ok (out, stats) →
  (parcels_with_address stats + length (multiple_matches stats)
   ≤ total_matched_addresses stats)%nat ∧
  (length (multiple_matches stats) ≤ parcels_with_address stats)%nat ∧
  (parcels_with_address stats ≤ length (fc_features parcel_data))%nat ∧
  (total_matched_addresses stats ≤ length (fc_features address_data))%nat.
Proof.
  intros H.
  apply spatial_join_Ok in H as (ix & ms & st & Hix & Hms & Hst & _ & ->). simpl.
  pose proof (build_index_ok _ _ _ _ Hix) as Hok.
  pose proof (build_index_NoDup _ _ Hix) as Hpf.
  destruct (address_loop_entries _ _ _ _ Hok Hms) as [Hnd Hentries].
  destruct (apply_loop_per_parcel _ _ _ _ _ _ Hpf Hnd Hst) as (_ & _ & Hrep).
  pose proof (apply_loop_invariant _ _ _ _ _ _ Hst) as [Hm _].
  pose proof (address_loop_counts _ _ _ _ _ _ _ _ Hms) as Hcount.
  pose proof (recorded_lower_bound (parcel_to_addresses ms)
                (λ idx l Hin, proj1 (proj2 (Hentries idx l Hin)))) as Hlow.
  rewrite Hrep, Hm.
  split; [lia|]. split; [apply length_filter|]. split; [|lia].
  rewrite <-(length_fmap fst (parcel_to_addresses ms)).
  etrans; [apply (bounded_NoDup_length _ (length (parcel_features ix)) Hnd)|].
  - intros idx Hidx. apply list_elem_of_fmap in Hidx as ([i l] & -> & Hin).
    by apply (Hentries i l).
  - apply bounded_NoDup_length; [done|].
    intros p Hp. apply list_elem_of_lookup in Hp as [idx Hidx].
    destruct Hok as (_ & _ & Hgeo). destruct (Hgeo idx p Hidx) as (f & Hf & _).
    by eapply lookup_lt_Some.
Qed.

(** X4.  When the summary of a completed spatial join reports no matched
    address, the parcel data is returned unchanged, no parcel counts as
    having an address and every address record counts as unmatched. *)
Theorem spatial_join_no_match_no_change
    (parcel_data address_data : feature_collection)
    (pid_field aid_field : string) (out : feature_collection)
    (stats : join_summary) :
  spatial_join shape wkt contains intersects query
               parcel_data address_data pid_field aid_field = Ok (out, stats) →
  total_matched_addresses stats = 0%nat →
  out = parcel_data ∧ parcels_with_address stats = 0%nat ∧
  unmatched_count stats = length (fc_features address_data).
Proof.
  intros H Hzero.
  apply spatial_join_Ok in H as (ix & ms & st & Hix & Hms & Hst & -> & ->).
  simpl in *.
  pose proof (build_index_ok _ _ _ _ Hix) as Hok.
  destruct (address_loop_entries _ _ _ _ Hok Hms) as [_ Hentries].
  pose proof (address_loop_counts _ _ _ _ _ _ _ _ Hms) as Hcount.
  pose proof (apply_loop_invariant _ _ _ _ _ _ Hst) as [Hm _].
  pose proof (recorded_lower_bound (parcel_to_addresses ms)
                (λ idx l Hin, proj1 (proj2 (Hentries idx l Hin)))) as Hlow.
  assert (parcel_to_addresses ms = []) as Hnil.
  { rewrite Hm in Hzero.
    destruct (parcel_to_addresses ms); [done|simpl in Hlow, Hzero; lia]. }
  rewrite Hnil in *. simpl in Hst. inversion Hst; subst st. simpl.
  split; [by destruct parcel_data|]. split; [done|].
  unfold recorded in Hcount. simpl in Hcount. lia.
Qed.
End SpatialJoinMore.
(** ** Duplicate keys in the key-based joins: the last record wins *)

Lemma secondary_lookup_last (field : string) (pre post : list feature)
    (s : feature) :
  truthy (get (properties_or_empty s) field) = true →
  (∀ s', s' ∈ post → truthy (get (properties_or_empty s') field) = true →
         hkey (get (properties_or_empty s') field)
           ≠ hkey (get (properties_or_empty s) field)) →
  secondary_lookup field (pre ++ s :: post)
    !! hkey (get (properties_or_empty s) field)
    = Some (properties_or_empty s).
Proof.
  intros Ht. unfold secondary_lookup.
  induction post as [|s' post IH] using rev_ind; intros Hpost.
  - rewrite foldl_app. simpl. rewrite Ht. apply lookup_insert_eq.
  - rewrite app_comm_cons, app_assoc, foldl_app. simpl.
    assert (∀ s'', s'' ∈ post →
              truthy (get (properties_or_empty s'') field) = true →
              hkey (get (properties_or_empty s'') field)
                ≠ hkey (get (properties_or_empty s) field)) as Hpost'.
    { intros s'' Hin. apply Hpost. apply elem_of_app. by left. }
    specialize (IH Hpost').
    destruct (truthy (get (properties_or_empty s') field)) eqn:Ht'.
    + rewrite lookup_insert_ne; [done|].
      apply Hpost; [apply elem_of_app; right; by left|done].
    + done.
Qed.

(** X5.  Exact-attribute join with duplicate secondary keys: a primary
    record is merged with the last secondary record carrying its key
    value, and with that record only. *)
Theorem merge_by_id_last_record_wins (primary secondary : feature_collection)
    (pf sf : string) (i : nat) (f s : feature) (pre post : list feature) :
  fc_features primary !! i = Some f →
  fc_features secondary = pre ++ s :: post →
  truthy (get (properties_or_empty f) pf) = true →
  truthy (get (properties_or_empty s) sf) = true →
  py_eq (get (properties_or_empty s) sf) (get (properties_or_empty f) pf) →
  (∀ s', s' ∈ post → truthy (get (properties_or_empty s') sf) = true →
         ¬ py_eq (get (properties_or_empty s') sf) (get (properties_or_empty f) pf)) →
  ∃ f', fc_features (merge_by_id primary secondary pf sf) !! i = Some f' ∧
        f_properties f'
          = Some (copy_items key_and_value (properties_or_empty s)
                             (properties_or_empty f)).
Proof.
  intros Hf Hsec Htp Hts Heq Hpost.
  eexists. split; [rewrite merge_by_id_lookup, Hf; reflexivity|].
  simpl. rewrite Htp, Hsec. unfold py_eq in *. rewrite <-Heq.
  rewrite secondary_lookup_last; [done|done|].
  intros s' Hs' Ht'. rewrite Heq. by apply Hpost.
Qed.

Lemma scraped_lookup_last (field : string) (pre post : list props) (item : props) :
  truthy (get item field) = true →
  (∀ item', item' ∈ post → truthy (get item' field) = true →
            hkey (get item' field) ≠ hkey (get item field)) →
  scraped_lookup field (pre ++ item :: post) !! hkey (get item field) = Some item.
Proof.
  intros Ht. unfold scraped_lookup.
  induction post as [|item' post IH] using rev_ind; intros Hpost.
  - rewrite foldl_app. simpl. rewrite Ht. apply lookup_insert_eq.
  - rewrite app_comm_cons, app_assoc, foldl_app. simpl.
    assert (∀ x, x ∈ post → truthy (get x field) = true →
                 hkey (get x field) ≠ hkey (get item field)) as Hpost'.
    { intros x Hin. apply Hpost. apply elem_of_app. by left. }
    specialize (IH Hpost').
    destruct (truthy (get item' field)) eqn:Ht'.
    + rewrite lookup_insert_ne; [done|].
      apply Hpost; [apply elem_of_app; right; by left|done].
    + done.
Qed.

(** X6.  Scraped-data merge with duplicate merge values: a parcel is merged
    with the last scraped item carrying its merge value. *)
Theorem merge_scraped_data_last_item_wins (parcel_data : feature_collection)
    (scraped_data : list props) (merge_field : string) (i : nat) (f : feature)
    (item : props) (pre post : list props) :
  fc_features parcel_data !! i = Some f →
  scraped_data = pre ++ item :: post →
  truthy (get (properties_or_empty f) merge_field) = true →
  truthy (get item merge_field) = true →
  py_eq (get item merge_field) (get (properties_or_empty f) merge_field) →
  (∀ item', item' ∈ post → truthy (get item' merge_field) = true →
            ¬ py_eq (get item' merge_field) (get (properties_or_empty f) merge_field)) →
  ∃ f', fc_features (merge_scraped_data parcel_data scraped_data merge_field) !! i
          = Some f' ∧
        f_properties f'
          = Some (copy_items (scraped_keep merge_field) item (properties_or_empty f)).
Proof.
  intros Hf Hsc Htp Hts Heq Hpost.
  eexists. split; [rewrite merge_scraped_data_lookup, Hf; reflexivity|].
  simpl. rewrite Htp, Hsc. unfold py_eq in *. rewrite <-Heq.
  rewrite scraped_lookup_last; [done|done|].
  intros s' Hs' Ht'. rewrite Heq. by apply Hpost.
Qed.

(** ** The cross-encoding join, record by record *)

Lemma join_lookup_spec (ak : string) (addresses : list jrecord)
    (lk : gmap value props) :
  for_each (join_lookup_step ak) ∅ addresses = Ok lk →
  (∀ κ, (∀ a key, a ∈ addresses → attributes a !! ak = Some key → hkey key ≠ κ) →
        lk !! κ = None) ∧
  (∀ pre a post key,
     addresses = pre ++ a :: post → attributes a !! ak = Some key →
     (∀ a' key', a' ∈ post → attributes a' !! ak = Some key' →
                 hkey key' ≠ hkey key) →
     lk !! hkey key = Some (attributes a)).
Proof.
  intros H.
  refine (for_each_invariant _
            (λ (lk : gmap value props) seen,
               (∀ κ, (∀ a key, a ∈ seen → attributes a !! ak = Some key →
                               hkey key ≠ κ) → lk !! κ = None) ∧
               (∀ pre a post key,
                  seen = pre ++ a :: post → attributes a !! ak = Some key →
                  (∀ a' key', a' ∈ post → attributes a' !! ak = Some key' →
                              hkey key' ≠ hkey key) →
                  lk !! hkey key = Some (attributes a))) _ _ _ _ _ H).
  - split; [intros; apply lookup_empty|].
    intros pre a post key Hnil. by destruct pre.
  - clear. intros lk r lk' seen [Hnone Hlast] Hstep.
    unfold join_lookup_step, mbind, result_bind in Hstep.
    destruct (record_props r) as [p|] eqn:Hp; [|done].
    assert (p = attributes r) as ->.
    { destruct r as [fid g q|q]; simpl in *; [congruence|].
      destruct (q !! "properties"); congruence. }
    unfold getitem in Hstep.
    destruct (attributes r !! ak) as [key|] eqn:Hk; [|done].
    inversion Hstep; subst lk'; clear Hstep. split.
    + intros κ Hκ. rewrite lookup_insert_ne.
      * apply Hnone. intros a k' Ha. apply Hκ. apply elem_of_app. by left.
      * apply (Hκ r key); [apply elem_of_app; right; by left|done].
    + intros pre a post k' Hsplit Hk' Hpost.
      destruct post as [|b post _] using rev_ind.
      * apply app_inj_tail in Hsplit as [-> ->].
        rewrite Hk in Hk'. inversion Hk'; subst. apply lookup_insert_eq.
      * rewrite app_comm_cons, app_assoc in Hsplit.
        apply app_inj_tail in Hsplit as [-> <-].
        rewrite lookup_insert_ne.
        -- apply (Hlast pre a post k'); [done|done|].
           intros a' key' Ha'. apply Hpost. apply elem_of_app. by left.
        -- apply (Hpost r key); [apply elem_of_app; right; by left|done].
Qed.

(** X7.  A completed cross-encoding join returns one record per parcel
    record, in order, each in the encoding it came in, with its id and
    geometry (a bare record of the output holds no attribute named
    "properties"); a parcel whose key value no address record carries
    comes out unchanged; a parcel whose key value is carried by address
    records is merged with the last of them, every attribute except the
    address key being copied, empty values included. *)
Theorem join_address_to_parcel_records (parcels addresses : list jrecord)
    (pk ak : string) (out : list jrecord) :
  join_address_to_parcel parcels addresses pk ak = Ok out →
  length out = length parcels ∧
  ∀ i r, parcels !! i = Some r →
    ∃ r' key,
      out !! i = Some r' ∧ attributes r !! pk = Some key ∧
      with_props r (attributes r') = Updated r' ∧
      ((∀ a key', a ∈ addresses → attributes a !! ak = Some key' →
                  ¬ py_eq key' key) → r' = r) ∧
      (∀ pre a post key',
         addresses = pre ++ a :: post → attributes a !! ak = Some key' →
         py_eq key' key →
         (∀ a' key'', a' ∈ post → attributes a' !! ak = Some key'' →
                      ¬ py_eq key'' key) →
         attributes r'
           = copy_items (not_address_key ak) (attributes a) (attributes r)).
Proof.
  intros H.
  destruct (for_each (join_lookup_step ak) ∅ addresses) as [lk|] eqn:Hlk;
    [|unfold join_address_to_parcel in H; by rewrite Hlk in H].
  destruct (join_lookup_spec _ _ _ Hlk) as [Hnone Hlast].
  destruct (join_address_to_parcel_lookup parcels addresses pk ak lk out Hlk H)
    as [Hlen Hout].
  split; [done|].
  intros i r Hr. destruct (Hout i r Hr) as (r' & Hr' & Hbody).
  pose proof Hbody as Hshape.
  apply join_record_attributes in Hbody as (key & Hkey & Hattr).
  exists r', key. split; [done|]. split; [done|].
  assert (with_props r (attributes r') = Updated r') as Hw.
  { unfold join_record, mbind, result_bind in Hshape.
    destruct (record_props r); [|done]. destruct (getitem _ _); [|done].
    inversion Hshape as [Hs]. clear Hshape Hattr.
    destruct r as [fid g q|q]; simpl in Hs |- *.
    - by inversion Hs.
    - destruct (_ !! "properties") eqn:Hq in Hs; inversion Hs; subst r'.
      simpl. by rewrite Hq. }
  split; [done|]. split.
  - intros Habs. rewrite Hnone in Hattr.
    + rewrite Hattr in Hw. destruct r as [fid g q|q]; simpl in Hw.
      * by inversion Hw.
      * destruct (q !! "properties"); by inversion Hw.
    + intros a key' Ha Hk'. by apply (Habs a key').
  - intros pre a post key' Hsplit Hk' Heq Hpost. unfold py_eq in *.
    rewrite <-Heq, (Hlast pre a post key' Hsplit Hk') in Hattr; [done|].
    intros a' key'' Ha' Hk''. rewrite Heq. by apply (Hpost a' key'').
Qed.

Lemma json_dump_self_containing (records : list updated_record) (p : props) :
  SelfContaining p ∈ records → json_dump records = Err ValueError.
Proof.
  unfold json_dump. induction records as [|u records IH]; intros Hin.
  - by apply elem_of_nil in Hin.
  - simpl. unfold mbind, result_bind. destruct u as [r|q]; [|done].
    apply elem_of_cons in Hin as [?|Hin]; [done|]. by rewrite IH.
Qed.

(** X17.  A bare parcel record matched by an address record that holds an
    attribute named "properties" (the address key having another name) ends
    up containing itself: when no record lacks its key, the join raises
    [ValueError] on writing out instead of returning records. *)
Theorem join_address_to_parcel_self_reference (parcels addresses : list jrecord)
    (pk ak : string) (p : props) (key : value)
    (pre post : list jrecord) (a : jrecord) (key' v : value) :
  Forall well_formed_record (addresses ++ parcels) →
  (∀ r, r ∈ addresses → is_Some (attributes r !! ak)) →
  (∀ r, r ∈ parcels → is_Some (attributes r !! pk)) →
  JBare p ∈ parcels → p !! pk = Some key →
  addresses = pre ++ a :: post → attributes a !! ak = Some key' →
  py_eq key' key →
  (∀ a' key'', a' ∈ post → attributes a' !! ak = Some key'' → ¬ py_eq key'' key) →
  attributes a !! "properties" = Some v → ak ≠ "properties" →
  join_address_to_parcel parcels addresses pk ak = Err ValueError.
Proof.
  intros Hwf Hak Hpk Hin Hkey Hsplit Hk' Heq Hpost Hv Hne.
  apply Forall_app in Hwf as [Hwa Hwp].
  destruct (join_lookup_total ak addresses ∅ Hwa Hak) as [lk Hlk].
  destruct (join_lookup_spec _ _ _ Hlk) as [_ Hlast].
  unfold join_address_to_parcel. rewrite Hlk. simpl.
  destruct (for_collect_total (join_record lk pk ak) parcels) as [us Hus].
  { intros r Hr. rewrite join_record_wf by (by eapply Forall_forall).
    destruct (Hpk r Hr) as [k ->]. by eexists. }
  unfold mbind, result_bind. rewrite Hus.
  apply (json_dump_self_containing _
           (copy_items (not_address_key ak) (attributes a) p)).
  apply list_elem_of_lookup in Hin as [i Hi].
  apply for_collect_lookup in Hus as [_ Hus].
  destruct (Hus i _ Hi) as (u & Hu & Hbody).
  apply list_elem_of_lookup. exists i. rewrite Hu. f_equal.
  rewrite join_record_wf in Hbody
    by (eapply Forall_forall; [exact Hwp|by eapply list_elem_of_lookup_2]).
  simpl in Hbody. rewrite Hkey in Hbody.
  unfold py_eq in Heq. rewrite <-Heq in Hbody.
  rewrite (Hlast pre a post key' Hsplit Hk') in Hbody.
  - inversion Hbody as [Hu']. clear Hbody. simpl.
    assert (copy_items (not_address_key ak) (attributes a) p !! "properties"
            = Some v) as ->; [|done].
    rewrite lookup_copy_items, Hv.
    by rewrite (proj2 (not_address_key_true ak "properties" v)).
  - intros a' key'' Ha' Hk''. rewrite Heq. by apply (Hpost a' key'').
Qed.
(** ** Structured text *)

Section StripMore.
Variable P : ascii → bool.

Lemma lstrip_by_idem (s : string) : lstrip_by P (lstrip_by P s) = lstrip_by P s.
Proof.
  induction s as [|c s IH]; [done|]. cbn [lstrip_by].
  destruct (P c) eqn:Hc; [done|]. cbn [lstrip_by]. by rewrite Hc.
Qed.

Lemma rstrip_by_idem (s : string) : rstrip_by P (rstrip_by P s) = rstrip_by P s.
Proof.
  induction s as [|c s IH]; [done|]. cbn [rstrip_by].
  destruct (rstrip_by P s) as [|d r] eqn:Hr.
  - destruct (P c) eqn:Hc; [done|]. cbn [rstrip_by]. by rewrite Hc.
  - cbn [rstrip_by] in *. by rewrite IH.
Qed.

Lemma strip_by_idem (s : string) : strip_by P (strip_by P s) = strip_by P s.
Proof.
  unfold strip_by.
  rewrite <-(rstrip_lstrip_comm P (lstrip_by P s)), lstrip_by_idem.
  apply rstrip_by_idem.
Qed.
End StripMore.

Lemma is_upper_lower_char (c : ascii) : is_upper (lower_char c) = false.
Proof. by destruct c as [[] [] [] [] [] [] [] []]. Qed.

Lemma normalised_sub_spaces (b : bool) (s : string) :
  all_chars (λ c, negb (is_upper c)) s = true →
  normalised_label (sub_spaces b s) = true.
Proof.
  unfold normalised_label. revert b.
  induction s as [|c s IH]; intros b Hs; [done|].
  cbn [all_chars] in Hs. apply andb_true_iff in Hs as [Hc Hs].
  cbn [sub_spaces]. destruct (py_isspace c) eqn:Hsp.
  - destruct b; [by apply IH|]. cbn [all_chars]. by rewrite IH.
  - cbn [all_chars]. by rewrite Hsp, Hc, IH.
Qed.

Lemma py_lower_no_upper (s : string) :
  all_chars (λ c, negb (is_upper c)) (py_lower s) = true.
Proof.
  induction s as [|c s IH]; [done|].
  cbn [py_lower all_chars]. by rewrite is_upper_lower_char, IH.
Qed.

Section StructuredTextProofs.
Variable table_rows : string → list (list string).

(** X8.  Every entry the extractor returns comes from a row of exactly two
    cells: its label is the first cell stripped, lower-cased and with each
    run of whitespace replaced by one underscore, so it holds no
    whitespace and no upper-case letter; its value is the second cell
    stripped, so stripping it again changes nothing. *)
Theorem extracted_entries_are_normalised (html k v : string) :
  _extract_properties_from_description table_rows html !! k = Some v →
  ∃ c0 c1, [c0; c1] ∈ table_rows html ∧
           k = sub_spaces false (py_lower (py_strip c0)) ∧ v = py_strip c1 ∧
           normalised_label k = true ∧ py_strip v = v.
Proof.
  unfold _extract_properties_from_description.
  induction (table_rows html) as [|cells rows IH] using rev_ind.
  - simpl. by rewrite lookup_empty.
  - rewrite foldl_app. simpl.
    assert (∀ x, (∃ c0 c1, [c0; c1] ∈ rows ∧ x) →
                 ∃ c0 c1, [c0; c1] ∈ rows ++ [cells] ∧ x) as Hweak.
    { intros x (c0 & c1 & Hin & Hx). exists c0, c1.
      split; [apply elem_of_app; by left|done]. }
    destruct cells as [|c0 [|c1 [|c2 cells]]];
      try (intros H; destruct (IH H) as (a0 & a1 & Hin & Hrest);
           exists a0, a1; split; [apply elem_of_app; by left|done]).
    destruct (decide (sub_spaces false (py_lower (py_strip c0)) = k)) as [<-|Hne].
    + rewrite lookup_insert_eq. intros [= <-]. exists c0, c1.
      split; [apply elem_of_app; right; by left|]. split; [done|]. split; [done|].
      split; [apply normalised_sub_spaces, py_lower_no_upper|].
      apply strip_by_idem.
    + rewrite lookup_insert_ne by done.
      intros H; destruct (IH H) as (a0 & a1 & Hin & Hrest).
      exists a0, a1; split; [apply elem_of_app; by left|done].
Qed.

(** X9.  [parse_description_to_properties] keeps the records, their ids and
    geometry, and lays every parsed entry over the attributes, entries with
    an empty value included; the own-description step of [merge_by_pidn]
    gives the same attributes exactly when every parsed entry with an empty
    label or an empty value is already among the record's attributes with
    that value (so in particular when no parsed label or value is empty). *)
Theorem parse_description_overwrites (data out : feature_collection) :
  parse_description_to_properties table_rows data = Ok out →
  same_records_and_geometry (fc_features data) (fc_features out) ∧
  ∀ i f, fc_features data !! i = Some f →
    ∃ f' parsed,
      fc_features out !! i = Some f' ∧
      parse_description table_rows (properties_or_empty f) = Ok parsed ∧
      f_id f' = f_id f ∧
      (∀ k, properties_or_empty f' !! k =
              match parsed !! k with
              | Some v => Some (VStr v)
              | None => properties_or_empty f !! k
              end) ∧
      ∃ f'', merge_by_pidn_feature table_rows ∅ f = Ok f'' ∧
             (f_properties f'' = f_properties f' ↔
              ∀ k v, parsed !! k = Some v →
                     (k ≠ "" ∧ v ≠ "") ∨
                     properties_or_empty f !! k = Some (VStr v)).
Proof.
  unfold parse_description_to_properties, mbind, result_bind. intros H.
  destruct (for_collect _ _) as [fs|] eqn:Hfs; [|done].
  inversion H; subst out; clear H. simpl. split.
  - apply (same_geometry_collect _ _ _ ) in Hfs; [done|].
    intros f f' Hf. unfold parse_description_feature, mbind, result_bind in Hf.
    destruct (parse_description _ _); [|done]. by inversion Hf.
  - apply for_collect_lookup in Hfs as [_ Hlk].
    intros i f Hf. destruct (Hlk i f Hf) as (f' & Hf' & Hbody).
    unfold parse_description_feature, mbind, result_bind in Hbody.
    destruct (parse_description table_rows (properties_or_empty f))
      as [parsed|] eqn:Hparsed; [|done].
    inversion Hbody; subst f'; clear Hbody.
    eexists _, parsed. split; [exact Hf'|]. split; [done|]. split; [done|].
    assert (∀ k, ((VStr <$> parsed) ∪ properties_or_empty f) !! k =
                   match parsed !! k with
                   | Some v => Some (VStr v)
                   | None => properties_or_empty f !! k
                   end) as Hlookup.
    { intros k. rewrite lookup_union, lookup_fmap.
      destruct (parsed !! k); simpl; [by rewrite union_Some_l|].
      by rewrite (left_id None _). }
    split; [exact Hlookup|].
    unfold merge_by_pidn_feature. rewrite Hparsed. simpl.
    eexists. split; [reflexivity|]. simpl.
    assert ((if truthy (VStr (pidn_of parsed))
             then match (∅ : gmap string (gmap string string)) !! pidn_of parsed with
                  | Some address_data =>
                      copy_items key_and_value (VStr <$> address_data)
                        (copy_items key_and_value (VStr <$> parsed)
                                    (properties_or_empty f))
                  | None => copy_items key_and_value (VStr <$> parsed)
                                       (properties_or_empty f)
                  end
             else copy_items key_and_value (VStr <$> parsed) (properties_or_empty f))
            = copy_items key_and_value (VStr <$> parsed) (properties_or_empty f))
      as Heq.
    { rewrite lookup_empty. by destruct (truthy _). }
    simpl in Heq. rewrite Heq. clear Heq.
    assert (∀ k v, parsed !! k = Some v →
              copy_items key_and_value (VStr <$> parsed) (properties_or_empty f) !! k
              = if negb (k =? "")%string && negb (v =? "")%string
                then Some (VStr v) else properties_or_empty f !! k) as Hown.
    { intros k v Hv. rewrite lookup_copy_items, lookup_fmap, Hv. simpl.
      unfold key_and_value, truthy_key. simpl.
      by destruct (negb (k =? "")%string && negb (v =? "")%string). }
    split.
    + intros Hsame k v Hv. inversion Hsame as [Hmap].
      pose proof (Hown k v Hv) as Hk. rewrite Hmap, Hlookup, Hv in Hk.
      destruct (String.eqb_spec k "") as [->|Hk0]; simpl in Hk; [by right|].
      destruct (String.eqb_spec v "") as [->|Hv0]; simpl in Hk; [by right|].
      by left.
    + intros Hfull. f_equal. apply map_eq. intros k. rewrite Hlookup.
      destruct (parsed !! k) as [v|] eqn:Hv.
      * rewrite (Hown k v Hv).
        destruct (Hfull k v Hv) as [[Hk Hv']|Hp].
        -- apply String.eqb_neq in Hk, Hv'. by rewrite Hk, Hv'.
        -- rewrite Hp. by destruct (negb _ && negb _).
      * by rewrite lookup_copy_items, lookup_fmap, Hv.
Qed.

Lemma address_lookup_spec (addresses : list feature)
    (lk : gmap string (gmap string string)) :
  for_each (address_lookup_step table_rows) ∅ addresses = Ok lk →
  (∀ pidn ap, lk !! pidn = Some ap →
     ∃ a, a ∈ addresses ∧
          parse_description table_rows (properties_or_empty a) = Ok ap ∧
          pidn_of ap = pidn ∧ pidn ≠ "") ∧
  (∀ pidn, (∀ a ap, a ∈ addresses →
                    parse_description table_rows (properties_or_empty a) = Ok ap →
                    pidn_of ap ≠ pidn) →
           lk !! pidn = None).
Proof.
  intros H.
  refine (for_each_invariant _
            (λ (lk : gmap string (gmap string string)) seen,
               (∀ pidn ap, lk !! pidn = Some ap →
                  ∃ a, a ∈ seen ∧
                       parse_description table_rows (properties_or_empty a) = Ok ap ∧
                       pidn_of ap = pidn ∧ pidn ≠ "") ∧
               (∀ pidn, (∀ a ap, a ∈ seen →
                           parse_description table_rows (properties_or_empty a) = Ok ap →
                           pidn_of ap ≠ pidn) →
                        lk !! pidn = None)) _ _ _ _ _ H).
  - split; [intros pidn ap; by rewrite lookup_empty|intros; apply lookup_empty].
  - clear. intros lk a lk' seen [Hsome Hnone] Hstep.
    unfold address_lookup_step, mbind, result_bind in Hstep.
    destruct (parse_description table_rows (properties_or_empty a))
      as [parsed|] eqn:Hp; [|done].
    destruct (truthy (VStr (pidn_of parsed))) eqn:Ht;
      inversion Hstep; subst lk'; clear Hstep.
    + split.
      * intros pidn ap Hlk.
        destruct (decide (pidn_of parsed = pidn)) as [<-|Hne].
        -- rewrite lookup_insert_eq in Hlk. inversion Hlk; subst ap.
           exists a. split; [apply elem_of_app; right; by left|].
           split; [done|]. split; [done|]. intros E. rewrite E in Ht. done.
        -- rewrite lookup_insert_ne in Hlk by done.
           destruct (Hsome pidn ap Hlk) as (a' & Ha' & Hrest).
           exists a'. split; [apply elem_of_app; by left|done].
      * intros pidn Habs. rewrite lookup_insert_ne.
        -- apply Hnone. intros a' ap Ha'. apply Habs. apply elem_of_app. by left.
        -- apply (Habs a parsed); [apply elem_of_app; right; by left|done].
    + split.
      * intros pidn ap Hlk. destruct (Hsome pidn ap Hlk) as (a' & Ha' & Hrest).
        exists a'. split; [apply elem_of_app; by left|done].
      * intros pidn Habs. apply Hnone.
        intros a' ap Ha'. apply Habs. apply elem_of_app. by left.
Qed.

(** The lookup holds, under a PIDN, the entries parsed from the last
    address record that yields it. *)
Lemma address_lookup_last (addresses : list feature)
    (lk : gmap string (gmap string string)) :
  for_each (address_lookup_step table_rows) ∅ addresses = Ok lk →
  ∀ pre a post ap,
    addresses = pre ++ a :: post →
    parse_description table_rows (properties_or_empty a) = Ok ap →
    pidn_of ap ≠ "" →
    (∀ a' ap', a' ∈ post →
               parse_description table_rows (properties_or_empty a') = Ok ap' →
               pidn_of ap' ≠ pidn_of ap) →
    lk !! pidn_of ap = Some ap.
Proof.
  intros H.
  refine (for_each_invariant _
            (λ (lk : gmap string (gmap string string)) seen,
               ∀ pre a post ap,
                 seen = pre ++ a :: post →
                 parse_description table_rows (properties_or_empty a) = Ok ap →
                 pidn_of ap ≠ "" →
                 (∀ a' ap', a' ∈ post →
                    parse_description table_rows (properties_or_empty a') = Ok ap' →
                    pidn_of ap' ≠ pidn_of ap) →
                 lk !! pidn_of ap = Some ap) _ _ _ _ _ H).
  - intros pre a post ap Hnil. by destruct pre.
  - clear. intros lk r lk' seen Hlast Hstep.
    unfold address_lookup_step, mbind, result_bind in Hstep.
    destruct (parse_description table_rows (properties_or_empty r))
      as [parsed|] eqn:Hp; [|done].
    intros pre a post ap Hsplit Hap Hne Hpost.
    destruct post as [|b post _] using rev_ind.
    + apply app_inj_tail in Hsplit as [-> ->].
      rewrite Hp in Hap. inversion Hap; subst ap.
      assert (truthy (VStr (pidn_of parsed)) = true) as Ht.
      { simpl. by apply negb_true_iff, String.eqb_neq. }
      rewrite Ht in Hstep. inversion Hstep. apply lookup_insert_eq.
    + rewrite app_comm_cons, app_assoc in Hsplit.
      apply app_inj_tail in Hsplit as [-> <-].
      assert (lk !! pidn_of ap = Some ap) as Hold.
      { apply (Hlast pre a post ap); [done|done|done|].
        intros a' ap' Ha'. apply Hpost. apply elem_of_app. by left. }
      destruct (truthy (VStr (pidn_of parsed)));
        inversion Hstep; subst lk'; [|done].
      rewrite lookup_insert_ne; [done|].
      apply (Hpost r parsed); [apply elem_of_app; right; by left|done].
Qed.

(** X10.  In the structured-text-derived join every output record has an
    id member (null when the input had none).  Its attributes are the raw
    attributes overlaid by the non-empty entries parsed from its own
    description; when its PIDN is empty, or no address record yields it,
    that is all; when address records yield its non-empty PIDN, the
    non-empty entries parsed from the last of them are laid on top. *)
Theorem merge_by_pidn_precedence (parcel_data address_data out : feature_collection) :
  merge_by_pidn table_rows parcel_data address_data = Ok out →
  ∀ i f, fc_features parcel_data !! i = Some f →
    ∃ f' parsed,
      fc_features out !! i = Some f' ∧
      parse_description table_rows (properties_or_empty f) = Ok parsed ∧
      f_id f' = Some (default VNone (f_id f)) ∧
      let own := copy_items key_and_value (VStr <$> parsed) (properties_or_empty f) in
      ((pidn_of parsed = "" ∨
        ∀ a ap, a ∈ fc_features address_data →
                parse_description table_rows (properties_or_empty a) = Ok ap →
                pidn_of ap ≠ pidn_of parsed) →
       properties_or_empty f' = own) ∧
      (∀ pre a post ap,
         fc_features address_data = pre ++ a :: post →
         parse_description table_rows (properties_or_empty a) = Ok ap →
         pidn_of ap = pidn_of parsed → pidn_of parsed ≠ "" →
         (∀ a' ap', a' ∈ post →
                    parse_description table_rows (properties_or_empty a') = Ok ap' →
                    pidn_of ap' ≠ pidn_of parsed) →
         properties_or_empty f' = copy_items key_and_value (VStr <$> ap) own).
Proof.
  unfold merge_by_pidn, mbind, result_bind. intros H i f Hf.
  destruct (for_each _ _ _) as [lk|] eqn:Hlk; [|done].
  destruct (for_collect _ _) as [updated|] eqn:Hc; [|done].
  inversion H; subst out; clear H. simpl.
  destruct (address_lookup_spec _ _ Hlk) as [_ Hnone].
  pose proof (address_lookup_last _ _ Hlk) as Hlast.
  apply for_collect_lookup in Hc as [_ Hc].
  destruct (Hc i f Hf) as (f' & Hf' & Hbody).
  unfold merge_by_pidn_feature, mbind, result_bind in Hbody.
  destruct (parse_description table_rows (properties_or_empty f))
    as [parsed|] eqn:Hparsed; [|done].
  inversion Hbody; subst f'; clear Hbody.
  eexists _, parsed. split; [exact Hf'|]. split; [done|]. split; [done|].
  cbn zeta. unfold properties_or_empty at 1 3. cbn [f_properties from_option id].
  split.
  - intros [Hempty|Habs].
    + rewrite Hempty. done.
    + rewrite (Hnone _ Habs). by destruct (negb _).
  - intros pre a post ap Hsplit Hap Hsame Hne Hpost.
    rewrite <-Hsame in Hpost, Hne |- *.
    rewrite (Hlast pre a post ap Hsplit Hap Hne Hpost).
    apply String.eqb_neq in Hne. by rewrite Hne.
Qed.

End StructuredTextProofs.
(** ** Elevation stripping *)

Lemma for_collect_idem {A} (body : A → result A) (l l' : list A) :
  (∀ x y, body x = Ok y → body y = Ok y) →
  for_collect body l = Ok l' → for_collect body l' = Ok l'.
Proof.
  intros Hbody. revert l'. induction l as [|a l IH]; intros l' H; simpl in H.
  - by inversion H.
  - unfold mbind, result_bind in H.
    destruct (body a) as [y|] eqn:Hy; [|done].
    destruct (for_collect body l) as [ys|] eqn:Hys; [|done].
    inversion H; subst l'. simpl. unfold mbind, result_bind.
    by rewrite (Hbody a y Hy), (IH ys eq_refl).
Qed.

Lemma truncate_point_take (pt pt' : coords) :
  truncate_point pt = Ok pt' → ∃ l, pt = CList l ∧ pt' = CList (take 2 l).
Proof.
  destruct pt as [q|l]; [done|]. simpl.
  destruct l as [|a [|b [|c l]]]; intros [= <-]; by eexists.
Qed.

Lemma truncate_point_idem (pt pt' : coords) :
  truncate_point pt = Ok pt' → truncate_point pt' = Ok pt'.
Proof.
  intros H. apply truncate_point_take in H as (l & -> & ->).
  by destruct l as [|a [|b [|c l]]].
Qed.

Lemma convert_ring_idem (r r' : coords) :
  convert_ring r = Ok r' → convert_ring r' = Ok r'.
Proof.
  destruct r as [q|pts]; [done|]. simpl. unfold mbind, result_bind.
  destruct (for_collect truncate_point pts) as [pts'|] eqn:H; [|done].
  intros [= <-]. simpl. unfold mbind, result_bind.
  by rewrite (for_collect_idem _ _ _ truncate_point_idem H).
Qed.

Lemma convert_polygon_idem (p p' : coords) :
  convert_polygon p = Ok p' → convert_polygon p' = Ok p'.
Proof.
  destruct p as [q|rs]; [done|]. simpl. unfold mbind, result_bind.
  destruct (for_collect convert_ring rs) as [rs'|] eqn:H; [|done].
  intros [= <-]. simpl. unfold mbind, result_bind.
  by rewrite (for_collect_idem _ _ _ convert_ring_idem H).
Qed.

Lemma convert_multipolygon_idem (m m' : coords) :
  convert_multipolygon m = Ok m' → convert_multipolygon m' = Ok m'.
Proof.
  destruct m as [q|ps]; [done|]. simpl. unfold mbind, result_bind.
  destruct (for_collect convert_polygon ps) as [ps'|] eqn:H; [|done].
  intros [= <-]. simpl. unfold mbind, result_bind.
  by rewrite (for_collect_idem _ _ _ convert_polygon_idem H).
Qed.

Lemma convert_feature_idem (f f' : feature) :
  convert_feature f = Ok f' → convert_feature f' = Ok f'.
Proof.
  unfold convert_feature.
  destruct (f_geometry f) as [g|] eqn:Hg; [|intros [= <-]; by rewrite Hg].
  destruct (g_coordinates g) as [c|] eqn:Hc;
    [|intros [= <-]; by rewrite Hg, Hc].
  unfold mbind, result_bind.
  destruct (String.eqb (g_type g) "Polygon") eqn:Hp.
  - destruct (convert_polygon c) as [c'|] eqn:H; [|done].
    intros [= <-]. simpl. rewrite Hp. unfold mbind, result_bind.
    by rewrite (convert_polygon_idem _ _ H).
  - destruct (String.eqb (g_type g) "MultiPolygon") eqn:Hm.
    + destruct (convert_multipolygon c) as [c'|] eqn:H; [|done].
      intros [= <-]. simpl. rewrite Hp, Hm. unfold mbind, result_bind.
      by rewrite (convert_multipolygon_idem _ _ H).
    + intros [= <-]. simpl. by rewrite Hp, Hm.
Qed.

(** X11.  Elevation stripping is idempotent: applied to its own result it
    returns that result. *)
Theorem convert_to_2d_coordinates_idempotent (data out : feature_collection) :
  convert_to_2d_coordinates data = Ok out →
  convert_to_2d_coordinates out = Ok out.
Proof.
  unfold convert_to_2d_coordinates, mbind, result_bind.
  destruct (for_collect convert_feature (fc_features data)) as [fs|] eqn:H; [|done].
  intros [= <-]. simpl.
  by rewrite (for_collect_idem _ _ _ convert_feature_idem H).
Qed.

Lemma convert_ring_at (r r' : coords) (p : nat) (pt : coords) :
  convert_ring r = Ok r' → coords_at r [p] = Some pt →
  ∃ l, pt = CList l ∧ coords_at r' [p] = Some (CList (take 2 l)).
Proof.
  destruct r as [q|pts]; [done|]. simpl. unfold mbind, result_bind.
  destruct (for_collect truncate_point pts) as [pts'|] eqn:H; [|done].
  intros [= <-]. simpl. unfold mbind, option_bind.
  destruct (pts !! p) as [x|] eqn:Hx; [|done]. intros [= ->].
  apply for_collect_lookup in H as [_ H].
  destruct (H p pt Hx) as (y & -> & Hb).
  apply truncate_point_take in Hb as (l' & -> & ->). by exists l'.
Qed.

Lemma coords_at_cons (l : list coords) (i : nat) (rest : list nat) :
  coords_at (CList l) (i :: rest) =
    match l !! i with
    | Some c' => coords_at c' rest
    | None => None
    end.
Proof. cbn [coords_at]. by destruct (l !! i). Qed.

Lemma convert_polygon_at (c c' : coords) (r p : nat) (pt : coords) :
  convert_polygon c = Ok c' → coords_at c [r; p] = Some pt →
  ∃ l, pt = CList l ∧ coords_at c' [r; p] = Some (CList (take 2 l)).
Proof.
  intros Hconv Hat. destruct c as [q|rs]; [done|].
  cbn [convert_polygon] in Hconv. unfold mbind, result_bind in Hconv.
  destruct (for_collect convert_ring rs) as [rs'|] eqn:H; [|done].
  inversion Hconv; subst c'; clear Hconv. rewrite coords_at_cons in *.
  destruct (rs !! r) as [ring|] eqn:Hr; [|done].
  apply for_collect_lookup in H as [_ H].
  destruct (H r ring Hr) as (ring' & -> & Hb).
  by apply (convert_ring_at _ _ _ _ Hb).
Qed.

Lemma convert_multipolygon_at (c c' : coords) (q r p : nat) (pt : coords) :
  convert_multipolygon c = Ok c' → coords_at c [q; r; p] = Some pt →
  ∃ l, pt = CList l ∧ coords_at c' [q; r; p] = Some (CList (take 2 l)).
Proof.
  intros Hconv Hat. destruct c as [x|ps]; [done|].
  cbn [convert_multipolygon] in Hconv. unfold mbind, result_bind in Hconv.
  destruct (for_collect convert_polygon ps) as [ps'|] eqn:H; [|done].
  inversion Hconv; subst c'; clear Hconv. rewrite coords_at_cons in *.
  destruct (ps !! q) as [poly|] eqn:Hq; [|done].
  apply for_collect_lookup in H as [_ H].
  destruct (H q poly Hq) as (poly' & -> & Hb).
  by apply (convert_polygon_at _ _ _ _ _ Hb).
Qed.

(** X12.  Elevation stripping keeps the records, their ids, attributes and
    geometry types; in a Polygon or MultiPolygon every point is cut down
    to its first two ordinates (a point of at most two ordinates stays as
    it is), and the coordinates of any other geometry type are left alone. *)
Theorem convert_to_2d_coordinates_truncates (data out : feature_collection) :
  convert_to_2d_coordinates data = Ok out →
  fc_crs out = fc_crs data ∧
  length (fc_features out) = length (fc_features data) ∧
  ∀ i f, fc_features data !! i = Some f →
    ∃ f', fc_features out !! i = Some f' ∧
      f_id f' = f_id f ∧ f_properties f' = f_properties f ∧
      match f_geometry f with
      | None => f_geometry f' = None
      | Some g =>
          ∃ g', f_geometry f' = Some g' ∧ g_type g' = g_type g ∧
            match g_coordinates g with
            | None => g_coordinates g' = None
            | Some c =>
                ∃ c', g_coordinates g' = Some c' ∧
                  (g_type g = "Polygon" → ∀ r p pt,
                     coords_at c [r; p] = Some pt →
                     ∃ l, pt = CList l ∧
                          coords_at c' [r; p] = Some (CList (take 2 l))) ∧
                  (g_type g = "MultiPolygon" → ∀ q r p pt,
                     coords_at c [q; r; p] = Some pt →
                     ∃ l, pt = CList l ∧
                          coords_at c' [q; r; p] = Some (CList (take 2 l))) ∧
                  (g_type g ≠ "Polygon" → g_type g ≠ "MultiPolygon" → c' = c)
            end
      end.
Proof.
  unfold convert_to_2d_coordinates, mbind, result_bind.
  destruct (for_collect convert_feature (fc_features data)) as [fs|] eqn:H; [|done].
  intros [= <-]. simpl. apply for_collect_lookup in H as [Hlen H].
  split; [done|]. split; [done|]. intros i f Hf.
  destruct (H i f Hf) as (f' & Hf' & Hb). exists f'. split; [done|].
  unfold convert_feature in Hb.
  destruct (f_geometry f) as [g|] eqn:Hg; [|inversion Hb; subst; by rewrite Hg].
  destruct (g_coordinates g) as [c|] eqn:Hc.
  2: { inversion Hb; subst. rewrite Hg. split; [done|]. split; [done|].
       exists g. by rewrite Hc. }
  unfold mbind, result_bind in Hb.
  destruct (String.eqb (g_type g) "Polygon") eqn:Hp.
  - destruct (convert_polygon c) as [c'|] eqn:Hconv; [|done].
    inversion Hb; subst f'; clear Hb. simpl. split; [done|]. split; [done|].
    eexists. split; [reflexivity|]. split; [done|]. simpl.
    exists c'. split; [done|]. apply String.eqb_eq in Hp. split; [|split].
    + intros _ r p pt. by apply convert_polygon_at.
    + intros Hm. rewrite Hm in Hp. done.
    + done.
  - destruct (String.eqb (g_type g) "MultiPolygon") eqn:Hm.
    + destruct (convert_multipolygon c) as [c'|] eqn:Hconv; [|done].
      inversion Hb; subst f'; clear Hb. simpl. split; [done|]. split; [done|].
      eexists. split; [reflexivity|]. split; [done|]. simpl.
      exists c'. split; [done|].
      apply String.eqb_neq in Hp. apply String.eqb_eq in Hm. split; [|split].
      * done.
      * intros _ q r p pt. by apply convert_multipolygon_at.
      * done.
    + inversion Hb; subst f'; clear Hb. simpl. split; [done|]. split; [done|].
      eexists. split; [reflexivity|]. split; [done|]. simpl.
      exists c. split; [done|].
      apply String.eqb_neq in Hp, Hm. by repeat split.
Qed.
(** ** More on CRS detection *)

Lemma classify_point_range (pt : coords) (crs : string) :
  classify_point pt = Ok crs → crs = EPSG_4326 ∨ crs = EPSG_3739.
Proof.
  unfold classify_point, mbind, result_bind.
  destruct (item pt 0) as [x|]; [|done].
  destruct (item pt 1) as [y|]; [|done].
  destruct (ordinate x) as [xq|]; [|done].
  destruct (Qle_bool (-180) xq && Qle_bool xq 180).
  - destruct (ordinate y) as [yq|]; [|done].
    destruct (Qle_bool (-90) yq && Qle_bool yq 90); [intros [= <-]; by left|].
    destruct (Qlt_bool 1000000 xq); [intros [= <-]; by right|].
    destruct (Qlt_bool 1000000 yq); intros [= <-]; auto.
  - destruct (Qlt_bool 1000000 xq); [intros [= <-]; by right|].
    destruct (ordinate y) as [yq|]; [|done].
    destruct (Qlt_bool 1000000 yq); intros [= <-]; auto.
Qed.

(** X13.  Whatever the record set, a completed detection returns one of
    EPSG:4326, EPSG:3739 and EPSG:3738 (never EPSG:2677, which metadata is
    reported as EPSG:3739); and a record set without features is WGS84
    whatever its CRS metadata says. *)
Theorem detect_coordinate_system_range (data : feature_collection) (crs : string) :
  detect_coordinate_system data = Ok crs →
  (crs = EPSG_4326 ∨ crs = EPSG_3739 ∨ crs = EPSG_3738) ∧
  (fc_features data = [] → crs = EPSG_4326).
Proof.
  unfold detect_coordinate_system. intros H.
  split; [|intros He; rewrite He in H; by inversion H].
  revert H. destruct (fc_features data) as [|f0 fs]; [intros [= <-]; auto|].
  destruct (explicit_crs data) as [c|] eqn:Hc.
  - intros [= <-]. unfold explicit_crs in Hc.
    destruct (fc_crs data) as [name|]; [|done].
    destruct (py_contains "3738" name); [inversion Hc; auto|].
    destruct (py_contains "EPSG:3739" name || py_contains "EPSG:2677" name);
      [inversion Hc; auto|].
    destruct (py_contains "EPSG:4326" name); [inversion Hc; auto|done].
  - destruct (List.find has_coordinates (f0 :: fs)) as [f|]; [|intros [= <-]; auto].
    destruct (f_geometry f) as [g|]; [|done].
    unfold mbind, result_bind. destruct (first_point g) as [[pt|]|]; [| |done].
    + destruct (coords_truthy pt); [|intros [= <-]; auto].
      intros H. apply classify_point_range in H as [->| ->]; auto.
    + intros [= <-]. auto.
Qed.

(** X14.  Detection raises [IndexError] instead of defaulting when, without
    recognised CRS metadata, the first geometry with coordinates is a
    Polygon whose first ring is empty, or whose first point has a single
    ordinate. *)
Theorem detect_coordinate_system_index_error (data : feature_collection)
    (f : feature) (g : geometry) (rings : list coords) :
  explicit_crs data = None →
  List.find has_coordinates (fc_features data) = Some f →
  f_geometry f = Some g →
  g_type g = "Polygon" →
  (g_coordinates g = Some (CList (CList [] :: rings)) ∨
   ∃ x pts, g_coordinates g = Some (CList (CList (CList [x] :: pts) :: rings))) →
  detect_coordinate_system data = Err IndexError.
Proof.
  intros Hcrs Hfind Hg Ht Hc. unfold detect_coordinate_system.
  rewrite Hcrs, Hfind, Hg.
  destruct (fc_features data) as [|f0 fs]; [done|].
  unfold first_point. rewrite Ht.
  destruct Hc as [-> |(x & pts & ->)]; [done|]. simpl.
  by destruct x.
Qed.
(** ** Identifiers across jurisdictions *)

Lemma all_digits_no_underscore (a b : string) :
  all_digits (a +:+ String "_" b) = false.
Proof.
  induction a as [|c a IH]; [done|].
  change (String c a +:+ String "_" b) with (String c (a +:+ String "_" b)).
  cbn [all_digits]. rewrite IH. apply andb_false_r.
Qed.

Lemma split_at_last_underscore (a b z1 z2 : string) :
  all_digits z1 = true → all_digits z2 = true →
  a +:+ String "_" z1 = b +:+ String "_" z2 → a = b ∧ z1 = z2.
Proof.
  intros H1 H2. revert b. induction a as [|c a IH]; intros [|d b] H.
  - change (String "_" z1 = String "_" z2) in H. by inversion H.
  - change (String "_" z1 = String d (b +:+ String "_" z2)) in H.
    inversion H; subst. by rewrite all_digits_no_underscore in H1.
  - change (String c (a +:+ String "_" z1) = String "_" z2) in H.
    inversion H; subst. by rewrite all_digits_no_underscore in H2.
  - change (String c (a +:+ String "_" z1) = String d (b +:+ String "_" z2)) in H.
    inversion H; subst. destruct (IH b) as [-> ->]; done.
Qed.

Lemma all_digits_zfill (w i : nat) : all_digits (zfill w (pretty i)) = true.
Proof.
  unfold pretty, pretty_nat. destruct (zfill_pretty w (N.of_nat i)) as [n ->].
  apply all_digits_zeros_app, all_digits_pretty.
Qed.

(** X15.  Two identifiers are equal only if they come from jurisdictions
    whose names agree up to letter case and carry the same sequence
    number: identifiers never collide across jurisdictions with different
    lower-cased names. *)
Theorem unique_id_injective (county1 county2 : string) (i j : nat) :
  unique_id county1 i = unique_id county2 j →
  py_lower county1 = py_lower county2 ∧ i = j.
Proof.
  unfold unique_id. intros H.
  apply split_at_last_underscore in H as [Hc Hz]; try apply all_digits_zfill.
  split; [done|].
  apply (f_equal read_decimal) in Hz. rewrite !read_decimal_zfill in Hz. lia.
Qed.

Lemma combined_features_app {A} (files : list (option (list A)))
    (file : option (list A)) :
  combined_features (files ++ [file]) = combined_features files ++ default [] file.
Proof.
  unfold combined_features. rewrite foldl_app. simpl.
  destruct file; [done|]. by rewrite app_nil_r.
Qed.

Lemma combined_features_concat {A} (files : list (option (list A))) :
  combined_features files = concat (default [] <$> files).
Proof.
  induction files as [|file files IH] using rev_ind; [done|].
  rewrite combined_features_app, IH, fmap_app, concat_app. simpl.
  by rewrite app_nil_r.
Qed.

Lemma concat_nil_elem {A} (ls : list (list A)) (l : list A) :
  concat ls = [] → l ∈ ls → l = [].
Proof.
  induction ls as [|l0 ls IH]; intros H Hin; [by apply elem_of_nil in Hin|].
  cbn [concat] in H. apply app_eq_nil in H as [H0 H].
  apply elem_of_cons in Hin as [->|Hin]; auto.
Qed.

(** X16.  The combined collection holds the features of the counties that
    have a file, county after county in list order; the reported total is
    its size; and nothing is written exactly when no county contributes a
    feature. *)
Theorem combine_county_geojsons_concat {A} (county_files : list (option (list A))) :
  combined_features county_files = concat (default [] <$> county_files) ∧
  total_features county_files = length (combined_features county_files) ∧
  (combine_county_geojsons county_files = None ↔
   ∀ file features, file ∈ county_files → file = Some features → features = []) ∧
  (∀ combined, combine_county_geojsons county_files = Some combined →
               combined = combined_features county_files ∧ combined ≠ []).
Proof.
  split; [apply combined_features_concat|]. split; [|split].
  - induction county_files as [|file files IH] using rev_ind; [done|].
    rewrite combined_features_app, length_app. unfold total_features in *.
    rewrite foldl_app. simpl. rewrite IH. by destruct file.
  - unfold combine_county_geojsons. rewrite combined_features_concat. split.
    + intros H file features Hin ->.
      destruct (concat (default [] <$> county_files)) eqn:Hc; [|done].
      apply (concat_nil_elem _ _ Hc).
      apply list_elem_of_fmap. by exists (Some features).
    + intros H.
      assert (concat (default [] <$> county_files) = []) as ->; [|done].
      induction county_files as [|file files IH]; [done|].
      rewrite fmap_cons. cbn [concat]. rewrite IH.
      * destruct file as [features|]; [|done]. simpl.
        rewrite (H (Some features) features); [done|by left|done].
      * intros f fs Hin. apply H. by right.
  - unfold combine_county_geojsons. intros combined.
    destruct (combined_features county_files) eqn:Hc; [done|].
    by intros [= <-].
Qed.

(** * Worked instances *)

Lemma spatial_join_one_address_per_parcel_witness :
  ∃ out stats,
    Planar.spatial_join sample_parcels sample_addresses "PIN" "FID"
      = Ok (out, stats) ∧
    (fc_features out !! 1%nat = Some parcel_A ∨
     ∃ a ap f', a ∈ fc_features sample_addresses ∧ f_properties a = Some ap ∧
                fc_features out !! 1%nat = Some f' ∧
                f_id f' = f_id parcel_A ∧ f_geometry f' = f_geometry parcel_A ∧
                properties_or_empty f'
                  = copy_items key_and_value ap (properties_or_empty parcel_A)).
Proof.
  eexists _, _. split; [vm_compute; reflexivity|].
  refine (spatial_join_one_address_per_parcel Planar.shape Planar.wkt
            Planar.contains Planar.intersects Planar.query
            sample_parcels sample_addresses "PIN" "FID" _ _ 1%nat parcel_A _ _);
    vm_compute; reflexivity.
Defined.

Lemma spatial_join_skips_parcels_without_geometry_witness :
  ∃ out stats,
    Planar.spatial_join sample_parcels sample_addresses "PIN" "FID"
      = Ok (out, stats) ∧
    fc_features out !! 0%nat = Some parcel_no_geometry.
Proof.
  eexists _, _. split; [vm_compute; reflexivity|].
  refine (spatial_join_skips_parcels_without_geometry Planar.shape Planar.wkt
            Planar.contains Planar.intersects Planar.query
            sample_parcels sample_addresses "PIN" "FID" _ _ 0%nat
            parcel_no_geometry _ _ _);
    vm_compute; reflexivity.
Defined.

Lemma spatial_join_summary_bounds_witness :
  ∃ out stats,
    Planar.spatial_join sample_parcels sample_addresses "PIN" "FID"
      = Ok (out, stats) ∧
    (parcels_with_address stats + length (multiple_matches stats)
     ≤ total_matched_addresses stats)%nat ∧
    (length (multiple_matches stats) ≤ parcels_with_address stats)%nat ∧
    (parcels_with_address stats ≤ length (fc_features sample_parcels))%nat ∧
    (total_matched_addresses stats ≤ length (fc_features sample_addresses))%nat.
Proof.
  eexists _, _. split; [vm_compute; reflexivity|].
  refine (spatial_join_summary_bounds Planar.shape Planar.wkt
            Planar.contains Planar.intersects Planar.query
            sample_parcels sample_addresses "PIN" "FID" _ _ _).
  vm_compute; reflexivity.
Defined.

Lemma spatial_join_no_match_no_change_witness :
  ∃ out stats,
    Planar.spatial_join sample_parcels (mk_collection [address_far]) "PIN" "FID"
      = Ok (out, stats) ∧
    total_matched_addresses stats = 0%nat ∧
    out = sample_parcels ∧ parcels_with_address stats = 0%nat ∧
    unmatched_count stats = 1%nat.
Proof.
  eexists _, _. split; [vm_compute; reflexivity|]. split; [reflexivity|].
  refine (spatial_join_no_match_no_change Planar.shape Planar.wkt
            Planar.contains Planar.intersects Planar.query
            sample_parcels (mk_collection [address_far]) "PIN" "FID" _ _ _ _);
    vm_compute; reflexivity.
Defined.

Lemma merge_by_id_last_record_wins_witness :
  ∃ f', fc_features (merge_by_id id_primary id_secondary_twice "PIN" "PIN") !! 0%nat
          = Some f' ∧
        f_properties f'
          = Some (list_to_map [("PIN", VStr "P1"); ("owner", VStr "Jane Doe");
                               ("zip", VStr "83002")]).
Proof.
  destruct (merge_by_id_last_record_wins id_primary id_secondary_twice "PIN" "PIN"
              0%nat
              (mk_feature (Some (Planar.box_geometry 0 0 2 2))
                          [("PIN", VStr "P1"); ("owner", VStr "Jane Doe")])
              (mk_feature None [("PIN", VStr "P1"); ("zip", VStr "83002")])
              (fc_features id_secondary) [])
    as (f' & Hf' & Hp').
  - reflexivity.
  - reflexivity.
  - reflexivity.
  - reflexivity.
  - reflexivity.
  - intros s' Hs'. by apply elem_of_nil in Hs'.
  - exists f'. split; [done|]. rewrite Hp'. vm_compute. reflexivity.
Defined.

Lemma merge_scraped_data_last_item_wins_witness :
  ∃ f', fc_features (merge_scraped_data id_primary scraped_items_twice "PIN") !! 0%nat
          = Some f' ∧
        f_properties f'
          = Some (list_to_map [("PIN", VStr "P1"); ("owner", VStr "Jane Doe");
                               ("tax", VInt 1350)]).
Proof.
  destruct (merge_scraped_data_last_item_wins id_primary scraped_items_twice "PIN"
              0%nat
              (mk_feature (Some (Planar.box_geometry 0 0 2 2))
                          [("PIN", VStr "P1"); ("owner", VStr "Jane Doe")])
              (list_to_map [("PIN", VStr "P1"); ("tax", VInt 1350)])
              scraped_items [])
    as (f' & Hf' & Hp').
  - reflexivity.
  - reflexivity.
  - reflexivity.
  - reflexivity.
  - reflexivity.
  - intros s' Hs'. by apply elem_of_nil in Hs'.
  - exists f'. split; [done|]. rewrite Hp'. vm_compute. reflexivity.
Defined.

Lemma join_address_to_parcel_records_witness :
  ∃ out,
    join_address_to_parcel geojson_parcels jsonl_addresses "RWACCT" "Account #"
      = Ok out ∧
    length out = length geojson_parcels ∧
    ∃ r', out !! 1%nat = Some r' ∧
          r' = JFeature None None (list_to_map [("RWACCT", VStr "R2")]).
Proof.
  eexists. split; [vm_compute; reflexivity|].
  destruct (join_address_to_parcel_records geojson_parcels jsonl_addresses
              "RWACCT" "Account #" _ ltac:(vm_compute; reflexivity))
    as [Hlen Hrec].
  split; [exact Hlen|].
  destruct (Hrec 1%nat (JFeature None None (list_to_map [("RWACCT", VStr "R2")]))
              eq_refl) as (r' & key & Hr' & Hkey & _ & Hsame & _).
  exists r'. split; [exact Hr'|]. apply Hsame.
  intros a key' Ha Hk. apply list_elem_of_singleton in Ha as ->.
  vm_compute in Hkey, Hk. inversion Hkey; inversion Hk; subst. vm_compute. discriminate.
Defined.

Lemma join_address_to_parcel_self_reference_witness :
  join_address_to_parcel bare_parcels [address_with_properties]
    "RWACCT" "Account #" = Err ValueError.
Proof.
  apply (join_address_to_parcel_self_reference
           bare_parcels [address_with_properties] "RWACCT" "Account #"
           (list_to_map [("RWACCT", VStr "R1")]) (VStr "R1")
           [] [] address_with_properties (VStr "R1") (VStr "x")).
  - repeat constructor.
  - intros r Hr. apply list_elem_of_singleton in Hr as ->. by eexists.
  - intros r Hr. apply list_elem_of_singleton in Hr as ->. by eexists.
  - by left.
  - reflexivity.
  - reflexivity.
  - reflexivity.
  - reflexivity.
  - intros a' key'' Ha'. by apply elem_of_nil in Ha'.
  - reflexivity.
  - discriminate.
Defined.

Lemma extracted_entries_are_normalised_witness :
  _extract_properties_from_description toy_rows " Owner  Name | Jane Doe "
    !! "owner_name" = Some "Jane Doe" ∧
  ∃ c0 c1, [c0; c1] ∈ toy_rows " Owner  Name | Jane Doe " ∧
           "owner_name" = sub_spaces false (py_lower (py_strip c0)) ∧
           "Jane Doe" = py_strip c1 ∧
           normalised_label "owner_name" = true ∧ py_strip "Jane Doe" = "Jane Doe".
Proof.
  split; [vm_compute; reflexivity|].
  apply (extracted_entries_are_normalised toy_rows " Owner  Name | Jane Doe "
           "owner_name" "Jane Doe").
  vm_compute; reflexivity.
Defined.

Lemma parse_description_overwrites_witness :
  ∃ out,
    parse_description_to_properties toy_rows pidn_parcels = Ok out ∧
    same_records_and_geometry (fc_features pidn_parcels) (fc_features out) ∧
    attribute_at (fc_features out) 0 "pidn" = Some (VStr "22-41-16").
Proof.
  eexists. split; [vm_compute; reflexivity|].
  split; [|vm_compute; reflexivity].
  refine (proj1 (parse_description_overwrites toy_rows pidn_parcels _ _)).
  vm_compute; reflexivity.
Defined.

Lemma merge_by_pidn_precedence_witness :
  ∃ out f',
    merge_by_pidn toy_table tabled_parcels tabled_addresses = Ok out ∧
    fc_features out !! 0%nat = Some f' ∧
    properties_or_empty f' !! "pidn" = Some (VStr "22-41-16") ∧
    properties_or_empty f' !! "owner" = Some (VStr "J. Doe") ∧
    properties_or_empty f' !! "street" = Some (VStr "12 Elm St").
Proof.
  eexists.
  destruct (merge_by_pidn_precedence toy_table tabled_parcels tabled_addresses _
              ltac:(vm_compute; reflexivity) 0%nat tabled_parcel eq_refl)
    as (f' & parsed & Hf' & Hparsed & _ & _ & Hlast).
  exists f'. split; [vm_compute; reflexivity|]. split; [exact Hf'|].
  vm_compute in Hparsed. injection Hparsed as <-.
  rewrite (Hlast [] tabled_address []
             (_extract_properties_from_description toy_table
                "pidn|22-41-16;Owner|J. Doe;Street|12 Elm St")).
  - repeat split; vm_compute; reflexivity.
  - reflexivity.
  - reflexivity.
  - vm_compute; reflexivity.
  - vm_compute; discriminate.
  - intros a' ap' Ha'. by apply elem_of_nil in Ha'.
Defined.

Lemma convert_to_2d_coordinates_idempotent_witness :
  ∃ out, convert_to_2d_coordinates elevated_parcels = Ok out ∧
         convert_to_2d_coordinates out = Ok out.
Proof.
  eexists. split; [vm_compute; reflexivity|].
  apply (convert_to_2d_coordinates_idempotent elevated_parcels).
  vm_compute; reflexivity.
Defined.

Lemma convert_to_2d_coordinates_truncates_witness :
  ∃ out, convert_to_2d_coordinates elevated_parcels = Ok out ∧
         fc_crs out = fc_crs elevated_parcels ∧
         length (fc_features out) = length (fc_features elevated_parcels).
Proof.
  eexists. split; [vm_compute; reflexivity|].
  destruct (convert_to_2d_coordinates_truncates elevated_parcels _
              ltac:(vm_compute; reflexivity)) as (Hcrs & Hlen & _).
  split; [exact Hcrs|exact Hlen].
Defined.

Lemma detect_coordinate_system_range_witness :
  detect_coordinate_system state_plane_parcels = Ok EPSG_3739 ∧
  (EPSG_3739 = EPSG_4326 ∨ EPSG_3739 = EPSG_3739 ∨ EPSG_3739 = EPSG_3738).
Proof.
  split; [vm_compute; reflexivity|].
  refine (proj1 (detect_coordinate_system_range state_plane_parcels EPSG_3739 _)).
  vm_compute; reflexivity.
Defined.

Lemma detect_coordinate_system_index_error_witness :
  detect_coordinate_system empty_ring_parcels = Err IndexError.
Proof.
  apply (detect_coordinate_system_index_error empty_ring_parcels
           (mk_feature (Some {| g_type := "Polygon";
                                g_coordinates := Some (CList [CList []]) |}) [])
           {| g_type := "Polygon"; g_coordinates := Some (CList [CList []]) |} []);
    try reflexivity.
  by left.
Defined.

Lemma unique_id_injective_witness :
  unique_id "Teton" 12 = unique_id "TETON" 12 ∧
  py_lower "Teton" = py_lower "TETON" ∧ 12%nat = 12%nat.
Proof.
  split; [vm_compute; reflexivity|].
  apply (unique_id_injective "Teton" "TETON" 12 12).
  vm_compute; reflexivity.
Defined.
